(** * Conch shell: the API client's version gate, entity accessors and
      output formatting, embedded from the Go sources.

    The Go code is translated function by function.  Package-level
    variables of [pkg/util] live in an explicit state record, calls to the
    API server are events appended to a log and answered by a server
    oracle, and the three ways a Go function can end (normal return,
    [util.Bail], a run-time panic) are the three constructors of
    [Outcome]. *)

From Stdlib Require Import ZArith NArith Ascii String List Lia Bool.
From stdpp Require Import base option list strings pretty gmap.

Local Open Scope string_scope.
Local Open Scope list_scope.

(** ** Go's [strings] and [strconv] helpers used by the sources

    Go strings are byte sequences; [string] is a list of bytes too.  Every
    cut set and separator the sources pass is a single ASCII byte, for
    which Go's rune-wise functions agree with the byte-wise ones below. *)

Module Strings.

(** [s != ""] *)
Definition nonEmpty (s : string) : bool :=
  match s with EmptyString => false | String _ _ => true end.

(** [strings.IndexByte(set, c) >= 0] *)
Fixpoint ContainsByte (set : string) (c : ascii) : bool :=
  match set with
  | EmptyString => false
  | String d rest => Ascii.eqb c d || ContainsByte rest c
  end.

(** [strings.TrimLeft(s, cutset)]: drop every leading byte of [s] that
    occurs in [cutset]. *)
Fixpoint TrimLeft (s cutset : string) : string :=
  match s with
  | EmptyString => EmptyString
  | String c rest =>
      if ContainsByte cutset c then TrimLeft rest cutset else s
  end.

(** [strings.Split(s, sep)] for a one-byte separator.  The result is
    never empty: [Split("", sep)] is the one-element slice [[""]]. *)
Fixpoint Split (s : string) (sep : ascii) : list string :=
  match s with
  | EmptyString => [EmptyString]
  | String c rest =>
      if Ascii.eqb c sep then EmptyString :: Split rest sep
      else match Split rest sep with
           | hd :: tl => String c hd :: tl
           | [] => [String c EmptyString]
           end
  end.

(** [strings.SplitN(s, sep, n)] for [n >= 0]: at most [n] pieces, the
    last one holding the unsplit remainder. *)
Fixpoint SplitN (s : string) (sep : ascii) (n : nat) {struct s}
  : list string :=
  match n with
  | O => []
  | S O => [s]
  | S (S _ as n') =>
      match s with
      | EmptyString => [EmptyString]
      | String c rest =>
          if Ascii.eqb c sep then EmptyString :: SplitN rest sep n'
          else match SplitN rest sep n with
               | hd :: tl => String c hd :: tl
               | [] => [String c EmptyString]
               end
      end
  end.

(** [strings.IndexByte(s, c)] together with the two slices
    [s[:i]] and [s[i+1:]] the callers take; [None] stands for [-1]. *)
Fixpoint CutByte (s : string) (c : ascii) : option (string * string) :=
  match s with
  | EmptyString => None
  | String d rest =>
      if Ascii.eqb d c then Some (EmptyString, rest)
      else match CutByte rest c with
           | Some (before, after) => Some (String d before, after)
           | None => None
           end
  end.

Definition isDigit (c : ascii) : bool :=
  let n := N_of_ascii c in (48 <=? n)%N && (n <=? 57)%N.

Fixpoint digitsValue (s : string) (acc : N) : option N :=
  match s with
  | EmptyString => Some acc
  | String c rest =>
      if isDigit c
      then digitsValue rest (acc * 10 + (N_of_ascii c - 48))%N
      else None
  end.

Definition maxUint64 : N := 18446744073709551615%N.

(** [strconv.ParseUint(s, 10, 64)]: a syntax error on the empty string
    and on any non-digit, a range error above [2^64-1]. *)
Definition ParseUint (s : string) : option N :=
  match s with
  | EmptyString => None
  | _ => match digitsValue s 0%N with
         | Some n => if (n <=? maxUint64)%N then Some n else None
         | None => None
         end
  end.

(** [strconv.FormatUint(n, 10)], also what [%d] prints. *)
Definition FormatUint (n : N) : string := pretty n.

Fixpoint Join (l : list string) (sep : string) : string :=
  match l with
  | [] => EmptyString
  | [x] => x
  | x :: rest => x +:+ sep +:+ Join rest sep
  end.

Fixpoint Repeat (c : ascii) (n : nat) : string :=
  match n with
  | O => EmptyString
  | S k => String c (Repeat c k)
  end.

End Strings.

(** ** The semantic-version library (github.com/blang/semver 3.5.1) *)

Module semver.
Import Strings.

Record PRVersion := {
  VersionStr : string;
  VersionNum : N;
  IsNum : bool
}.

Record Version := {
  Major : N;
  Minor : N;
  Patch : N;
  Pre : list PRVersion;
  Build : list string
}.

Definition numbers : string := "0123456789".
Definition alphas : string :=
  "abcdefghijklmnopqrstuvwxyzABCDEFGHIJKLMNOPQRSTUVWXYZ-".
Definition alphanum : string := alphas +:+ numbers.

Fixpoint containsOnly (s set : string) : bool :=
  match s with
  | EmptyString => true
  | String c rest => ContainsByte set c && containsOnly rest set
  end.

Definition hasLeadingZeroes (s : string) : bool :=
  match s with
  | String "0" (String _ _) => true
  | _ => false
  end.

(** Errors of the library are plain messages; the quoted copy of the
    offending piece that the library appends to some of them is left
    out. *)
Definition result (A : Type) : Type := A + string.

(** The three checks made on each of major, minor and patch. *)
Definition parseNumber (lower upper : string) (s : string) : result N :=
  if negb (containsOnly s numbers)
  then inr ("Invalid character(s) found in " +:+ lower +:+ " number")
  else if hasLeadingZeroes s
  then inr (upper +:+ " number must not contain leading zeroes")
  else match ParseUint s with
       | Some n => inl n
       | None => inr "strconv.ParseUint: invalid syntax or value out of range"
       end.

Definition NewPRVersion (s : string) : result PRVersion :=
  if negb (nonEmpty s) then inr "Prerelease is empty"
  else if containsOnly s numbers then
    if hasLeadingZeroes s
    then inr "Numeric PreRelease version must not contain leading zeroes"
    else match ParseUint s with
         | Some n =>
             inl {| VersionStr := ""; VersionNum := n; IsNum := true |}
         | None =>
           inr "strconv.ParseUint: invalid syntax or value out of range"
         end
  else if containsOnly s alphanum
  then inl {| VersionStr := s; VersionNum := 0; IsNum := false |}
  else inr "Invalid character(s) found in prerelease".

Fixpoint parsePre (l : list string) : result (list PRVersion) :=
  match l with
  | [] => inl []
  | s :: rest =>
      match NewPRVersion s with
      | inr e => inr e
      | inl p => match parsePre rest with
                 | inr e => inr e
                 | inl ps => inl (p :: ps)
                 end
      end
  end.

Fixpoint parseBuild (l : list string) : result (list string) :=
  match l with
  | [] => inl []
  | s :: rest =>
      if negb (nonEmpty s) then inr "Build meta data is empty"
      else if negb (containsOnly s alphanum)
      then inr "Invalid character(s) found in build meta data"
      else match parseBuild rest with
           | inr e => inr e
           | inl bs => inl (s :: bs)
           end
  end.

(** [semver.Parse] *)
Definition Parse (s : string) : result Version :=
  if negb (nonEmpty s) then inr "Version string empty"
  else
    match SplitN s "." 3 with
    | [p0; p1; p2] =>
        match parseNumber "major" "Major" p0 with
        | inr e => inr e
        | inl major =>
        match parseNumber "minor" "Minor" p1 with
        | inr e => inr e
        | inl minor =>
            let '(patchStr, build) :=
              match CutByte p2 "+" with
              | Some (before, after) => (before, Split after ".")
              | None => (p2, [])
              end in
            let '(patchStr, prerelease) :=
              match CutByte patchStr "-" with
              | Some (before, after) => (before, Split after ".")
              | None => (patchStr, [])
              end in
            match parseNumber "patch" "Patch" patchStr with
            | inr e => inr e
            | inl patch =>
            match parsePre prerelease with
            | inr e => inr e
            | inl pre =>
            match parseBuild build with
            | inr e => inr e
            | inl bld =>
                inl {| Major := major; Minor := minor; Patch := patch;
                       Pre := pre; Build := bld |}
            end end end
        end end
    | _ => inr "No Major.Minor.Patch elements found"
    end.

(** [PRVersion.Compare]: numeric identifiers sort below alphanumeric
    ones. *)
Definition comparePR (v o : PRVersion) : comparison :=
  match IsNum v, IsNum o with
  | true, false => Lt
  | false, true => Gt
  | true, true => N.compare (VersionNum v) (VersionNum o)
  | false, false => String.compare (VersionStr v) (VersionStr o)
  end.

Fixpoint comparePre (v o : list PRVersion) : comparison :=
  match v, o with
  | [], [] => Eq
  | [], _ :: _ => Lt
  | _ :: _, [] => Gt
  | a :: v', b :: o' =>
      match comparePR a b with
      | Eq => comparePre v' o'
      | c => c
      end
  end.

(** [Version.Compare]; build meta data takes no part. *)
Definition Compare (v o : Version) : comparison :=
  match N.compare (Major v) (Major o) with
  | Eq =>
    match N.compare (Minor v) (Minor o) with
    | Eq =>
      match N.compare (Patch v) (Patch o) with
      | Eq =>
          match Pre v, Pre o with
          | [], [] => Eq
          | [], _ :: _ => Gt
          | _ :: _, [] => Lt
          | pv, po => comparePre pv po
          end
      | c => c
      end
    | c => c
    end
  | c => c
  end.

Definition LT (v o : Version) : bool :=
  match Compare v o with Lt => true | _ => false end.
Definition GTE (v o : Version) : bool :=
  match Compare v o with Lt => false | _ => true end.
Definition GT (v o : Version) : bool :=
  match Compare v o with Gt => true | _ => false end.

Definition PRString (p : PRVersion) : string :=
  if IsNum p then FormatUint (VersionNum p) else VersionStr p.

(** [Version.String] *)
Definition String_ (v : Version) : string :=
  FormatUint (Major v) +:+ "." +:+ FormatUint (Minor v) +:+ "."
    +:+ FormatUint (Patch v)
    +:+ (match Pre v with
         | [] => ""
         | pre => "-" +:+ Join (map PRString pre) "."
         end)
    +:+ (match Build v with
         | [] => ""
         | bld => "+" +:+ Join bld "."
         end).

End semver.

(** ** Go's [time.Time] as far as the sources use it *)

Module time.
Import Strings.

(** A location maps an instant (seconds since 0001-01-01T00:00:00Z) to
    the zone abbreviation and UTC offset in force at that instant. *)
Record Location := { lookup : Z -> string * Z }.

Definition UTC_loc : Location := {| lookup := fun _ => ("UTC", 0%Z) |}.

(** Seconds and nanoseconds since 0001-01-01T00:00:00Z, and the location
    used for presentation.  The zero value of [time.Time] is that
    instant in UTC. *)
Record Time := { sec : Z; nsec : Z; loc : Location }.

Definition zero : Time := {| sec := 0; nsec := 0; loc := UTC_loc |}.

Definition IsZero (t : Time) : bool := (sec t =? 0)%Z && (nsec t =? 0)%Z.

Definition UTC (t : Time) : Time :=
  {| sec := sec t; nsec := nsec t; loc := UTC_loc |}.

Definition In (t : Time) (l : Location) : Time :=
  {| sec := sec t; nsec := nsec t; loc := l |}.

(** [appendInt(b, x, width)]: sign, then the digits zero-padded to
    [width]. *)
Definition appendInt (x : Z) (width : nat) : string :=
  let digits := FormatUint (Z.abs_N x) in
  (if (x <? 0)%Z then "-" else "")
    +:+ Repeat "0" (width - String.length digits) +:+ digits.

(** Civil date of the day numbered [d] from 0001-01-01 in the proleptic
    Gregorian calendar: (year, month, day). *)
Definition civil (d : Z) : Z * Z * Z :=
  let z := (d + 306)%Z in
  let era := (z / 146097)%Z in
  let doe := (z - era * 146097)%Z in
  let yoe := ((doe - doe / 1460 + doe / 36524 - doe / 146096) / 365)%Z in
  let doy := (doe - (365 * yoe + yoe / 4 - yoe / 100))%Z in
  let mp := ((5 * doy + 2) / 153)%Z in
  let day := (doy - (153 * mp + 2) / 5 + 1)%Z in
  let month := (if (mp <? 10)%Z then mp + 3 else mp - 9)%Z in
  let year := (yoe + era * 400 + (if (month <=? 2)%Z then 1 else 0))%Z in
  (year, month, day).

(** The instant as seen in its location: seconds shifted by the offset. *)
Definition zoneOf (t : Time) : string * Z := lookup (loc t) (sec t).
Definition abs (t : Time) : Z := (sec t + snd (zoneOf t))%Z.
Definition Year (t : Time) : Z := fst (fst (civil (abs t / 86400))).

Definition fmtDate (t : Time) (sep : string) : string :=
  let '(y, m, d) := civil (abs t / 86400) in
  let s := (abs t mod 86400)%Z in
  appendInt y 4 +:+ "-" +:+ appendInt m 2 +:+ "-" +:+ appendInt d 2
    +:+ sep
    +:+ appendInt (s / 3600) 2 +:+ ":" +:+ appendInt (s mod 3600 / 60) 2
    +:+ ":" +:+ appendInt (s mod 60) 2.

(** The [-0700] element; [colon] gives the [-07:00] spelling. *)
Definition fmtOffset (offset : Z) (colon : bool) : string :=
  let zone := Z.quot offset 60 in
  (if (zone <? 0)%Z then "-" else "+")
    +:+ appendInt (Z.quot (Z.abs zone) 60) 2
    +:+ (if colon then ":" else "")
    +:+ appendInt (Z.rem (Z.abs zone) 60) 2.

(** [t.Format("2006-01-02 15:04:05 -0700 MST")]; a zone without an
    abbreviation prints its offset in the [MST] position. *)
Definition FormatDateFormat (t : Time) : string :=
  let '(name, offset) := zoneOf t in
  fmtDate t " " +:+ " " +:+ fmtOffset offset false +:+ " "
    +:+ (if nonEmpty name then name else fmtOffset offset false).

Fixpoint trimZeros (rev_digits : list ascii) : list ascii :=
  match rev_digits with
  | "0"%char :: rest => trimZeros rest
  | l => l
  end.

(** The [.999999999] element: fractional seconds without trailing
    zeros, nothing at all for a whole second. *)
Definition fmtFrac (ns : Z) : string :=
  let digits := appendInt ns 9 in
  match trimZeros (rev (list_ascii_of_string digits)) with
  | [] => ""
  | l => "." +:+ string_of_list_ascii (rev l)
  end.

(** [t.Format(time.RFC3339Nano)] *)
Definition FormatRFC3339Nano (t : Time) : string :=
  let offset := snd (zoneOf t) in
  fmtDate t "T" +:+ fmtFrac (nsec t)
    +:+ (if (offset =? 0)%Z then "Z" else fmtOffset offset true).

End time.

(** ** UUIDs ([uuid.UUID] is a 16-byte array, read here as a big-endian
       128-bit number) *)

Module uuid.

Definition UUID : Type := N.

(** [uuid.UUID{}] *)
Definition Nil : UUID := 0%N.

(** [uuid.Equal(a, b)] compares the sixteen bytes. *)
Definition Equal (a b : UUID) : bool :=
  (a mod 2 ^ 128 =? b mod 2 ^ 128)%N.

Definition hexDigit (n : N) : ascii :=
  if (n <? 10)%N then ascii_of_N (48 + n) else ascii_of_N (87 + n).

(** Hex digits number [i], [i+1], ..., [i+k-1] of the 32, most
    significant first. *)
Fixpoint hexDigits (u : UUID) (i : N) (k : nat) : string :=
  match k with
  | O => EmptyString
  | S k' =>
      String (hexDigit ((u / 16 ^ (31 - i)) mod 16)%N)
             (hexDigits u (i + 1)%N k')
  end.

(** [u.String()]: the canonical 8-4-4-4-12 form. *)
Definition String_ (u : UUID) : string :=
  hexDigits u 0 8 +:+ "-" +:+ hexDigits u 8 4 +:+ "-"
    +:+ hexDigits u 12 4 +:+ "-" +:+ hexDigits u 16 4 +:+ "-"
    +:+ hexDigits u 20 12.

End uuid.

(** [fmt.Stringer] *)
Class Stringer (A : Type) := ToString : A -> string.
Global Instance uuid_Stringer : Stringer uuid.UUID := uuid.String_.
Global Instance string_Stringer : Stringer string := fun s => s.

(** ** JSON values, as handed to and produced by [encoding/json] *)

Module json.

#[warnings="-register-all"] Inductive value :=
| Null
| Bool (b : bool)
| Number (n : Z)
| Str (s : string)
| Array (l : list value)
| Object (fields : list (string * value)).

Definition keys (v : value) : list string :=
  match v with
  | Object fields => map fst fields
  | _ => []
  end.

End json.

(** ** Package [conch]: errors and entities

    One module per Go struct, so that fields keep their Go names.  Only
    the fields the sources at hand read or write are listed. *)

(** Go [error] values.  The package-level sentinels are compared by
    identity in [util.Bail]; every other error is a message. *)
Inductive error :=
| ErrBadInput
| ErrNotAuthorized
| ErrMalformedJWT
| ErrLoginFailed
| ErrorString (msg : string).

(** [errors.New(msg)] and [fmt.Errorf(...)] once formatted. *)
Definition errors_New (msg : string) : error := ErrorString msg.

Module APIError.
Record t := { ErrorMsg : string }.
Definition zero : t := {| ErrorMsg := "" |}.
End APIError.

Module Conch.
Record t := {
  BaseURL : string;
  JWT : string;
  Token : string;
  UA : string;
  Debug : bool;
  Trace : bool
}.
End Conch.

Module ConchProfile.
Record t := {
  BaseURL : string;
  JWT : string;
  Token : string;
  User : string
}.
End ConchProfile.

Module GlobalRackRole.
Record t := { ID : uuid.UUID; Name : string; RackSize : Z }.
Definition zero : t := {| ID := uuid.Nil; Name := ""; RackSize := 0 |}.
End GlobalRackRole.

Module Rack.
Record t := {
  ID : uuid.UUID;
  DatacenterRoomID : uuid.UUID;
  Name : string;
  RoleID : uuid.UUID;
  SerialNumber : string;
  AssetTag : string;
  Phase : string;
  Created : time.Time;
  Updated : time.Time
}.
End Rack.

Module RackLayoutSlot.
Record t := {
  ID : uuid.UUID;
  RackID : uuid.UUID;
  ProductID : uuid.UUID;
  RUStart : Z
}.
End RackLayoutSlot.

Module HardwareProduct.
Record t := { ID : uuid.UUID; Name : string; Alias : string }.
End HardwareProduct.

Module DeviceLocation.
Record t := { Room_AZ : string; Rack_Name : string }.
Definition zero : t := {| Room_AZ := ""; Rack_Name := "" |}.
End DeviceLocation.

Module Device.
Record t := {
  ID : string;
  AssetTag : string;
  Created : time.Time;
  LastSeen : time.Time;
  Health : string;
  Graduated : time.Time;
  Validated : time.Time;
  Deactivated : time.Time;
  Phase : string;
  Location : DeviceLocation.t
}.
End Device.

(** [MinimalDevice] represents a limited subset of Device data, that which
    is presented to the user (an earlier revision of [pkg/util]). *)
Module MinimalDevice.
Record t := {
  ID : string;
  AssetTag : string;
  Created : time.Time;
  LastSeen : time.Time;
  Health : string;
  Flags : string;
  AZ : string;
  Rack : string
}.
End MinimalDevice.

(** ** The world the client runs in *)

Module world.

Inductive Method := GET | POST | DELETE.

(** What an accessor asks of the server.  [OpHTTP] is a request built
    with [c.sling()] by an accessor whose source is at hand; the other
    constructors stand for accessors of package [conch] that the
    sources only call. *)
Inductive Op :=
| OpHTTP (m : Method) (path : string) (body : option json.value)
| OpGetVersion
| OpGetDeviceLocation (serial : string)
| OpGetRack (id : uuid.UUID)
| OpGetRackLayout (r : Rack.t)
| OpGetHardwareProducts
| OpDeleteRackLayoutSlot (id : uuid.UUID)
| OpSaveRackLayoutSlot (s : RackLayoutSlot.t).

Record Call := { receiver : Conch.t; op : Op }.

Record Response := { StatusCode : Z; Body : string }.

(** The server, as seen from the client: every answer may depend on
    all calls made before. *)
Record Server := {
  onHTTP : list Call -> Conch.t -> Method -> string -> option json.value
           -> Response + error;
  onGetVersion : list Call -> Conch.t -> string + error;
  onGetDeviceLocation : list Call -> Conch.t -> string
                        -> DeviceLocation.t + error;
  onGetRack : list Call -> Conch.t -> uuid.UUID -> Rack.t + error;
  onGetRackLayout : list Call -> Conch.t -> Rack.t
                    -> list RackLayoutSlot.t + error;
  onGetHardwareProducts : list Call -> Conch.t
                          -> list HardwareProduct.t + error;
  onDeleteRackLayoutSlot : list Call -> Conch.t -> uuid.UUID
                           -> option error;
  onSaveRackLayoutSlot : list Call -> Conch.t -> RackLayoutSlot.t
                         -> option error
}.

(** A table handed to the table writer: its header and its rows. *)
Record Table := { Header : list string; Rows : list (list string) }.

(** What is printed on standard output.  JSON is kept as the value
    given to the encoder. *)
Inductive Output :=
| OutJSON (v : json.value)
| OutTable (t : Table)
| OutLine (s : string).

(** The package-level variables of [pkg/util] (and [GRackUUID] of the
    rack commands). *)
Record Globals := {
  UserAgent : string;
  JSON : bool;
  IgnoreConfig : bool;
  Token : string;
  BaseURL : string;
  ActiveProfile : option ConchProfile.t;
  API : option Conch.t;
  Debug : bool;
  Trace : bool;
  FlagsDisableApiVersionCheck : string;
  GRackUUID : uuid.UUID
}.

Record State := {
  vars : Globals;
  calls : list Call;
  stdout : list Output
}.

(** How a Go function ends: it returns, it calls [util.Bail] (which
    reports the error and exits with status 1), or it panics. *)
Inductive Outcome (A : Type) :=
| Done (a : A)
| Bailed (e : error)
| Panicked (msg : string).
Arguments Done {A} a.
Arguments Bailed {A} e.
Arguments Panicked {A} msg.

Definition M (A : Type) : Type := State -> Outcome A * State.

Definition ret {A} (a : A) : M A := fun st => (Done a, st).

Definition bind {A B} (m : M A) (k : A -> M B) : M B :=
  fun st =>
    match m st with
    | (Done a, st') => k a st'
    | (Bailed e, st') => (Bailed e, st')
    | (Panicked msg, st') => (Panicked msg, st')
    end.

Definition panic {A} (msg : string) : M A := fun st => (Panicked msg, st).

Definition getVars : M Globals := fun st => (Done (vars st), st).

Definition setVars (f : Globals -> Globals) : M unit :=
  fun st => (Done tt, {| vars := f (vars st); calls := calls st;
                         stdout := stdout st |}).

Definition print (o : Output) : M unit :=
  fun st => (Done tt, {| vars := vars st; calls := calls st;
                         stdout := stdout st ++ [o] |}).

(** Perform a call: the server answers from the history so far, and the
    call is appended to the log. *)
Definition perform {A} (c : Conch.t) (o : Op)
           (answer : list Call -> A) : M A :=
  fun st =>
    (Done (answer (calls st)),
     {| vars := vars st;
        calls := calls st ++ [{| receiver := c; op := o |}];
        stdout := stdout st |}).

(** [for _, x := range l { body }] *)
Fixpoint forEach {A} (l : list A) (body : A -> M unit) : M unit :=
  match l with
  | [] => ret tt
  | x :: rest => bind (body x) (fun _ => forEach rest body)
  end.

End world.

Notation "'let*' x ':=' m 'in' k" :=
  (world.bind m (fun x => k))
    (at level 10, x binder, m at level 100, k at level 200).
Notation "m ';;;' k" :=
  (world.bind m (fun _ => k))
    (at level 100, k at level 200, right associativity).

(** ** Package [util]: version normalisation and client construction *)

Module util.
Import Strings world.

(** [semver.MustParse]: panics where [semver.Parse] reports an error. *)
Definition MustParse (s : string) : Outcome semver.Version :=
  match semver.Parse s with
  | inl v => Done v
  | inr e => Panicked ("semver: Parse(" +:+ s +:+ "): " +:+ e)
  end.

(** [CleanVersion] removes a "v" prefix, and anything after a dash. *)
Definition CleanVersion (version : string) : Outcome semver.Version :=
  let bits := Split (TrimLeft version "v") "-" in
  match bits with
  | b :: _ => MustParse b
  | [] => Panicked "index out of range"
  end.

(** A pure computation inside a command. *)
Definition lift {A} (o : Outcome A) : M A := fun st => (o, st).

(** [Bail] reports [err] on standard output (as a JSON object in JSON
    mode) and leaves through [cli.Exit(1)]: nothing after it runs.  The
    outcome keeps the error; the report itself is not modelled. *)
Definition Bail {A} (err : error) : M A := fun st => (Bailed err, st).

Definition DisableApiVersionCheck (g : Globals) : bool :=
  negb (String.eqb (FlagsDisableApiVersionCheck g) "0").

Definition set_API (a : option Conch.t) (g : Globals) : Globals :=
  {| UserAgent := UserAgent g; JSON := JSON g;
     IgnoreConfig := IgnoreConfig g; Token := Token g;
     BaseURL := BaseURL g; ActiveProfile := ActiveProfile g;
     API := a; Debug := Debug g; Trace := Trace g;
     FlagsDisableApiVersionCheck := FlagsDisableApiVersionCheck g;
     GRackUUID := GRackUUID g |}.

Definition set_JSON (b : bool) (g : Globals) : Globals :=
  {| UserAgent := UserAgent g; JSON := b;
     IgnoreConfig := IgnoreConfig g; Token := Token g;
     BaseURL := BaseURL g; ActiveProfile := ActiveProfile g;
     API := API g; Debug := Debug g; Trace := Trace g;
     FlagsDisableApiVersionCheck := FlagsDisableApiVersionCheck g;
     GRackUUID := GRackUUID g |}.

Definition set_UA (ua : string) (c : Conch.t) : Conch.t :=
  {| Conch.BaseURL := Conch.BaseURL c; Conch.JWT := Conch.JWT c;
     Conch.Token := Conch.Token c; Conch.UA := ua;
     Conch.Debug := Conch.Debug c; Conch.Trace := Conch.Trace c |}.

(** The global [API]; calling a method through it while it is nil
    panics. *)
Definition theAPI : M Conch.t :=
  let* g := getVars in
  match API g with
  | Some c => ret c
  | None => panic "invalid memory address or nil pointer dereference"
  end.

(** The two errors of the version gate, as [fmt.Errorf] builds them. *)
Definition errMajor (c : Conch.t) (sem minSem : semver.Version) : error :=
  errors_New
    ("cannot continue. the major version of API server '"
     +:+ Conch.BaseURL c +:+ "' is '"
     +:+ FormatUint (semver.Major sem) +:+ "' and we require '"
     +:+ FormatUint (semver.Major minSem) +:+ "'").

Definition errRange (c : Conch.t) (sem minSem maxSem : semver.Version)
  : error :=
  errors_New
    ("cannot continue. the API server version '"
     +:+ Conch.BaseURL c +:+ "' is '" +:+ semver.String_ sem
     +:+ "' and we require >= " +:+ semver.String_ minSem
     +:+ " and < " +:+ semver.String_ maxSem).

Section WithServer.
Variable srv : Server.

(** [conch.MinimumAPIVersion] and [conch.BreakingAPIVersion] are
    constants of package [conch]. *)
Variables MinimumAPIVersion BreakingAPIVersion : string.

(** [API.GetVersion()] *)
Definition GetVersion : M (string + error) :=
  let* c := theAPI in
  perform c OpGetVersion (fun h => onGetVersion srv h c).

(** [BuildAPI] builds a Conch object. *)
Definition BuildAPI : M unit :=
  let* g := getVars in
  (if IgnoreConfig g then
     setVars (set_API (Some
       {| Conch.BaseURL := BaseURL g; Conch.JWT := "";
          Conch.Token := Token g; Conch.UA := "";
          Conch.Debug := Debug g; Conch.Trace := Trace g |}))
   else
     let* p := match ActiveProfile g with
               | None => Bail (errors_New
                   "no active profile. Please use 'conch profile' to create or set an active profile")
               | Some p => ret p
               end in
     setVars (set_API (Some
       {| Conch.BaseURL := ConchProfile.BaseURL p;
          Conch.JWT := ConchProfile.JWT p;
          Conch.Token := ConchProfile.Token p; Conch.UA := "";
          Conch.Debug := Debug g; Conch.Trace := Trace g |}))) ;;;
  (if nonEmpty (UserAgent g)
   then setVars (fun g' =>
          set_API (option_map (set_UA (UserAgent g)) (API g')) g')
   else ret tt) ;;;
  let* r := GetVersion in
  let* version := match r with
                  | inr err => Bail err
                  | inl v => ret v
                  end in
  if DisableApiVersionCheck g then ret tt
  else
    let* sem := lift (CleanVersion version) in
    let* minSem := lift (CleanVersion MinimumAPIVersion) in
    let* maxSem := lift (CleanVersion BreakingAPIVersion) in
    let* c := theAPI in
    (if negb (semver.Major sem =? semver.Major minSem)%N
     then Bail (errMajor c sem minSem)
     else ret tt) ;;;
    (if semver.LT sem minSem || semver.GTE sem maxSem
     then Bail (errRange c sem minSem maxSem)
     else ret tt).

(** *** Device output *)

(** The zone [t.Local()] switches to, taken from the environment. *)
Variable Local : time.Location.

(** [json.Marshal] of a whole [conch.Device]; the struct tags are
    declared outside the sources at hand. *)
Variable marshalDevice : Device.t -> json.value + error.

(** [TimeStr] ensures that all Times are formatted using [.Local()]
    and [DateFormat]. *)
Definition TimeStr (t : time.Time) : string :=
  time.FormatDateFormat (time.In t Local).

(** [API.GetDeviceLocation(serial)] *)
Definition GetDeviceLocation (serial : string)
  : M (DeviceLocation.t + error) :=
  let* c := theAPI in
  perform c (OpGetDeviceLocation serial)
          (fun h => onGetDeviceLocation srv h c serial).

Definition set_Location (l : DeviceLocation.t) (d : Device.t) : Device.t :=
  {| Device.ID := Device.ID d; Device.AssetTag := Device.AssetTag d;
     Device.Created := Device.Created d;
     Device.LastSeen := Device.LastSeen d;
     Device.Health := Device.Health d;
     Device.Graduated := Device.Graduated d;
     Device.Validated := Device.Validated d;
     Device.Deactivated := Device.Deactivated d;
     Device.Phase := Device.Phase d; Device.Location := l |}.

(** The loop that fetches missing locations for the full output; it
    returns early with the first error. *)
Fixpoint fillIn (devices filledIn : list Device.t)
  : M (list Device.t + error) :=
  match devices with
  | [] => ret (inl filledIn)
  | d :: rest =>
      if negb (nonEmpty (DeviceLocation.Rack_Name (Device.Location d)))
      then
        let* r := GetDeviceLocation (Device.ID d) in
        match r with
        | inr err => ret (inr err)
        | inl loc => fillIn rest (filledIn ++ [set_Location loc d])
        end
      else fillIn rest (filledIn ++ [d])
  end.

(** [Time.MarshalJSON]: an RFC 3339 string, refused for a year outside
    [0, 9999]. *)
Definition MarshalTime (t : time.Time) : json.value + error :=
  let y := time.Year t in
  if ((y <? 0) || (10000 <=? y))%Z
  then inr (errors_New
              "Time.MarshalJSON: year outside of range [0,9999]")
  else inl (json.Str (time.FormatRFC3339Nano t)).

(** The anonymous struct of the condensed JSON output. *)
Record Condensed := {
  ID : string;
  AssetTag : string;
  Created : time.Time;
  LastSeen : time.Time;
  Health : string;
  Graduated : time.Time;
  Validated : time.Time;
  Phase : string
}.

Definition condense (d : Device.t) : Condensed :=
  {| ID := Device.ID d; AssetTag := Device.AssetTag d;
     Created := Device.Created d; LastSeen := Device.LastSeen d;
     Health := Device.Health d; Graduated := Device.Graduated d;
     Validated := Device.Validated d; Phase := Device.Phase d |}.

(** [json.Marshal] of the anonymous struct, field by field in
    declaration order, under the names of its tags. *)
Definition marshalCondensed (c : Condensed) : json.value + error :=
  match MarshalTime (Created c) with
  | inr e => inr e
  | inl created =>
  match MarshalTime (LastSeen c) with
  | inr e => inr e
  | inl lastSeen =>
  match MarshalTime (Graduated c) with
  | inr e => inr e
  | inl graduated =>
  match MarshalTime (Validated c) with
  | inr e => inr e
  | inl validated =>
      inl (json.Object
             [("id", json.Str (ID c));
              ("asset_tag", json.Str (AssetTag c));
              ("created", created);
              ("last_seen", lastSeen);
              ("health", json.Str (Health c));
              ("graduated", graduated);
              ("validated", validated);
              ("phase", json.Str (Phase c))])
  end end end end.

(** [json.Marshal] of a slice: a JSON array, or the first error. *)
Fixpoint marshalSlice {A} (f : A -> json.value + error) (l : list A)
  : list json.value + error :=
  match l with
  | [] => inl []
  | x :: rest =>
      match f x with
      | inr e => inr e
      | inl v => match marshalSlice f rest with
                 | inr e => inr e
                 | inl vs => inl (v :: vs)
                 end
      end
  end.

Definition marshalArray {A} (f : A -> json.value + error) (l : list A)
  : json.value + error :=
  match marshalSlice f l with
  | inr e => inr e
  | inl vs => inl (json.Array vs)
  end.

(** [JSONOut] marshals an interface to JSON. *)
Definition JSONOut (thingy : json.value + error) : M unit :=
  match thingy with
  | inr err => Bail err
  | inl j => print (OutJSON j)
  end.

Definition GetMarkdownTable : Table := {| Header := []; Rows := [] |}.
Definition SetHeader (t : Table) (h : list string) : Table :=
  {| Header := h; Rows := Rows t |}.
Definition Append (t : Table) (row : list string) : Table :=
  {| Header := Header t; Rows := Rows t ++ [row] |}.

(** One iteration of the table loop: the row appended for [d]. *)
Definition deviceRow (fullOutput : bool) (d : Device.t) : list string :=
  let validated :=
    if negb (time.IsZero (Device.Validated d))
    then TimeStr (time.UTC (Device.Validated d)) else "" in
  let graduated :=
    if negb (time.IsZero (Device.Graduated d))
    then TimeStr (time.UTC (Device.Graduated d)) else "" in
  let lastSeen :=
    if negb (time.IsZero (Device.LastSeen d))
    then TimeStr (time.UTC (Device.LastSeen d)) else "" in
  if fullOutput then
    [DeviceLocation.Room_AZ (Device.Location d);
     DeviceLocation.Rack_Name (Device.Location d);
     Device.ID d;
     Device.AssetTag d;
     TimeStr (time.UTC (Device.Created d));
     lastSeen;
     Device.Health d;
     validated;
     graduated;
     Device.Phase d]
  else
    [Device.ID d;
     Device.AssetTag d;
     TimeStr (time.UTC (Device.Created d));
     lastSeen;
     Device.Health d;
     validated;
     graduated;
     Device.Phase d].

Definition deviceHeader (fullOutput : bool) : list string :=
  if fullOutput then
    ["AZ"; "Rack"; "ID"; "Asset Tag"; "Created"; "Last Seen"; "Health";
     "Validated"; "Graduated"; "Phase"]
  else
    ["ID"; "Asset Tag"; "Created"; "Last Seen"; "Health"; "Validated";
     "Graduated"; "Phase"].

(** [DisplayDevices] is an abstraction to make sure that the output of
    Devices is uniform, be it tables, json, or full json. *)
Definition DisplayDevices (devices : list Device.t) (fullOutput : bool)
  : M (option error) :=
  let* filled := if fullOutput then fillIn devices []
                 else ret (inl devices) in
  match filled with
  | inr err => ret (Some err)
  | inl devices =>
      let* g := getVars in
      if JSON g then
        if fullOutput then
          JSONOut (marshalArray marshalDevice devices) ;;; ret None
        else
          let output := map condense devices in
          JSONOut (marshalArray marshalCondensed output) ;;; ret None
      else
        let table := SetHeader GetMarkdownTable (deviceHeader fullOutput) in
        let table :=
          fold_left (fun t d => Append t (deviceRow fullOutput d))
                    devices table in
        print (OutTable table) ;;; ret None
  end.

(** One iteration of the loop of [TableizeMinimalDevices]: the row
    appended for [d]. *)
Definition minimalRow (fullOutput : bool) (d : MinimalDevice.t)
  : list string :=
  let lastSeen :=
    if negb (time.IsZero (MinimalDevice.LastSeen d))
    then TimeStr (MinimalDevice.LastSeen d) else "" in
  if fullOutput then
    [MinimalDevice.AZ d;
     MinimalDevice.Rack d;
     MinimalDevice.ID d;
     MinimalDevice.AssetTag d;
     TimeStr (MinimalDevice.Created d);
     lastSeen;
     MinimalDevice.Health d;
     MinimalDevice.Flags d]
  else
    [MinimalDevice.ID d;
     MinimalDevice.AssetTag d;
     TimeStr (MinimalDevice.Created d);
     lastSeen;
     MinimalDevice.Health d;
     MinimalDevice.Flags d].

(** [TableizeMinimalDevices] is an abstraction to make sure that
    tables of Devices-turned-MinimalDevices are uniform. *)
Definition minimalHeader (fullOutput : bool) : list string :=
  if fullOutput then
    ["AZ"; "Rack"; "ID"; "Asset Tag"; "Created"; "Last Seen"; "Health";
     "Flags"]
  else
    ["ID"; "Asset Tag"; "Created"; "Last Seen"; "Health"; "Flags"].

Definition TableizeMinimalDevices (devices : list MinimalDevice.t)
           (fullOutput : bool) (table : Table) : Table :=
  let table := SetHeader table (minimalHeader fullOutput) in
  fold_left (fun t d => Append t (minimalRow fullOutput d)) devices table.

End WithServer.

End util.

(** ** Package [conch]: the accessors *)

Module HardwareVendor.
Record t := { Name : string }.
Definition zero : t := {| Name := "" |}.
End HardwareVendor.

Module client.
Import Strings world.

(** Decoding a response body into a Go value that already exists
    ([json.NewDecoder(body).Decode(&v)]): the value after decoding and
    the decoder's error, if any.  The struct tags that drive the
    decoder are declared outside the sources at hand. *)
Class Unmarshal (A : Type) := unmarshal : string -> A -> A * option error.

(** Decoding into a target that may be the nil interface. *)
Definition decodeInto {A} `{Unmarshal A} (body : string) (v : option A)
  : option A * option error :=
  match v with
  | Some a => let '(a', e) := unmarshal body a in (Some a', e)
  | None => (None, None)
  end.

Definition is2xx (code : Z) : bool := (200 <=? code)%Z && (code <=? 299)%Z.

(** Modelled from the spec: [(c *Conch) isHTTPResOk], which is not among
    the sources.  "On a non-2xx response, deserialize the body into the
    APIError shape and return a generic error constructed from its
    message.  On transport failure, return the underlying transport
    error unchanged."  The deserialisation itself is done by [Receive],
    which fills [aerr]. *)
Definition isHTTPResOk (res : option Response) (err : option error)
           (aerr : APIError.t) : option error :=
  match err with
  | Some e => Some e
  | None =>
      match res with
      | Some r => if is2xx (StatusCode r) then None
                  else Some (errors_New (APIError.ErrorMsg aerr))
      | None => None
      end
  end.

Section Accessors.
Variable srv : Server.
Context {TS TF : Type} `{Unmarshal TS} `{Unmarshal TF}.

(** [sling.Receive(successV, failureV)] on a request built from
    [c.sling().New()]: send it, then decode the body into [successV]
    on a 2xx status and into [failureV] otherwise; a 204 is not
    decoded.  Returns the two targets after decoding, the response
    and the error. *)
Definition Receive (c : Conch.t) (m : Method) (path : string)
           (body : option json.value)
           (successV : option TS) (failureV : option TF)
  : M (option TS * option TF * option Response * option error) :=
  let* r := perform c (OpHTTP m path body)
                    (fun h => onHTTP srv h c m path body) in
  match r with
  | inr err => ret (successV, failureV, None, Some err)
  | inl resp =>
      if (StatusCode resp =? 204)%Z
      then ret (successV, failureV, Some resp, None)
      else if is2xx (StatusCode resp) then
        let '(s', e) := decodeInto (Body resp) successV in
        ret (s', failureV, Some resp, e)
      else
        let '(f', e) := decodeInto (Body resp) failureV in
        ret (successV, f', Some resp, e)
  end.
End Accessors.

(** The success target of a call that passes [nil]. *)
Global Instance unmarshal_nil : Unmarshal unit := fun _ u => (u, None).

Section RackRoles.
Variable srv : Server.
Context {UE : Unmarshal APIError.t}
        {UL : Unmarshal (list GlobalRackRole.t)}
        {UP : Unmarshal (option GlobalRackRole.t)}
        {UV : Unmarshal HardwareVendor.t}.

(** [GetGlobalRackRoles] fetches a list of all rack roles in the
    global domain. *)
Definition GetGlobalRackRoles (c : Conch.t)
  : M (list GlobalRackRole.t * option error) :=
  let r : list GlobalRackRole.t := [] in
  let aerr := APIError.zero in
  let* '(r', aerr', res, err) :=
    Receive srv c GET "/rack_role" None (Some r) (Some aerr) in
  ret (default r r', isHTTPResOk res err (default aerr aerr')).

(** [GetGlobalRackRole] fetches a single rack role by its UUID.  The
    result is a pointer. *)
Definition GetGlobalRackRole {I} `{Stringer I} (c : Conch.t) (id : I)
  : M (option GlobalRackRole.t * option error) :=
  let r : option GlobalRackRole.t := Some GlobalRackRole.zero in
  let aerr := APIError.zero in
  let* '(r', aerr', res, err) :=
    Receive srv c GET ("/rack_role/" +:+ ToString id) None
            (Some r) (Some aerr) in
  ret (default r r', isHTTPResOk res err (default aerr aerr')).

(** [SaveGlobalRackRole] creates or updates a rack role, based on the
    presence of an ID.  [r] is passed by pointer: the first component
    of the result is the caller's struct after the call. *)
Definition SaveGlobalRackRole (c : Conch.t) (r : GlobalRackRole.t)
  : M (GlobalRackRole.t * option error) :=
  if negb (nonEmpty (GlobalRackRole.Name r)) then ret (r, Some ErrBadInput)
  else if (GlobalRackRole.RackSize r =? 0)%Z then ret (r, Some ErrBadInput)
  else
    let aerr := APIError.zero in
    let* '(r', aerr', res, err) :=
      if uuid.Equal (GlobalRackRole.ID r) uuid.Nil then
        let j := json.Object
                   [("name", json.Str (GlobalRackRole.Name r));
                    ("rack_size", json.Number (GlobalRackRole.RackSize r))] in
        Receive srv c POST "/rack_role" (Some j) (Some (Some r)) (Some aerr)
      else
        let j := json.Object
                   [("id", json.Str (uuid.String_ (GlobalRackRole.ID r)));
                    ("name", json.Str (GlobalRackRole.Name r));
                    ("rack_size", json.Number (GlobalRackRole.RackSize r))] in
        Receive srv c POST
                ("/rack_role/" +:+ uuid.String_ (GlobalRackRole.ID r))
                (Some j) (Some (Some r)) (Some aerr) in
    ret (default r (default (Some r) r'),
         isHTTPResOk res err (default aerr aerr')).

(** [DeleteGlobalRackRole] deletes a rack role. *)
Definition DeleteGlobalRackRole {I} `{Stringer I} (c : Conch.t) (id : I)
  : M (option error) :=
  let aerr := APIError.zero in
  let* '(_, aerr', res, err) :=
    Receive srv c DELETE ("/rack_role/" +:+ ToString id) None
            (None : option unit) (Some aerr) in
  ret (isHTTPResOk res err (default aerr aerr')).

(** Modelled from the spec: [GetHardwareVendor], of which the sources
    hold the test only.  It follows the accessor contract: one GET on
    the item path seen in the test, the entity decoded on success,
    the error taken from [isHTTPResOk]. *)
Definition GetHardwareVendor (c : Conch.t) (name : string)
  : M (HardwareVendor.t * option error) :=
  let r := HardwareVendor.zero in
  let aerr := APIError.zero in
  let* '(r', aerr', res, err) :=
    Receive srv c GET ("/hardware_vendor/" +:+ name) None
            (Some r) (Some aerr) in
  ret (default r r', isHTTPResOk res err (default aerr aerr')).

End RackRoles.

End client.

(** ** The rack commands: layout import *)

Module rack.
Import Strings world util.

Record importLayoutSlot := {
  RUStart : Z;
  ProductID : uuid.UUID;
  ProductName : string;
  ProductAlias : string
}.

Definition importLayout : Type := list importLayoutSlot.

Definition set_ProductID (id : uuid.UUID) (l : importLayoutSlot)
  : importLayoutSlot :=
  {| RUStart := RUStart l; ProductID := id;
     ProductName := ProductName l; ProductAlias := ProductAlias l |}.

(** [%d] of a Go [int] *)
Definition FormatInt (z : Z) : string :=
  (if (z <? 0)%Z then "-" else "") +:+ FormatUint (Z.abs_N z).

Definition noProduct (ruStart : Z) : error :=
  errors_New ("ru_start " +:+ FormatInt ruStart
              +:+ " entry does not have a product id, name, or alias").

Section WithServer.
Variable srv : Server.
Context {UI : client.Unmarshal importLayout}.

Definition GetRack (id : uuid.UUID) : M (Rack.t + error) :=
  let* c := theAPI in
  perform c (OpGetRack id) (fun h => onGetRack srv h c id).

Definition GetRackLayout (r : Rack.t)
  : M (list RackLayoutSlot.t + error) :=
  let* c := theAPI in
  perform c (OpGetRackLayout r) (fun h => onGetRackLayout srv h c r).

Definition GetHardwareProducts : M (list HardwareProduct.t + error) :=
  let* c := theAPI in
  perform c OpGetHardwareProducts
          (fun h => onGetHardwareProducts srv h c).

Definition DeleteRackLayoutSlot (id : uuid.UUID) : M (option error) :=
  let* c := theAPI in
  perform c (OpDeleteRackLayoutSlot id)
          (fun h => onDeleteRackLayoutSlot srv h c id).

Definition SaveRackLayoutSlot (s : RackLayoutSlot.t) : M (option error) :=
  let* c := theAPI in
  perform c (OpSaveRackLayoutSlot s)
          (fun h => onSaveRackLayoutSlot srv h c s).

(** [v, err := f(); if err != nil { util.Bail(err) }] *)
Definition orBail {A} (m : M (A + error)) : M A :=
  let* r := m in
  match r with
  | inl a => ret a
  | inr err => Bail err
  end.

(** [if err := f(); err != nil { util.Bail(err) }] *)
Definition bailOn (m : M (option error)) : M unit :=
  let* r := m in
  match r with
  | None => ret tt
  | Some err => Bail err
  end.

(** The three lookup maps built from the product list; a later
    product replaces an earlier one under the same key. *)
Definition indexBy (key : HardwareProduct.t -> string)
           (productsL : list HardwareProduct.t)
  : gmap string HardwareProduct.t :=
  fold_left (fun m p => <[key p := p]> m) productsL ∅.

(** The body of the first loop: check one imported slot and turn it
    into the slot to save. *)
Definition checkSlot
           (productsAlias productsName productsID
            : gmap string HardwareProduct.t)
           (rackID : uuid.UUID) (l : importLayoutSlot)
  : M RackLayoutSlot.t :=
  let* l :=
    if uuid.Equal (ProductID l) uuid.Nil then
      let* l :=
        if nonEmpty (ProductName l) then
          match productsName !! ProductName l with
          | Some p => ret (set_ProductID (HardwareProduct.ID p) l)
          | None => ret l
          end
        else if nonEmpty (ProductAlias l) then
          match productsAlias !! ProductAlias l with
          | Some p => ret (set_ProductID (HardwareProduct.ID p) l)
          | None => ret l
          end
        else Bail (noProduct (RUStart l)) in
      if uuid.Equal (ProductID l) uuid.Nil
      then Bail (noProduct (RUStart l))
      else ret l
    else
      match productsID !! uuid.String_ (ProductID l) with
      | Some _ => ret l
      | None => Bail (errors_New
                  ("Product ID " +:+ uuid.String_ (ProductID l)
                   +:+ " is unknown"))
      end in
  ret {| RackLayoutSlot.ID := uuid.Nil;
         RackLayoutSlot.RackID := rackID;
         RackLayoutSlot.ProductID := ProductID l;
         RackLayoutSlot.RUStart := RUStart l |}.

(** The first loop: [finalLayout] grows by one slot per iteration. *)
Fixpoint checkAll
         (productsAlias productsName productsID
          : gmap string HardwareProduct.t)
         (rackID : uuid.UUID)
         (importedLayout : importLayout)
         (finalLayout : list RackLayoutSlot.t)
  : M (list RackLayoutSlot.t) :=
  match importedLayout with
  | [] => ret finalLayout
  | l :: rest =>
      let* s := checkSlot productsAlias productsName productsID
                          rackID l in
      checkAll productsAlias productsName productsID rackID rest
               (finalLayout ++ [s])
  end.

(** The action of [rackImportLayout].  [input] is what reading the
    file (or standard input) gave: the bytes or the error. *)
Definition rackImportLayout (input : string + error)
           (overwriteOpt : bool) : M unit :=
  setVars (set_JSON true) ;;;
  let* b := orBail (ret input) in
  let '(importedLayout, uerr) := client.unmarshal b ([] : importLayout) in
  bailOn (ret uerr) ;;;
  let* g := getVars in
  let* rack := orBail (GetRack (GRackUUID g)) in
  let* existingLayout := orBail (GetRackLayout rack) in
  (if (0 <? length existingLayout)%nat && negb overwriteOpt
   then Bail (errors_New
                "rack already has a layout. Use --overwrite to overwrite")
   else ret tt) ;;;
  let* productsL := orBail GetHardwareProducts in
  let productsAlias := indexBy HardwareProduct.Alias productsL in
  let productsName := indexBy HardwareProduct.Name productsL in
  let productsID :=
    indexBy (fun p => uuid.String_ (HardwareProduct.ID p)) productsL in
  let* finalLayout :=
    checkAll productsAlias productsName productsID (GRackUUID g)
             importedLayout [] in
  (if overwriteOpt then
     forEach existingLayout
             (fun s => bailOn (DeleteRackLayoutSlot (RackLayoutSlot.ID s)))
   else ret tt) ;;;
  forEach finalLayout (fun s => bailOn (SaveRackLayoutSlot s)).

End WithServer.

End rack.

(** ** The specification's wording, for comparison with the code *)

Module Spec.

(** "Strip any leading v": drop the bytes equal to [c] at the front. *)
Fixpoint dropLeading (c : ascii) (s : string) : string :=
  match s with
  | String d rest => if Ascii.eqb d c then dropLeading c rest else s
  | EmptyString => EmptyString
  end.

(** "Discard everything from the first - onward". *)
Fixpoint upTo (c : ascii) (s : string) : string :=
  match s with
  | String d rest =>
      if Ascii.eqb d c then EmptyString else String d (upTo c rest)
  | EmptyString => EmptyString
  end.

Definition normalized (version : string) : string :=
  upTo "-" (dropLeading "v" version).

(** Precedence of semantic versions without pre-release identifiers:
    major, then minor, then patch. *)
Definition precedes (a b : semver.Version) : bool :=
  (semver.Major a <? semver.Major b)%N
  || ((semver.Major a =? semver.Major b)%N
      && ((semver.Minor a <? semver.Minor b)%N
          || ((semver.Minor a =? semver.Minor b)%N
              && (semver.Patch a <? semver.Patch b)%N))).

(** "v's major equals the minimum's major and minimum <= v < breaking" *)
Definition compatible (minimum breaking v : semver.Version) : bool :=
  (semver.Major v =? semver.Major minimum)%N
  && negb (precedes v minimum) && precedes v breaking.

Definition version (major minor patch : N) : semver.Version :=
  {| semver.Major := major; semver.Minor := minor; semver.Patch := patch;
     semver.Pre := []; semver.Build := [] |}.

End Spec.

(** ** What [BuildAPI] leaves behind *)

Module built.
Import Strings world util.

(** The client object [BuildAPI] stores in [API], if it gets that far:
    [None] when the configuration is in use and no profile is active. *)
Definition builtAPI (g : Globals) : option Conch.t :=
  let withUA c :=
    if nonEmpty (UserAgent g) then set_UA (UserAgent g) c else c in
  if IgnoreConfig g then
    Some (withUA {| Conch.BaseURL := BaseURL g; Conch.JWT := "";
                    Conch.Token := Token g; Conch.UA := "";
                    Conch.Debug := Debug g; Conch.Trace := Trace g |})
  else
    match ActiveProfile g with
    | Some p =>
        Some (withUA {| Conch.BaseURL := ConchProfile.BaseURL p;
                        Conch.JWT := ConchProfile.JWT p;
                        Conch.Token := ConchProfile.Token p;
                        Conch.UA := "";
                        Conch.Debug := Debug g; Conch.Trace := Trace g |})
    | None => None
    end.

(** The state once the version endpoint has been called through [c]. *)
Definition afterGetVersion (st : State) (c : Conch.t) : State :=
  {| vars := set_API (Some c) (vars st);
     calls := calls st ++ [{| receiver := c; op := OpGetVersion |}];
     stdout := stdout st |}.

Definition accepted (r : Outcome unit * State) : Prop :=
  fst r = Done tt.

Definition rejected (r : Outcome unit * State) : Prop :=
  exists e, fst r = Bailed e.

Definition panicked {A} (r : Outcome A * State) : Prop :=
  exists msg, fst r = Panicked msg.

(** The calls made by a run that started in [st] and ended in [st']. *)
Definition newCalls (st st' : State) : list Call :=
  drop (length (calls st)) (calls st').

End built.

(** ** Concrete servers and states used by the examples *)

Module fixtures.
Import world.

Definition refused : error := ErrorString "connection refused".

(** A server that cannot be reached. *)
Definition silent : Server :=
  {| onHTTP := fun _ _ _ _ _ => inr refused;
     onGetVersion := fun _ _ => inr refused;
     onGetDeviceLocation := fun _ _ _ => inr refused;
     onGetRack := fun _ _ _ => inr refused;
     onGetRackLayout := fun _ _ _ => inr refused;
     onGetHardwareProducts := fun _ _ => inr refused;
     onDeleteRackLayoutSlot := fun _ _ _ => Some refused;
     onSaveRackLayoutSlot := fun _ _ _ => Some refused |}.

(** A server whose version endpoint reports [version]. *)
Definition reporting (version : string) : Server :=
  {| onHTTP := onHTTP silent;
     onGetVersion := fun _ _ => inl version;
     onGetDeviceLocation := onGetDeviceLocation silent;
     onGetRack := onGetRack silent;
     onGetRackLayout := onGetRackLayout silent;
     onGetHardwareProducts := onGetHardwareProducts silent;
     onDeleteRackLayoutSlot := onDeleteRackLayoutSlot silent;
     onSaveRackLayoutSlot := onSaveRackLayoutSlot silent |}.

Definition globals (flag : string) : Globals :=
  {| UserAgent := "conch"; JSON := false; IgnoreConfig := true;
     Token := "secret"; BaseURL := "https://conch.example";
     ActiveProfile := None; API := None; Debug := false; Trace := false;
     FlagsDisableApiVersionCheck := flag; GRackUUID := 7%N |}.

(** A fresh process with the given build flag for the version check. *)
Definition fresh (flag : string) : State :=
  {| vars := globals flag; calls := []; stdout := [] |}.

Definition theClient : Conch.t :=
  {| Conch.BaseURL := "https://conch.example"; Conch.JWT := "";
     Conch.Token := "secret"; Conch.UA := "conch";
     Conch.Debug := false; Conch.Trace := false |}.

End fixtures.

(** ** Replies that carry a structured error *)

Module replies.
Import world client.

(** The reply is a response with a non-2xx status whose body decodes,
    into a fresh [APIError], to the message [msg]. *)
Definition apiErrorReply {UE : Unmarshal APIError.t}
           (reply : Response + error) (msg : string) : Prop :=
  exists resp,
    reply = inl resp
    /\ is2xx (StatusCode resp) = false
    /\ unmarshal (Body resp) APIError.zero
       = ({| APIError.ErrorMsg := msg |}, None).

(** A decoder for error bodies that hold the bare message. *)
Definition plainError : Unmarshal APIError.t :=
  fun body _ => ({| APIError.ErrorMsg := body |}, None).

(** Decoders that leave their target alone; the examples never reach
    them. *)
Definition keep {A} : Unmarshal A := fun _ a => (a, None).

(** A server that answers every request with the same response. *)
Definition answering (resp : Response) : Server :=
  {| onHTTP := fun _ _ _ _ _ => inl resp;
     onGetVersion := onGetVersion fixtures.silent;
     onGetDeviceLocation := onGetDeviceLocation fixtures.silent;
     onGetRack := onGetRack fixtures.silent;
     onGetRackLayout := onGetRackLayout fixtures.silent;
     onGetHardwareProducts := onGetHardwareProducts fixtures.silent;
     onDeleteRackLayoutSlot := onDeleteRackLayoutSlot fixtures.silent;
     onSaveRackLayoutSlot := onSaveRackLayoutSlot fixtures.silent |}.

Definition broken : Response :=
  {| StatusCode := 400; Body := "totally broken" |}.

Definition role (id : uuid.UUID) (name : string) (size : Z)
  : GlobalRackRole.t :=
  {| GlobalRackRole.ID := id; GlobalRackRole.Name := name;
     GlobalRackRole.RackSize := size |}.

End replies.

(** ** Reading a rendered table, and the wording of the output claims *)

Module tables.
Import world.

Fixpoint indexOf (x : string) (l : list string) : option nat :=
  match l with
  | [] => None
  | y :: rest =>
      if String.eqb x y then Some 0
      else option_map S (indexOf x rest)
  end.

(** The cell of [row] under the column titled [column]. *)
Definition cell (header row : list string) (column : string)
  : option string :=
  match indexOf column header with
  | Some i => row !! i
  | None => None
  end.

(** What a table row shows in the timestamp columns of its device: the
    three guarded columns are blank for a zero time, the Created column
    always holds the formatted time. *)
Definition timestampCells (Local : time.Location) (full : bool)
           (d : Device.t) (row : list string) : Prop :=
  let cellOf := cell (util.deviceHeader full) row in
  (time.IsZero (Device.LastSeen d) = true -> cellOf "Last Seen" = Some "")
  /\ (time.IsZero (Device.Validated d) = true
      -> cellOf "Validated" = Some "")
  /\ (time.IsZero (Device.Graduated d) = true
      -> cellOf "Graduated" = Some "")
  /\ cellOf "Created"
     = Some (util.TimeStr Local (time.UTC (Device.Created d)))
  /\ cellOf "Created" <> Some "".

(** The same for a row of [TableizeMinimalDevices], which has the Last
    Seen and Created columns only. *)
Definition minimalCells (Local : time.Location) (full : bool)
           (d : MinimalDevice.t) (row : list string) : Prop :=
  let cellOf := cell (util.minimalHeader full) row in
  (time.IsZero (MinimalDevice.LastSeen d) = true
   -> cellOf "Last Seen" = Some "")
  /\ cellOf "Created" = Some (util.TimeStr Local (MinimalDevice.Created d))
  /\ cellOf "Created" <> Some "".

(** Two devices with the same four timestamps (what filling in the
    location keeps). *)
Definition sameButLocation (d d' : Device.t) : Prop :=
  Device.Created d = Device.Created d'
  /\ Device.LastSeen d = Device.LastSeen d'
  /\ Device.Validated d = Device.Validated d'
  /\ Device.Graduated d = Device.Graduated d'.

(** "The fixed field set" of the condensed projection. *)
Definition condensedKeys : list string :=
  ["id"; "asset_tag"; "created"; "last_seen"; "health"; "graduated";
   "validated"; "phase"].

(** The year of [t] is one [Time.MarshalJSON] accepts. *)
Definition encodable (t : time.Time) : Prop :=
  (0 <= time.Year t < 10000)%Z.

Definition encodableDevice (d : Device.t) : Prop :=
  encodable (Device.Created d) /\ encodable (Device.LastSeen d)
  /\ encodable (Device.Graduated d) /\ encodable (Device.Validated d).

(** A device that has only just been created on the server side: no
    timestamp is set. *)
Definition blankDevice : Device.t :=
  {| Device.ID := "SERIAL1"; Device.AssetTag := "tag";
     Device.Created := time.zero; Device.LastSeen := time.zero;
     Device.Health := "unknown"; Device.Graduated := time.zero;
     Device.Validated := time.zero; Device.Deactivated := time.zero;
     Device.Phase := "integration";
     Device.Location := DeviceLocation.zero |}.

(** The same device with every field outside the condensed projection
    populated. *)
Definition placedDevice : Device.t :=
  {| Device.ID := "SERIAL1"; Device.AssetTag := "tag";
     Device.Created := time.zero; Device.LastSeen := time.zero;
     Device.Health := "unknown"; Device.Graduated := time.zero;
     Device.Validated := time.zero;
     Device.Deactivated :=
       {| time.sec := 63835596800; time.nsec := 0;
          time.loc := time.UTC_loc |};
     Device.Phase := "integration";
     Device.Location :=
       {| DeviceLocation.Room_AZ := "az-1";
          DeviceLocation.Rack_Name := "R12" |} |}.

Definition wholeDevice (d : Device.t) : json.value + error :=
  inl (json.Str (Device.ID d)).

Definition jsonMode (st : State) : State :=
  {| vars := util.set_JSON true (vars st); calls := calls st;
     stdout := stdout st |}.

End tables.

(** ** The wording of the layout-import claim, and its examples *)

Module layouts.
Import world rack.

(** Calls that change the rack layout on the server. *)
Definition mutates (o : Op) : bool :=
  match o with
  | OpSaveRackLayoutSlot _ | OpDeleteRackLayoutSlot _ => true
  | _ => false
  end.

(** The slot names a product, by name or else by alias, that the
    product list [ps] does not hold. *)
Definition unresolved (ps : list HardwareProduct.t) (l : importLayoutSlot)
  : Prop :=
  (ProductName l <> "" /\ ~ In (ProductName l) (map HardwareProduct.Name ps))
  \/ (ProductName l = "" /\ ProductAlias l <> ""
      /\ ~ In (ProductAlias l) (map HardwareProduct.Alias ps)).

(** The slot passes the first loop against the product list [ps]. *)
Definition passes (ps : list HardwareProduct.t) (rackID : uuid.UUID)
           (l : importLayoutSlot) : Prop :=
  exists s, forall st,
    checkSlot (indexBy HardwareProduct.Alias ps)
              (indexBy HardwareProduct.Name ps)
              (indexBy (fun p => uuid.String_ (HardwareProduct.ID p)) ps)
              rackID l st
    = (Done s, st).

(** A decoder that reads the file as the layout [l]. *)
Definition decodesTo (l : importLayout) : client.Unmarshal importLayout :=
  fun _ _ => (l, None).

Definition product (id : uuid.UUID) (name alias : string)
  : HardwareProduct.t :=
  {| HardwareProduct.ID := id; HardwareProduct.Name := name;
     HardwareProduct.Alias := alias |}.

Definition catalogue : list HardwareProduct.t :=
  [product 11%N "PowerEdge" "pe"; product 12%N "Arista 7050" "sw"].

Definition theRack : Rack.t :=
  {| Rack.ID := 7%N; Rack.DatacenterRoomID := 3%N; Rack.Name := "R12";
     Rack.RoleID := 4%N; Rack.SerialNumber := ""; Rack.AssetTag := "";
     Rack.Phase := "integration"; Rack.Created := time.zero;
     Rack.Updated := time.zero |}.

Definition oldSlot : RackLayoutSlot.t :=
  {| RackLayoutSlot.ID := 21%N; RackLayoutSlot.RackID := 7%N;
     RackLayoutSlot.ProductID := 11%N; RackLayoutSlot.RUStart := 1 |}.

(** A server that knows [catalogue], holds a rack with one slot and
    accepts every change. *)
Definition stocked : Server :=
  {| onHTTP := onHTTP fixtures.silent;
     onGetVersion := fun _ _ => inl "2.5.0";
     onGetDeviceLocation := onGetDeviceLocation fixtures.silent;
     onGetRack := fun _ _ _ => inl theRack;
     onGetRackLayout := fun _ _ _ => inl [oldSlot];
     onGetHardwareProducts := fun _ _ => inl catalogue;
     onDeleteRackLayoutSlot := fun _ _ _ => None;
     onSaveRackLayoutSlot := fun _ _ _ => None |}.

Definition slot (ru : Z) (id : uuid.UUID) (name alias : string)
  : importLayoutSlot :=
  {| RUStart := ru; ProductID := id; ProductName := name;
     ProductAlias := alias |}.

(** The second slot names a product the catalogue does not hold. *)
Definition badLayout : importLayout :=
  [slot 1 0%N "PowerEdge" ""; slot 3 0%N "Cray-1" ""].

Definition goodLayout : importLayout :=
  [slot 1 0%N "PowerEdge" ""; slot 3 0%N "" "sw"].

(** A process whose client has been built. *)
Definition ready : State :=
  {| vars := util.set_API (Some fixtures.theClient) (fixtures.globals "0");
     calls := []; stdout := [] |}.

End layouts.

(** ** Decimal numerals and dotted versions *)

Module numerals.
Import Strings.

(** A decimal numeral as the version parser accepts it: digits only, at
    least one, and no leading zero unless it is "0" itself. *)
Definition canonical (s : string) : Prop :=
  s <> "" /\ semver.containsOnly s semver.numbers = true
  /\ semver.hasLeadingZeroes s = false.

(** [major.minor.patch] printed in decimal. *)
Definition dotted (major minor patch : N) : string :=
  FormatUint major +:+ "." +:+ FormatUint minor +:+ "." +:+ FormatUint patch.

(** The number fits a Go [uint64]. *)
Definition fits (n : N) : Prop := (n <= maxUint64)%N.

(** Nothing, or a dash followed by anything (what [git describe] adds). *)
Definition dashTail (tail : string) : Prop :=
  tail = "" \/ exists rest, tail = String "-" rest.

End numerals.

(** ** Describing a run of the layout import *)

Module imports.
Import world rack.

(** The first loop turns the imported slot [l] into the slot [s]. *)
Definition checksTo (ps : list HardwareProduct.t) (rackID : uuid.UUID)
           (l : importLayoutSlot) (s : RackLayoutSlot.t) : Prop :=
  forall st,
    checkSlot (indexBy HardwareProduct.Alias ps)
              (indexBy HardwareProduct.Name ps)
              (indexBy (fun p => uuid.String_ (HardwareProduct.ID p)) ps)
              rackID l st
    = (Done s, st).

(** The state after the calls [ops] have been made through [c]. *)
Definition logged (c : Conch.t) (ops : list Op) (st : State) : State :=
  {| vars := vars st;
     calls := calls st ++ map (fun o => {| receiver := c; op := o |}) ops;
     stdout := stdout st |}.

(** The state in which the import runs: JSON mode is switched on. *)
Definition importing (st : State) : State :=
  {| vars := util.set_JSON true (vars st); calls := calls st;
     stdout := stdout st |}.

(** The three reads every import starts with. *)
Definition reads (st : State) (rk : Rack.t) : list Op :=
  [OpGetRack (GRackUUID (vars st)); OpGetRackLayout rk;
   OpGetHardwareProducts].

Definition deletions (overwrite : bool) (existing : list RackLayoutSlot.t)
  : list Op :=
  if overwrite
  then map (fun s => OpDeleteRackLayoutSlot (RackLayoutSlot.ID s)) existing
  else [].

Definition saves (final : list RackLayoutSlot.t) : list Op :=
  map OpSaveRackLayoutSlot final.

(** The slot the first loop builds for the product [id] at [ruStart]. *)
Definition slotFor (rackID id : uuid.UUID) (ruStart : Z)
  : RackLayoutSlot.t :=
  {| RackLayoutSlot.ID := uuid.Nil; RackLayoutSlot.RackID := rackID;
     RackLayoutSlot.ProductID := id; RackLayoutSlot.RUStart := ruStart |}.

(** A server like [layouts.stocked] that refuses to save at rack unit
    [ru]. *)
Definition refusingAt (ru : Z) : Server :=
  {| onHTTP := onHTTP layouts.stocked;
     onGetVersion := onGetVersion layouts.stocked;
     onGetDeviceLocation := onGetDeviceLocation layouts.stocked;
     onGetRack := onGetRack layouts.stocked;
     onGetRackLayout := onGetRackLayout layouts.stocked;
     onGetHardwareProducts := onGetHardwareProducts layouts.stocked;
     onDeleteRackLayoutSlot := onDeleteRackLayoutSlot layouts.stocked;
     onSaveRackLayoutSlot := fun _ _ s =>
       if (RackLayoutSlot.RUStart s =? ru)%Z
       then Some (ErrorString "rack unit is occupied") else None |}.

End imports.

(** ** Describing a run of the device display *)

Module displays.
Import world.

(** The full output fetches the location of a device whose rack name is
    empty. *)
Definition needsLocation (d : Device.t) : bool :=
  negb (Strings.nonEmpty (DeviceLocation.Rack_Name (Device.Location d))).

(** The device as displayed when the server reports the location
    [locate serial] for each serial. *)
Definition located (locate : string -> DeviceLocation.t) (d : Device.t)
  : Device.t :=
  if needsLocation d then util.set_Location (locate (Device.ID d)) d else d.

(** The location fetches a list of devices gives rise to. *)
Definition fetches (devices : list Device.t) : list Op :=
  map (fun d => OpGetDeviceLocation (Device.ID d))
      (filter (fun d => needsLocation d = true) devices).

(** A server that places every device in rack "R12" of "az-1". *)
Definition placing : Server :=
  {| onHTTP := onHTTP fixtures.silent;
     onGetVersion := onGetVersion fixtures.silent;
     onGetDeviceLocation := fun _ _ _ =>
       inl {| DeviceLocation.Room_AZ := "az-1";
              DeviceLocation.Rack_Name := "R12" |};
     onGetRack := onGetRack fixtures.silent;
     onGetRackLayout := onGetRackLayout fixtures.silent;
     onGetHardwareProducts := onGetHardwareProducts fixtures.silent;
     onDeleteRackLayoutSlot := onDeleteRackLayoutSlot fixtures.silent;
     onSaveRackLayoutSlot := onSaveRackLayoutSlot fixtures.silent |}.

(** A server that places every device but the one with serial "SERIAL2",
    which it does not know. *)
Definition misplacing : Server :=
  {| onHTTP := onHTTP fixtures.silent;
     onGetVersion := onGetVersion fixtures.silent;
     onGetDeviceLocation := fun _ _ serial =>
       if String.eqb serial "SERIAL2"
       then inr (ErrorString "no such device")
       else inl {| DeviceLocation.Room_AZ := "az-1";
                   DeviceLocation.Rack_Name := "R12" |};
     onGetRack := onGetRack fixtures.silent;
     onGetRackLayout := onGetRackLayout fixtures.silent;
     onGetHardwareProducts := onGetHardwareProducts fixtures.silent;
     onDeleteRackLayoutSlot := onDeleteRackLayoutSlot fixtures.silent;
     onSaveRackLayoutSlot := onSaveRackLayoutSlot fixtures.silent |}.

(** A device without a location whose serial is "SERIAL2". *)
Definition lostDevice : Device.t :=
  {| Device.ID := "SERIAL2"; Device.AssetTag := "";
     Device.Created := time.zero; Device.LastSeen := time.zero;
     Device.Health := "unknown"; Device.Graduated := time.zero;
     Device.Validated := time.zero; Device.Deactivated := time.zero;
     Device.Phase := "integration";
     Device.Location := DeviceLocation.zero |}.

End displays.

(** ** Device flags (an earlier revision of [pkg/util]) *)

Module flags.
Import Strings.

(** [GenerateDeviceFlags] is an abstraction to make sure that the
    'flags' field for Devices remains uniform. *)
Definition GenerateDeviceFlags (d : Device.t) : string :=
  let flags := "" in
  let flags :=
    if negb (time.IsZero (Device.Deactivated d)) then flags +:+ "X"
    else flags in
  let flags :=
    if negb (time.IsZero (Device.Validated d)) then flags +:+ "v"
    else flags in
  let flags :=
    if negb (time.IsZero (Device.Graduated d)) then flags +:+ "g"
    else flags in
  flags.

(** The three marks a device can carry. *)
Definition marks (d : Device.t) : bool * bool * bool :=
  (negb (time.IsZero (Device.Deactivated d)),
   negb (time.IsZero (Device.Validated d)),
   negb (time.IsZero (Device.Graduated d))).

End flags.

(** ** Replies that leave the caller's entity alone *)

Module quiet.
Import world client.

(** The server never sends [c] a body the success target is decoded
    from: each request fails in transport, or is answered with 204 or
    with a status outside 2xx. *)
Definition undecoded (srv : Server) (c : Conch.t) : Prop :=
  forall h m path body,
    match onHTTP srv h c m path body with
    | inl resp =>
        StatusCode resp = 204%Z \/ is2xx (StatusCode resp) = false
    | inr _ => True
    end.

(** A decoder that replaces whatever role it is given. *)
Definition overwriting : Unmarshal (option GlobalRackRole.t) :=
  fun _ _ => (Some (replies.role 9%N "decoded" 1%Z), None).

End quiet.

(** ** Go's [unicode/utf8]: counting runes *)

Module utf8.

Definition RuneSelf : N := 0x80.
Definition locb : N := 0x80.
Definition hicb : N := 0xBF.

(** The information byte [first] holds for a leading byte: the size of
    the sequence in the low three bits, the index of its accept range in
    the high four. *)
Definition xx : N := 0xF1.
Definition as_ : N := 0xF0.
Definition s1 : N := 0x02.
Definition s2 : N := 0x13.
Definition s3 : N := 0x03.
Definition s4 : N := 0x23.
Definition s5 : N := 0x34.
Definition s6 : N := 0x04.
Definition s7 : N := 0x44.

Definition first (c : N) : N :=
  if (c <? 0x80)%N then as_
  else if (c <? 0xC2)%N then xx
  else if (c <? 0xE0)%N then s1
  else if (c =? 0xE0)%N then s2
  else if (c <? 0xED)%N then s3
  else if (c =? 0xED)%N then s4
  else if (c <? 0xF0)%N then s3
  else if (c =? 0xF0)%N then s5
  else if (c <? 0xF4)%N then s6
  else if (c =? 0xF4)%N then s7
  else xx.

(** [acceptRanges]: the bounds of the second byte of a sequence. *)
Definition acceptRanges (i : N) : N * N :=
  if (i =? 0)%N then (locb, hicb)
  else if (i =? 1)%N then (0xA0, hicb)%N
  else if (i =? 2)%N then (locb, 0x9F)%N
  else if (i =? 3)%N then (0x90, hicb)%N
  else if (i =? 4)%N then (locb, 0x8F)%N
  else (0, 0)%N.

(** A continuation byte outside the bounds. *)
Definition outside (c : ascii) (lo hi : N) : bool :=
  (N_of_ascii c <? lo)%N || (hi <? N_of_ascii c)%N.

(** [utf8.RuneCountInString(s)].  Each turn of the loop counts one rune
    and moves on by its size, or by one byte where the bytes at hand are
    no well-formed sequence.  The branches on an exhausted string are
    behind the length test and are never taken. *)
Fixpoint RuneCountInString (s : string) : nat :=
  match s with
  | EmptyString => 0
  | String c rest =>
      if (N_of_ascii c <? RuneSelf)%N then S (RuneCountInString rest)
      else
        let x := first (N_of_ascii c) in
        if (x =? xx)%N then S (RuneCountInString rest)
        else
          let size := N.land x 7 in
          if (N.of_nat (String.length s) <? size)%N
          then S (RuneCountInString rest)
          else
            let '(lo, hi) := acceptRanges (N.shiftr x 4) in
            match rest with
            | EmptyString => S (RuneCountInString rest)
            | String c1 rest1 =>
                if outside c1 lo hi then S (RuneCountInString rest)
                else if (size =? 2)%N then S (RuneCountInString rest1)
                else
                  match rest1 with
                  | EmptyString => S (RuneCountInString rest)
                  | String c2 rest2 =>
                      if outside c2 locb hicb
                      then S (RuneCountInString rest)
                      else if (size =? 3)%N
                      then S (RuneCountInString rest2)
                      else
                        match rest2 with
                        | EmptyString => S (RuneCountInString rest)
                        | String c3 rest3 =>
                            if outside c3 locb hicb
                            then S (RuneCountInString rest)
                            else S (RuneCountInString rest3)
                        end
                  end
            end
  end.

(** Every byte is below [RuneSelf]. *)
Fixpoint ascii_only (s : string) : bool :=
  match s with
  | EmptyString => true
  | String c rest => (N_of_ascii c <? RuneSelf)%N && ascii_only rest
  end.

End utf8.

(** ** Password rules *)

Module passwords.

Section Rules.

(** [strings.EqualFold]: equality under Unicode case folding, whose
    tables are outside the sources. *)
Variable EqualFold : string -> string -> bool.

(** [IsPasswordSane] verifies that the given password follows the
    current rules and restrictions. *)
Definition IsPasswordSane (password : string)
           (profile : option ConchProfile.t) : option error :=
  if (utf8.RuneCountInString password <? 12)%nat
  then Some (errors_New "length must be >= 12")
  else
    match profile with
    | Some p =>
        if EqualFold password (ConchProfile.User p)
        then Some (errors_New "password cannot match user name")
        else None
    | None => None
    end.

End Rules.

(** Equality of ASCII strings up to the case of letters, standing in for
    [strings.EqualFold] in the examples. *)
Definition lower (c : ascii) : ascii :=
  let n := N_of_ascii c in
  if (65 <=? n)%N && (n <=? 90)%N then ascii_of_N (n + 32) else c.

Fixpoint sameFold (a b : string) : bool :=
  match a, b with
  | EmptyString, EmptyString => true
  | String c a', String d b' => Ascii.eqb (lower c) (lower d) && sameFold a' b'
  | _, _ => false
  end.

(** A profile of the user "Correct-Horse-Battery". *)
Definition someone : ConchProfile.t :=
  {| ConchProfile.BaseURL := "https://conch.example";
     ConchProfile.JWT := ""; ConchProfile.Token := "";
     ConchProfile.User := "Correct-Horse-Battery" |}.

End passwords.

(** ** The API tester: preparing the environment *)

Module ValidationPlan.
(** [conch.ValidationPlan], of which the tester reads two fields. *)
Record t := { ID : uuid.UUID; Name : string }.
End ValidationPlan.

Module tester.

Definition ServerPlanName : string := "Conch v1 Legacy Plan: Server".
Definition SwitchPlanName : string := "Conch v1 Legacy Plan: Switch".

(** The calls [prepEnv] makes through [API]. *)
Inductive Request := GetValidationPlans | GetValidations.

(** [log.Fatalf(format, arg)] logs the formatted message and exits with
    status 1. *)
Inductive Arg := ArgError (e : error) | ArgString (s : string).
Inductive Exit := Returned | Fatalf (format : string) (arg : Arg).

(** The sixteen bytes of a UUID, as a map key. *)
Definition key (id : uuid.UUID) : N := (id mod 2 ^ 128)%N.

Section Env.

(** [conch.Validation] is declared outside the sources; the tester reads
    its ID. *)
Variable Validation : Type.
Variable ValidationID : Validation -> uuid.UUID.

(** The package variables [prepEnv] writes; a nil map is [None]. *)
Record Vars := {
  ServerPlanID : uuid.UUID;
  SwitchPlanID : uuid.UUID;
  Validations : option (gmap N Validation)
}.

(** The variables when the package is initialised. *)
Definition initial : Vars :=
  {| ServerPlanID := uuid.Nil; SwitchPlanID := uuid.Nil;
     Validations := None |}.

(** What the server answers to the two calls. *)
Record Answers := {
  plans : list ValidationPlan.t + error;
  validations : list Validation + error
}.

(** The body of the loop over the plans. *)
Definition notePlan (v : Vars) (plan : ValidationPlan.t) : Vars :=
  if String.eqb (ValidationPlan.Name plan) ServerPlanName then
    {| ServerPlanID := ValidationPlan.ID plan;
       SwitchPlanID := SwitchPlanID v; Validations := Validations v |}
  else if String.eqb (ValidationPlan.Name plan) SwitchPlanName then
    {| ServerPlanID := ServerPlanID v;
       SwitchPlanID := ValidationPlan.ID plan;
       Validations := Validations v |}
  else v.

(** The body of the loop over the validations. *)
Definition remember (m : gmap N Validation) (validation : Validation)
  : gmap N Validation :=
  <[key (ValidationID validation) := validation]> m.

(** [prepEnv]: the way it ends, the variables it leaves, and the calls
    it has made. *)
Definition prepEnv (api : Answers) (v : Vars)
  : Exit * Vars * list Request :=
  match plans api with
  | inr err =>
      (Fatalf "error getting validation plans: %s" (ArgError err), v,
       [GetValidationPlans])
  | inl ps =>
      let v := fold_left notePlan ps v in
      if uuid.Equal (SwitchPlanID v) uuid.Nil then
        (Fatalf "failed to find validation plan '%s'"
                (ArgString SwitchPlanName), v, [GetValidationPlans])
      else if uuid.Equal (ServerPlanID v) uuid.Nil then
        (Fatalf "failed to find validation plan '%s'"
                (ArgString ServerPlanName), v, [GetValidationPlans])
      else
        let v := {| ServerPlanID := ServerPlanID v;
                    SwitchPlanID := SwitchPlanID v;
                    Validations := Some ∅ |} in
        match validations api with
        | inr err =>
            (Fatalf "error getting list of validations: '%s'"
                    (ArgError err), v,
             [GetValidationPlans; GetValidations])
        | inl vs =>
            (Returned,
             {| ServerPlanID := ServerPlanID v;
                SwitchPlanID := SwitchPlanID v;
                Validations := Some (fold_left remember vs ∅) |},
             [GetValidationPlans; GetValidations])
        end
  end.

(** The UUID of the last plan called [name], and the nil UUID when there
    is none. *)
Definition lastNamed (name : string) (ps : list ValidationPlan.t)
  : uuid.UUID :=
  match last (filter (fun p => ValidationPlan.Name p = name) ps) with
  | Some p => ValidationPlan.ID p
  | None => uuid.Nil
  end.

End Env.

(** Plans and validations for the examples; a validation is its UUID
    and its name. *)
Definition plan (id : N) (name : string) : ValidationPlan.t :=
  {| ValidationPlan.ID := id; ValidationPlan.Name := name |}.

Definition legacy : Answers (N * string) :=
  {| plans := inl [plan 1 ServerPlanName; plan 2 SwitchPlanName;
                   plan 3 "Other"; plan 4 ServerPlanName];
     validations := inl [(7%N, "cpu_count"); (8%N, "dimm_count");
                         (7%N, "cpu_temperature")] |}.

Definition switchless : Answers (N * string) :=
  {| plans := inl [plan 3 "Other"];
     validations := inl [] |}.

End tester.

(** ** Github releases and their order *)

Module GithubAsset.
Record t := {
  URL : string;
  Name : string;
  State : string;
  BrowserDownloadURL : string
}.
End GithubAsset.

Module GithubRelease.
Record t := {
  URL : string;
  TagName : string;
  SemVer : semver.Version;
  Body : string;
  Name : string;
  Assets : list GithubAsset.t;
  Upgrade : bool
}.
End GithubRelease.

Module GithubReleases.
Import Strings world.

Definition t : Type := list GithubRelease.t.

Definition Len (g : t) : nat := length g.

(** [Less] of the [sort.Interface]: the order is reversed, so that the
    greatest version sorts first.  Indexing out of range and a tag that
    does not parse panic. *)
Definition Less (g : t) (i j : nat) : Outcome bool :=
  match g !! i with
  | None => Panicked "index out of range"
  | Some gi =>
      match (if negb (nonEmpty (GithubRelease.TagName gi))
             then util.MustParse "0.0.0"
             else util.MustParse
                    (TrimLeft (GithubRelease.TagName gi) "v")) with
      | Done iSem =>
          match g !! j with
          | None => Panicked "index out of range"
          | Some gj =>
              match (if negb (nonEmpty (GithubRelease.TagName gj))
                     then util.MustParse "0.0.0"
                     else util.MustParse
                            (TrimLeft (GithubRelease.TagName gj) "v")) with
              | Done jSem => Done (semver.GT iSem jSem)
              | Bailed e => Bailed e
              | Panicked msg => Panicked msg
              end
          end
      | Bailed e => Bailed e
      | Panicked msg => Panicked msg
      end
  end.

End GithubReleases.

Module releases.
Import Strings world.

(** Release number [i] of [g] has a tag that stands for the version
    [v]: the tag is empty and [v] is 0.0.0, or the tag without its
    leading "v"s parses to [v]. *)
Definition stands (g : GithubReleases.t) (i : nat) (v : semver.Version)
  : Prop :=
  exists r,
    g !! i = Some r
    /\ ((GithubRelease.TagName r = "" /\ v = Spec.version 0 0 0)
        \/ (GithubRelease.TagName r <> ""
            /\ semver.Parse (TrimLeft (GithubRelease.TagName r) "v")
               = inl v)).

Definition tagged (tag : string) : GithubRelease.t :=
  {| GithubRelease.URL := ""; GithubRelease.TagName := tag;
     GithubRelease.SemVer := Spec.version 0 0 0;
     GithubRelease.Body := ""; GithubRelease.Name := tag;
     GithubRelease.Assets := []; GithubRelease.Upgrade := false |}.

End releases.

(** ** Three-way comparisons that order their arguments *)

Module orders.

Record good {A} (cmp : A -> A -> comparison) : Prop := {
  antisym : forall a b, cmp b a = CompOpp (cmp a b);
  trans : forall a b c, cmp a b = Gt -> cmp b c = Gt -> cmp a c = Gt;
  subst : forall a b, cmp a b = Eq -> forall c, cmp a c = cmp b c
}.

(** Compare by [c1], and by [c2] where [c1] sees no difference. *)
Definition lex {A} (c1 c2 : A -> A -> comparison) (a b : A) : comparison :=
  match c1 a b with
  | Eq => c2 a b
  | c => c
  end.

Definition on {A B} (f : A -> B) (cmp : B -> B -> comparison) (a b : A)
  : comparison :=
  cmp (f a) (f b).

(** The comparison of the pre-release parts inside [Version.Compare]. *)
Definition preTop (pv po : list semver.PRVersion) : comparison :=
  match pv, po with
  | [], [] => Eq
  | [], _ :: _ => Gt
  | _ :: _, [] => Lt
  | pv, po => semver.comparePre pv po
  end.

End orders.

(** ** A server with a single endpoint *)

Module mocks.
Import world.

Definition sameMethod (a b : Method) : bool :=
  match a, b with
  | GET, GET | POST, POST | DELETE, DELETE => true
  | _, _ => false
  end.

(** A server that answers the one request [m path] with [resp], as the
    accessor tests set it up, and cannot be reached otherwise. *)
Definition only (m : Method) (path : string) (resp : Response) : Server :=
  {| onHTTP := fun _ _ m' path' _ =>
       if sameMethod m' m && String.eqb path' path then inl resp
       else inr fixtures.refused;
     onGetVersion := onGetVersion fixtures.silent;
     onGetDeviceLocation := onGetDeviceLocation fixtures.silent;
     onGetRack := onGetRack fixtures.silent;
     onGetRackLayout := onGetRackLayout fixtures.silent;
     onGetHardwareProducts := onGetHardwareProducts fixtures.silent;
     onDeleteRackLayoutSlot := onDeleteRackLayoutSlot fixtures.silent;
     onSaveRackLayoutSlot := onSaveRackLayoutSlot fixtures.silent |}.

End mocks.

(** * Properties *)

(** ** Version normalisation *)

Section VersionFacts.
Import Strings world util built.

Lemma TrimLeft_v s : TrimLeft s "v" = Spec.dropLeading "v" s.
Proof.
  induction s as [|c s IH]; simpl; [done|].
  rewrite orb_false_r. destruct (Ascii.eqb c "v"); done.
Qed.

Lemma Split_head s sep : exists tl, Split s sep = Spec.upTo sep s :: tl.
Proof.
  induction s as [|c s [tl IH]]; simpl; [by eexists|].
  destruct (Ascii.eqb c sep); [by eexists|]. rewrite IH. by eexists.
Qed.

Lemma CleanVersion_normalized version :
  CleanVersion version = MustParse (Spec.normalized version).
Proof.
  unfold CleanVersion, Spec.normalized. rewrite TrimLeft_v.
  destruct (Split_head (Spec.dropLeading "v" version) "-") as [tl ->].
  done.
Qed.

Lemma ContainsByte_cons d s c :
  ContainsByte (String d s) c = Ascii.eqb c d || ContainsByte s c.
Proof. done. Qed.

Lemma upTo_free c s : ContainsByte (Spec.upTo c s) c = false.
Proof.
  induction s as [|d s IH]; simpl; [done|].
  destruct (Ascii.eqb d c) eqn:E; simpl; [done|].
  rewrite IH, Ascii.eqb_sym, E. done.
Qed.

Lemma SplitN_free c sep s n :
  ContainsByte s c = false ->
  Forall (fun p => ContainsByte p c = false) (SplitN s sep n).
Proof.
  revert n. induction s as [|d s IH]; intros n Hs.
  - destruct n as [|[|n]]; simpl; repeat constructor.
  - simpl in Hs. apply orb_false_elim in Hs as [Hd Hs].
    destruct n as [|[|n]]; simpl.
    + constructor.
    + repeat constructor. simpl. by rewrite Hd, Hs.
    + destruct (Ascii.eqb d sep).
      * constructor; [done|]. by apply IH.
      * specialize (IH (S (S n)) Hs).
        destruct (SplitN s sep (S (S n))) as [|hd tl].
        -- repeat constructor. simpl. by rewrite Hd.
        -- inversion IH; subst. constructor; [|done].
           simpl. by rewrite Hd.
Qed.

Lemma CutByte_free_l c s sep before after :
  ContainsByte s c = false ->
  CutByte s sep = Some (before, after) ->
  ContainsByte before c = false.
Proof.
  revert before. induction s as [|d s IH]; intros before Hs Hcut;
    simpl in *; [done|].
  apply orb_false_elim in Hs as [Hd Hs].
  destruct (Ascii.eqb d sep).
  - by inversion Hcut.
  - destruct (CutByte s sep) as [[b a]|] eqn:E; [|done].
    inversion Hcut; subst. simpl. rewrite Hd. by apply IH.
Qed.

Lemma CutByte_absent c s : ContainsByte s c = false -> CutByte s c = None.
Proof.
  induction s as [|d s IH]; simpl; [done|]. intros Hs.
  apply orb_false_elim in Hs as [Hd Hs].
  rewrite Ascii.eqb_sym, Hd, IH; done.
Qed.

(** A version string without a dash parses to a version without
    pre-release identifiers. *)
Lemma Parse_no_dash s v :
  ContainsByte s "-" = false -> semver.Parse s = inl v -> semver.Pre v = [].
Proof.
  intros Hs. unfold semver.Parse.
  destruct (negb (nonEmpty s)); [done|].
  pose proof (SplitN_free "-" "." s 3 Hs) as Hparts.
  destruct (SplitN s "." 3) as [|p0 [|p1 [|p2 [|]]]]; try done.
  inversion Hparts as [|? ? _ H1]; subst.
  inversion H1 as [|? ? _ H2]; subst.
  inversion H2 as [|? ? Hp2 _]; subst.
  destruct (semver.parseNumber "major" "Major" p0); [|done].
  destruct (semver.parseNumber "minor" "Minor" p1); [|done].
  assert (exists patchStr build,
             match CutByte p2 "+" with
             | Some (before, after) => (before, Split after ".")
             | None => (p2, [])
             end = (patchStr, build)
             /\ ContainsByte patchStr "-" = false) as (ps & bd & -> & Hps).
  { destruct (CutByte p2 "+") as [[b a]|] eqn:E.
    - do 2 eexists. split; [done|]. eapply CutByte_free_l; eauto.
    - do 2 eexists. by split. }
  rewrite (CutByte_absent _ _ Hps).
  destruct (semver.parseNumber "patch" "Patch" ps); [|done]. simpl.
  destruct (semver.parseBuild bd); [|done].
  intros Hv. by inversion Hv.
Qed.

Lemma CleanVersion_no_pre version v :
  CleanVersion version = Done v -> semver.Pre v = [].
Proof.
  rewrite CleanVersion_normalized. unfold MustParse.
  destruct (semver.Parse (Spec.normalized version)) eqn:E; [|done].
  intros Hv. inversion Hv; subst.
  eapply Parse_no_dash; [|exact E]. apply upTo_free.
Qed.

End VersionFacts.

(** C3.  For every version string, [CleanVersion] parses what is left
    after stripping the leading "v"s and dropping everything from the
    first "-" on; "v2.99.10-abcde-dirty" gives 2.99.10 and "2.0.0" gives
    2.0.0. *)
Theorem CleanVersion_strips_prefix_and_suffix :
  (forall version,
      util.CleanVersion version = util.MustParse (Spec.normalized version))
  /\ Spec.normalized "v2.99.10-abcde-dirty" = "2.99.10"
  /\ util.CleanVersion "v2.99.10-abcde-dirty" = world.Done (Spec.version 2 99 10)
  /\ util.CleanVersion "2.0.0" = world.Done (Spec.version 2 0 0).
Proof.
  split; [apply CleanVersion_normalized|].
  repeat split; vm_compute; reflexivity.
Qed.

(** ** Client construction and the version gate *)

Section BuildAPIFacts.
Import Strings world util built.

Ltac run :=
  unfold bind, ret, getVars, setVars, perform, lift, Bail, theAPI,
    GetVersion, panic; simpl.

(** The version gate proper: what [BuildAPI] does with the reported
    version once the check is known to be enabled. *)
Lemma BuildAPI_unfold srv minimum breaking st c :
  builtAPI (vars st) = Some c ->
  BuildAPI srv minimum breaking st =
    (match onGetVersion srv (calls st) c with
     | inr e => Bailed e
     | inl version =>
         if DisableApiVersionCheck (vars st) then Done tt
         else
           match CleanVersion version with
           | Done sem =>
             match CleanVersion minimum with
             | Done minSem =>
               match CleanVersion breaking with
               | Done maxSem =>
                   if negb (semver.Major sem =? semver.Major minSem)%N
                   then Bailed (errMajor c sem minSem)
                   else if semver.LT sem minSem || semver.GTE sem maxSem
                   then Bailed (errRange c sem minSem maxSem)
                   else Done tt
               | Bailed e => Bailed e
               | Panicked msg => Panicked msg
               end
             | Bailed e => Bailed e
             | Panicked msg => Panicked msg
             end
           | Bailed e => Bailed e
           | Panicked msg => Panicked msg
           end
     end, afterGetVersion st c).
Proof.
  intros Hc. destruct st as [g cs out]. simpl in *.
  unfold BuildAPI, builtAPI, afterGetVersion in *. run.
  destruct (IgnoreConfig g) eqn:Hi;
    [|destruct (ActiveProfile g) eqn:Hp; [|done]];
    destruct (nonEmpty (UserAgent g)) eqn:Hu; simpl in *;
    inversion Hc; subst; clear Hc; rewrite ?Hi, ?Hu; simpl;
    unfold set_API; simpl;
    (destruct (onGetVersion srv cs _); simpl; [|done]);
    (destruct (DisableApiVersionCheck g); [done|]);
    (destruct (CleanVersion _); simpl; [|done|done]);
    (destruct (CleanVersion minimum); simpl; [|done|done]);
    (destruct (CleanVersion breaking); simpl; [|done|done]);
    (destruct (semver.Major _ =? semver.Major _)%N; simpl; [|done]);
    (destruct (semver.LT _ _ || semver.GTE _ _); done).
Qed.

Lemma GTE_LT a b : semver.GTE a b = negb (semver.LT a b).
Proof. unfold semver.GTE, semver.LT. by destruct (semver.Compare a b). Qed.

Lemma LT_precedes a b :
  semver.Pre a = [] -> semver.Pre b = [] ->
  semver.LT a b = Spec.precedes a b.
Proof.
  intros Ha Hb. unfold semver.LT, semver.Compare, Spec.precedes.
  rewrite Ha, Hb.
  destruct (N.compare_spec (semver.Major a) (semver.Major b));
    destruct (N.compare_spec (semver.Minor a) (semver.Minor b));
    destruct (N.compare_spec (semver.Patch a) (semver.Patch b));
    repeat match goal with
           | |- context [(?x <? ?y)%N] => destruct (N.ltb_spec x y)
           | |- context [(?x =? ?y)%N] => destruct (N.eqb_spec x y)
           end; simpl; try reflexivity; lia.
Qed.

Lemma min_2_0_0 : CleanVersion "2.0.0" = Done (Spec.version 2 0 0).
Proof. vm_compute. reflexivity. Qed.

Lemma max_3_0_0 : CleanVersion "3.0.0" = Done (Spec.version 3 0 0).
Proof. vm_compute. reflexivity. Qed.

(** With the bounds 2.0.0 and 3.0.0 the gate accepts the compatible
    versions and bails on all others. *)
Lemma gate_2_3 srv st c version v :
  builtAPI (vars st) = Some c ->
  DisableApiVersionCheck (vars st) = false ->
  onGetVersion srv (calls st) c = inl version ->
  CleanVersion version = Done v ->
  fst (BuildAPI srv "2.0.0" "3.0.0" st) =
    if Spec.compatible (Spec.version 2 0 0) (Spec.version 3 0 0) v
    then Done tt
    else if negb (semver.Major v =? 2)%N
         then Bailed (errMajor c v (Spec.version 2 0 0))
         else Bailed (errRange c v (Spec.version 2 0 0)
                               (Spec.version 3 0 0)).
Proof.
  intros Hc Hd Hs Hv. rewrite (BuildAPI_unfold _ _ _ _ _ Hc).
  rewrite Hs, Hd, Hv, min_2_0_0, max_3_0_0. simpl fst.
  pose proof (CleanVersion_no_pre _ _ Hv) as Hpre.
  rewrite GTE_LT, !LT_precedes by done.
  unfold Spec.compatible. simpl semver.Major.
  destruct (semver.Major v =? 2)%N; simpl; [|done].
  destruct (Spec.precedes v (Spec.version 2 0 0)); simpl; [done|].
  by destruct (Spec.precedes v (Spec.version 3 0 0)).
Qed.

End BuildAPIFacts.

(** C2.  With minimum 2.0.0 and breaking 3.0.0, client construction
    accepts the server version v exactly when v has the minimum's major
    and minimum <= v < breaking, and bails otherwise; 1.9.9 and 3.0.0 are
    rejected, 2.5.0 and 2.99.99 accepted. *)
Theorem BuildAPI_accepts_exactly_compatible_versions
        (srv : world.Server) (st : world.State) (c : Conch.t)
        (version : string) :
  built.builtAPI (world.vars st) = Some c ->
  util.DisableApiVersionCheck (world.vars st) = false ->
  world.onGetVersion srv (world.calls st) c = inl version ->
  let r := util.BuildAPI srv "2.0.0" "3.0.0" st in
  (forall v, util.CleanVersion version = world.Done v ->
     (built.accepted r <->
        Spec.compatible (Spec.version 2 0 0) (Spec.version 3 0 0) v = true)
     /\ (built.rejected r <->
        Spec.compatible (Spec.version 2 0 0) (Spec.version 3 0 0) v = false))
  /\ (version = "1.9.9" -> built.rejected r)
  /\ (version = "2.5.0" -> built.accepted r)
  /\ (version = "3.0.0" -> built.rejected r)
  /\ (version = "2.99.99" -> built.accepted r).
Proof.
  intros Hc Hd Hs r.
  assert (Hgen : forall v, util.CleanVersion version = world.Done v ->
     (built.accepted r <->
        Spec.compatible (Spec.version 2 0 0) (Spec.version 3 0 0) v = true)
     /\ (built.rejected r <->
        Spec.compatible (Spec.version 2 0 0) (Spec.version 3 0 0) v = false)).
  { intros v Hv. unfold built.accepted, built.rejected, r.
    rewrite (gate_2_3 _ _ _ _ _ Hc Hd Hs Hv).
    destruct (Spec.compatible _ _ v).
    - split; split; try done. by intros [e He].
    - destruct (negb _); (split; split; try done; intros _; by eexists). }
  split; [exact Hgen|].
  repeat split; intros ->.
  - by apply (Hgen (Spec.version 1 9 9)).
  - by apply (Hgen (Spec.version 2 5 0)).
  - by apply (Hgen (Spec.version 3 0 0)).
  - by apply (Hgen (Spec.version 2 99 99)).
Qed.

Lemma BuildAPI_accepts_exactly_compatible_versions_witness :
  built.accepted
    (util.BuildAPI (fixtures.reporting "2.5.0") "2.0.0" "3.0.0"
                   (fixtures.fresh "0")).
Proof.
  pose proof (BuildAPI_accepts_exactly_compatible_versions
                (fixtures.reporting "2.5.0") (fixtures.fresh "0")
                fixtures.theClient "2.5.0"
                eq_refl eq_refl eq_refl) as H.
  simpl in H. destruct H as (_ & _ & H & _). apply H. reflexivity.
Defined.

(** C9, as stated, fails: with the check disabled ([FlagsDisableApiVersionCheck]
    other than "0") the version endpoint is still called, and client
    construction bails when that call fails. *)
Lemma BuildAPI_disabled_check_still_calls_version_endpoint :
  util.DisableApiVersionCheck (world.vars (fixtures.fresh "1")) = true
  /\ map world.op
         (world.calls
            (snd (util.BuildAPI (fixtures.reporting "2.5.0") "2.0.0" "3.0.0"
                                (fixtures.fresh "1"))))
     = [world.OpGetVersion]
  /\ fst (util.BuildAPI fixtures.silent "2.0.0" "3.0.0" (fixtures.fresh "1"))
     = world.Bailed fixtures.refused.
Proof. repeat split; vm_compute; reflexivity. Qed.

(** C9, amended.  Client construction calls the version endpoint exactly
    once whether or not the check is disabled.  With the check disabled
    it bails if that call fails and otherwise succeeds whatever version
    string the server reports: nothing is parsed and no gate is applied. *)
Theorem BuildAPI_disabled_check_skips_only_the_gate
        (srv : world.Server) (minimum breaking : string)
        (st : world.State) (c : Conch.t) :
  built.builtAPI (world.vars st) = Some c ->
  let r := util.BuildAPI srv minimum breaking st in
  built.newCalls st (snd r)
    = [{| world.receiver := c; world.op := world.OpGetVersion |}]
  /\ (util.DisableApiVersionCheck (world.vars st) = true ->
      fst r = match world.onGetVersion srv (world.calls st) c with
              | inl _ => world.Done tt
              | inr e => world.Bailed e
              end).
Proof.
  intros Hc r. unfold r. rewrite (BuildAPI_unfold _ _ _ _ _ Hc). split.
  - unfold built.newCalls, built.afterGetVersion. simpl.
    apply drop_app_length.
  - intros Hd. simpl. rewrite Hd.
    by destruct (world.onGetVersion srv (world.calls st) c).
Qed.

Lemma BuildAPI_disabled_check_skips_only_the_gate_witness :
  built.builtAPI (world.vars (fixtures.fresh "1")) = Some fixtures.theClient
  /\ fst (util.BuildAPI (fixtures.reporting "not a version") "2.0.0" "3.0.0"
                        (fixtures.fresh "1"))
     = world.Done tt.
Proof.
  split; [reflexivity|].
  exact (proj2 (BuildAPI_disabled_check_skips_only_the_gate
                  (fixtures.reporting "not a version") "2.0.0" "3.0.0"
                  (fixtures.fresh "1") fixtures.theClient eq_refl)
               eq_refl).
Defined.

(** C10.  [CleanVersion] is partial: when the normalised string is not a
    semantic version it panics, and so does client construction (with
    the check enabled) against a server that reports such a string; the
    empty string is one. *)
Theorem CleanVersion_panics_on_invalid_version (version e : string) :
  semver.Parse (Spec.normalized version) = inr e ->
  util.CleanVersion version
    = world.Panicked ("semver: Parse(" +:+ Spec.normalized version +:+ "): "
                      +:+ e)
  /\ (forall srv minimum breaking st c,
        built.builtAPI (world.vars st) = Some c ->
        util.DisableApiVersionCheck (world.vars st) = false ->
        world.onGetVersion srv (world.calls st) c = inl version ->
        built.panicked (util.BuildAPI srv minimum breaking st)
        /\ ~ built.rejected (util.BuildAPI srv minimum breaking st)).
Proof.
  intros He.
  assert (Hp : util.CleanVersion version
               = world.Panicked ("semver: Parse(" +:+ Spec.normalized version
                                 +:+ "): " +:+ e)).
  { rewrite CleanVersion_normalized. unfold util.MustParse. by rewrite He. }
  split; [exact Hp|].
  intros srv minimum breaking st c Hc Hd Hs.
  unfold built.panicked, built.rejected.
  rewrite (BuildAPI_unfold _ _ _ _ _ Hc), Hs, Hd, Hp. simpl.
  split; [by eexists|]. by intros [e' He'].
Qed.

Lemma CleanVersion_panics_on_invalid_version_witness :
  semver.Parse (Spec.normalized "") = inr "Version string empty"
  /\ util.CleanVersion "" = world.Panicked "semver: Parse(): Version string empty"
  /\ built.panicked (util.BuildAPI (fixtures.reporting "") "2.0.0" "3.0.0"
                                   (fixtures.fresh "0")).
Proof.
  pose proof (CleanVersion_panics_on_invalid_version
                "" "Version string empty" eq_refl) as [H1 H2].
  split; [reflexivity|]. split; [exact H1|].
  exact (proj1 (H2 (fixtures.reporting "") "2.0.0" "3.0.0"
                   (fixtures.fresh "0") fixtures.theClient
                   eq_refl eq_refl eq_refl)).
Defined.

(** ** Entity accessors *)

Section AccessorFacts.
Import Strings world client built replies.
Variable srv : Server.
Context `{UE : Unmarshal APIError.t}.

Lemma is2xx_204 code : is2xx code = false -> (code =? 204)%Z = false.
Proof. unfold is2xx. lia. Qed.

(** A request always adds exactly one call to the log, whatever the
    reply. *)
Lemma Receive_calls {TS TF} `{Unmarshal TS} `{Unmarshal TF}
      c m path body (sv : option TS) (fv : option TF) st :
  calls (snd (Receive srv c m path body sv fv st))
  = calls st ++ [{| receiver := c; op := OpHTTP m path body |}].
Proof.
  unfold Receive, bind, perform, ret. simpl.
  destruct (onHTTP srv (calls st) c m path body) as [resp|err]; [|done].
  destruct (StatusCode resp =? 204)%Z; [done|].
  destruct (is2xx (StatusCode resp)).
  - by destruct (decodeInto (Body resp) sv).
  - by destruct (decodeInto (Body resp) fv).
Qed.

(** On a structured error reply the success target is left alone and
    [isHTTPResOk] turns the decoded message into the error. *)
Lemma Receive_api_error {TS} `{Unmarshal TS}
      c m path body (sv : option TS) st msg :
  apiErrorReply (onHTTP srv (calls st) c m path body) msg ->
  exists res st',
    Receive srv c m path body sv (Some APIError.zero) st
    = (Done (sv, Some {| APIError.ErrorMsg := msg |}, res, None), st')
    /\ isHTTPResOk res None {| APIError.ErrorMsg := msg |}
       = Some (errors_New msg).
Proof.
  intros (resp & Hr & H2 & Hu).
  unfold Receive, bind, perform, ret. simpl. rewrite Hr.
  rewrite (is2xx_204 _ H2), H2. unfold decodeInto. rewrite Hu.
  do 2 eexists. split; [reflexivity|]. simpl. by rewrite H2.
Qed.

End AccessorFacts.

(** C1.  When the reply to an accessor's request has a non-2xx status and
    a structured error body, the accessor returns an error holding the
    body's message, together with the zero value of its entity type: the
    empty [HardwareVendor], an empty list of rack roles, a pointer to the
    empty rack role.  Each accessor is taken on its own: only the reply
    to its own request matters, whatever the server does with any other
    request. *)
Theorem accessors_return_api_error_and_zero_value
        (srv : world.Server)
        `{UE : client.Unmarshal APIError.t}
        `{UL : client.Unmarshal (list GlobalRackRole.t)}
        `{UP : client.Unmarshal (option GlobalRackRole.t)}
        `{UV : client.Unmarshal HardwareVendor.t}
        (c : Conch.t) (st : world.State)
        (id : uuid.UUID) (name msg : string) :
  (replies.apiErrorReply
     (world.onHTTP srv (world.calls st) c world.GET
                   ("/hardware_vendor/" +:+ name) None) msg ->
   fst (client.GetHardwareVendor srv c name st)
   = world.Done (HardwareVendor.zero, Some (errors_New msg)))
  /\ (replies.apiErrorReply
        (world.onHTTP srv (world.calls st) c world.GET "/rack_role" None)
        msg ->
      fst (client.GetGlobalRackRoles srv c st)
      = world.Done ([], Some (errors_New msg)))
  /\ (replies.apiErrorReply
        (world.onHTTP srv (world.calls st) c world.GET
                      ("/rack_role/" +:+ uuid.String_ id) None) msg ->
      fst (client.GetGlobalRackRole srv c id st)
      = world.Done (Some GlobalRackRole.zero, Some (errors_New msg))).
Proof.
  split; [|split]; intros Hreply.
  - unfold client.GetHardwareVendor, world.bind.
    destruct (Receive_api_error srv c world.GET _ None
                (Some HardwareVendor.zero) st msg Hreply)
      as (res & st' & -> & Hok).
    simpl in *. by rewrite Hok.
  - unfold client.GetGlobalRackRoles, world.bind.
    destruct (Receive_api_error srv c world.GET _ None
                (Some ([] : list GlobalRackRole.t)) st msg Hreply)
      as (res & st' & -> & Hok).
    simpl in *. by rewrite Hok.
  - unfold client.GetGlobalRackRole, world.bind, ToString, uuid_Stringer.
    destruct (Receive_api_error srv c world.GET _ None
                (Some (Some GlobalRackRole.zero)) st msg Hreply)
      as (res & st' & -> & Hok).
    simpl in *. by rewrite Hok.
Qed.

Lemma accessors_return_api_error_and_zero_value_witness :
  fst (client.GetHardwareVendor
         (UE := replies.plainError) (UV := replies.keep)
         (mocks.only world.GET "/hardware_vendor/hardware vendor"
                     replies.broken)
         fixtures.theClient "hardware vendor" (fixtures.fresh "0"))
  = world.Done (HardwareVendor.zero, Some (errors_New "totally broken")).
Proof.
  apply (proj1 (accessors_return_api_error_and_zero_value
                  (UE := replies.plainError) (UL := replies.keep)
                  (UP := replies.keep) (UV := replies.keep)
                  (mocks.only world.GET "/hardware_vendor/hardware vendor"
                              replies.broken)
                  fixtures.theClient (fixtures.fresh "0") 0%N
                  "hardware vendor" "totally broken")).
  exists replies.broken. repeat split; reflexivity.
Defined.

(** C4.  A rack role with a name and a rack size is saved with exactly one
    request, a POST: to the collection path "/rack_role" when its UUID is
    the zero value, to the item path "/rack_role/{id}" otherwise. *)
Theorem SaveGlobalRackRole_posts_to_collection_or_item
        (srv : world.Server)
        `{UE : client.Unmarshal APIError.t}
        `{UP : client.Unmarshal (option GlobalRackRole.t)}
        (c : Conch.t) (r : GlobalRackRole.t) (st : world.State) :
  GlobalRackRole.Name r <> "" ->
  GlobalRackRole.RackSize r <> 0%Z ->
  built.newCalls st (snd (client.SaveGlobalRackRole srv c r st))
  = [{| world.receiver := c;
        world.op :=
          if uuid.Equal (GlobalRackRole.ID r) uuid.Nil
          then world.OpHTTP world.POST "/rack_role"
                 (Some (json.Object
                    [("name", json.Str (GlobalRackRole.Name r));
                     ("rack_size", json.Number (GlobalRackRole.RackSize r))]))
          else world.OpHTTP world.POST
                 ("/rack_role/" +:+ uuid.String_ (GlobalRackRole.ID r))
                 (Some (json.Object
                    [("id", json.Str (uuid.String_ (GlobalRackRole.ID r)));
                     ("name", json.Str (GlobalRackRole.Name r));
                     ("rack_size", json.Number (GlobalRackRole.RackSize r))]))
     |}].
Proof.
  intros Hname Hsize. unfold client.SaveGlobalRackRole.
  destruct (GlobalRackRole.Name r) eqn:En; [done|].
  destruct (Z.eqb_spec (GlobalRackRole.RackSize r) 0); [done|].
  unfold built.newCalls, world.bind.
  destruct (uuid.Equal (GlobalRackRole.ID r) uuid.Nil);
    cbn [negb Strings.nonEmpty]; cbv beta iota;
    match goal with
    | |- context [client.Receive srv c ?m ?p ?b ?sv ?fv st] =>
        pose proof (Receive_calls srv c m p b sv fv st) as Hcalls;
        destruct (client.Receive srv c m p b sv fv st) as [[x|e|msg] st']
    end; simpl in *;
    try (destruct x as [[[? ?] ?] ?]; simpl);
    rewrite Hcalls; apply drop_app_length.
Qed.

Lemma SaveGlobalRackRole_posts_to_collection_or_item_witness :
  map world.op
      (built.newCalls (fixtures.fresh "0")
         (snd (client.SaveGlobalRackRole
                 (UE := replies.plainError) (UP := replies.keep)
                 fixtures.silent fixtures.theClient
                 (replies.role 0%N "storage" 42%Z) (fixtures.fresh "0"))))
  = [world.OpHTTP world.POST "/rack_role"
       (Some (json.Object [("name", json.Str "storage");
                           ("rack_size", json.Number 42%Z)]))].
Proof.
  rewrite (SaveGlobalRackRole_posts_to_collection_or_item
             (UE := replies.plainError) (UP := replies.keep)
             fixtures.silent fixtures.theClient
             (replies.role 0%N "storage" 42%Z) (fixtures.fresh "0"));
    [reflexivity | discriminate | discriminate].
Defined.

(** C8.  A rack role without a name or with rack size zero is refused
    with [ErrBadInput] at once: no call is made, nothing is printed, and
    the entity comes back unchanged. *)
Theorem SaveGlobalRackRole_rejects_bad_input
        (srv : world.Server)
        `{UE : client.Unmarshal APIError.t}
        `{UP : client.Unmarshal (option GlobalRackRole.t)}
        (c : Conch.t) (r : GlobalRackRole.t) (st : world.State) :
  GlobalRackRole.Name r = "" \/ GlobalRackRole.RackSize r = 0%Z ->
  client.SaveGlobalRackRole srv c r st
  = (world.Done (r, Some ErrBadInput), st).
Proof.
  intros [Hn|Hs]; unfold client.SaveGlobalRackRole.
  - by rewrite Hn.
  - rewrite Hs. by destruct (negb _).
Qed.

Lemma SaveGlobalRackRole_rejects_bad_input_witness :
  client.SaveGlobalRackRole
    (UE := replies.plainError) (UP := replies.keep)
    fixtures.silent fixtures.theClient
    (replies.role 5%N "storage" 0%Z) (fixtures.fresh "0")
  = (world.Done (replies.role 5%N "storage" 0%Z, Some ErrBadInput),
     fixtures.fresh "0").
Proof.
  apply (SaveGlobalRackRole_rejects_bad_input
           (UE := replies.plainError) (UP := replies.keep)
           fixtures.silent fixtures.theClient
           (replies.role 5%N "storage" 0%Z) (fixtures.fresh "0")).
  right. reflexivity.
Defined.

(** ** Device output *)

Section DisplayFacts.
Import Strings world util built tables.
Variable srv : Server.
Variable Local : time.Location.
Variable marshalDevice : Device.t -> json.value + error.

Lemma append_nonempty_r a b : b <> "" -> a +:+ b <> "".
Proof. destruct a; [done|]. by destruct b. Qed.

Lemma append_nonempty_l a b : a <> "" -> a +:+ b <> "".
Proof. by destruct a. Qed.

(** A formatted time is never blank. *)
Lemma TimeStr_nonempty t : TimeStr Local t <> "".
Proof.
  unfold TimeStr, time.FormatDateFormat, time.fmtDate.
  destruct (time.zoneOf (time.In t Local)) as [name offset].
  destruct (time.civil _) as [[y m] d].
  apply append_nonempty_l, append_nonempty_r. simpl. done.
Qed.

Lemma rows_appended {A} (row : A -> list string) l t :
  fold_left (fun t d => Append t (row d)) l t
  = {| Header := Header t; Rows := Rows t ++ map row l |}.
Proof.
  revert t. induction l as [|d l IH]; intros t; simpl.
  - rewrite app_nil_r. by destruct t.
  - rewrite IH. simpl. by rewrite <- app_assoc.
Qed.

Lemma sameButLocation_refl d : sameButLocation d d.
Proof. done. Qed.

Lemma sameButLocation_set l d : sameButLocation d (set_Location l d).
Proof. done. Qed.

(** The location loop keeps the devices in order, changes nothing but
    locations and prints nothing. *)
Lemma fillIn_spec devices : forall acc st filled st',
  fillIn srv devices acc st = (Done (inl filled), st') ->
  stdout st' = stdout st /\ vars st' = vars st
  /\ exists tail, filled = acc ++ tail
                  /\ Forall2 sameButLocation devices tail.
Proof.
  induction devices as [|d devices IH]; intros acc st filled st'; simpl.
  - unfold ret. intros Hr. inversion Hr; subst.
    repeat split. exists []. by rewrite app_nil_r.
  - destruct (negb _).
    + unfold bind at 1.
      repeat (progress (unfold GetDeviceLocation, bind, theAPI, getVars,
                         perform, ret, panic; simpl)).
      destruct (API (vars st)) as [c|]; simpl; [|done].
      destruct (onGetDeviceLocation srv (calls st) c (Device.ID d))
        as [loc|err]; simpl; [|done].
      intros Hr. apply IH in Hr as (Ho & Hv & tail & -> & Hf). simpl in *.
      repeat split; [done|done|].
      exists (set_Location loc d :: tail). rewrite <- app_assoc. simpl.
      split; [done|]. constructor; [apply sameButLocation_set|done].
    + intros Hr. apply IH in Hr as (Ho & Hv & tail & -> & Hf).
      repeat split; [done|done|].
      exists (d :: tail). rewrite <- app_assoc. simpl.
      split; [done|]. constructor; [apply sameButLocation_refl|done].
Qed.

Lemma deviceRow_cells full d d' :
  sameButLocation d d' ->
  timestampCells Local full d (deviceRow Local full d').
Proof.
  intros (Hc & Hl & Hv & Hg).
  unfold timestampCells. rewrite Hc, Hl, Hv, Hg.
  assert (Hne : Some (TimeStr Local (time.UTC (Device.Created d')))
                <> Some "").
  { intros Heq. inversion Heq as [Heq'].
    by apply TimeStr_nonempty in Heq'. }
  unfold deviceRow.
  destruct full; unfold cell; simpl; repeat split; try done;
    intros ->; done.
Qed.

Lemma DisplayDevices_table devices full st st' :
  JSON (vars st) = false ->
  DisplayDevices srv Local marshalDevice devices full st = (Done None, st') ->
  exists rows,
    stdout st' = stdout st ++ [OutTable {| Header := deviceHeader full;
                                           Rows := rows |}]
    /\ Forall2 (timestampCells Local full) devices rows.
Proof.
  intros Hj. unfold DisplayDevices. unfold bind at 1.
  assert (Hshape : forall filled st1,
    stdout st1 = stdout st -> vars st1 = vars st ->
    Forall2 sameButLocation devices filled ->
    (let* g := getVars in
     if JSON g
     then if full
          then JSONOut (marshalArray marshalDevice filled) ;;;
               ret (None : option error)
          else let output := map condense filled in
               JSONOut (marshalArray marshalCondensed output) ;;; ret None
     else let table := SetHeader GetMarkdownTable (deviceHeader full) in
          let table := fold_left
                         (fun t d => Append t (deviceRow Local full d))
                         filled table in
          print (OutTable table) ;;; ret None) st1 = (Done None, st') ->
    exists rows,
      stdout st' = stdout st ++ [OutTable {| Header := deviceHeader full;
                                             Rows := rows |}]
      /\ Forall2 (timestampCells Local full) devices rows).
  { intros filled st1 Ho Hv Hf. unfold bind, getVars, print, ret. simpl.
    rewrite Hv, Hj. intros Hr. inversion Hr; subst. simpl.
    rewrite rows_appended. simpl. eexists. split; [by rewrite Ho|].
    clear -Hf. induction Hf; simpl; constructor; [|done].
    by apply deviceRow_cells. }
  destruct full.
  - destruct (fillIn srv devices [] st) as [[[filled|err]|e|msg] st1] eqn:Ef;
      try done.
    apply fillIn_spec in Ef as (Ho & Hv & tail & -> & Hf).
    by apply Hshape.
  - unfold ret at 1. apply Hshape; try done.
    clear. induction devices; constructor; [apply sameButLocation_refl|done].
Qed.

Lemma DisplayDevices_table_short devices st :
  JSON (vars st) = false ->
  DisplayDevices srv Local marshalDevice devices false st
  = (Done None,
     {| vars := vars st; calls := calls st;
        stdout := stdout st
                  ++ [OutTable {| Header := deviceHeader false;
                                  Rows := map (deviceRow Local false)
                                              devices |}] |}).
Proof.
  intros Hj. unfold DisplayDevices, bind, ret, getVars, print. simpl.
  rewrite Hj. by rewrite rows_appended.
Qed.

Lemma minimalRow_cells full d :
  minimalCells Local full d (minimalRow Local full d).
Proof.
  assert (Hne : Some (TimeStr Local (MinimalDevice.Created d)) <> Some "").
  { intros Heq. inversion Heq as [Heq'].
    by apply TimeStr_nonempty in Heq'. }
  unfold minimalCells, minimalRow.
  destruct full; unfold cell; simpl; repeat split; try done;
    intros ->; done.
Qed.

Lemma TableizeMinimalDevices_rows devices full table :
  TableizeMinimalDevices Local devices full table
  = {| Header := minimalHeader full;
       Rows := Rows table ++ map (minimalRow Local full) devices |}.
Proof. unfold TableizeMinimalDevices. by rewrite rows_appended. Qed.

End DisplayFacts.

(** C6, as stated, fails for the Created column: a device whose
    timestamps are all the zero time gets blank Last Seen, Validated and
    Graduated cells, but its Created cell shows the formatted zero date. *)
Lemma zero_Created_is_printed_as_zero_date :
  time.IsZero (Device.Created tables.blankDevice) = true
  /\ world.stdout
       (snd (util.DisplayDevices fixtures.silent time.UTC_loc
               tables.wholeDevice [tables.blankDevice] false
               (fixtures.fresh "0")))
     = [world.OutTable
          {| world.Header :=
               ["ID"; "Asset Tag"; "Created"; "Last Seen"; "Health";
                "Validated"; "Graduated"; "Phase"];
             world.Rows :=
               [["SERIAL1"; "tag"; "0001-01-01 00:00:00 +0000 UTC"; "";
                 "unknown"; ""; ""; "integration"]] |}]
  /\ tables.cell (util.deviceHeader false)
       (util.deviceRow time.UTC_loc false tables.blankDevice) "Created"
     = Some "0001-01-01 00:00:00 +0000 UTC".
Proof. repeat split; vm_compute; reflexivity. Qed.

(** C6, amended.  In table (non-JSON) device output, with or without the
    location columns, the Last Seen, Validated and Graduated cells of a
    device are blank when the timestamp is the zero time; the Created cell
    always holds the formatted time and is never blank.  Without the
    location columns a table is always printed.  The rows built by
    [TableizeMinimalDevices] treat Last Seen and Created the same way. *)
Theorem table_blanks_zero_optional_timestamps
        (srv : world.Server) (Local : time.Location)
        (marshalDevice : Device.t -> json.value + error)
        (devices : list Device.t) (full : bool) (st : world.State) :
  world.JSON (world.vars st) = false ->
  (full = false ->
   exists st', util.DisplayDevices srv Local marshalDevice devices full st
               = (world.Done None, st'))
  /\ (forall st',
        util.DisplayDevices srv Local marshalDevice devices full st
        = (world.Done None, st') ->
        exists rows,
          world.stdout st'
          = world.stdout st
            ++ [world.OutTable {| world.Header := util.deviceHeader full;
                                  world.Rows := rows |}]
          /\ Forall2 (tables.timestampCells Local full) devices rows)
  /\ (forall minimals table,
        exists rows,
          util.TableizeMinimalDevices Local minimals full table
          = {| world.Header := util.minimalHeader full;
               world.Rows := world.Rows table ++ rows |}
          /\ Forall2 (tables.minimalCells Local full) minimals rows).
Proof.
  intros Hj. repeat split.
  - intros ->. eexists. by apply DisplayDevices_table_short.
  - intros st'. by apply DisplayDevices_table.
  - intros minimals table. eexists.
    split; [apply TableizeMinimalDevices_rows|].
    induction minimals; simpl; constructor; [|done].
    apply minimalRow_cells.
Qed.

Lemma table_blanks_zero_optional_timestamps_witness :
  world.JSON (world.vars (fixtures.fresh "0")) = false
  /\ exists st',
      util.DisplayDevices fixtures.silent time.UTC_loc tables.wholeDevice
                          [tables.blankDevice] false (fixtures.fresh "0")
      = (world.Done None, st').
Proof.
  split; [reflexivity|].
  exact (proj1 (table_blanks_zero_optional_timestamps
                  fixtures.silent time.UTC_loc tables.wholeDevice
                  [tables.blankDevice] false (fixtures.fresh "0") eq_refl)
               eq_refl).
Defined.

Section CondensedFacts.
Import Strings world util built tables.
Variable srv : Server.
Variable Local : time.Location.
Variable marshalDevice : Device.t -> json.value + error.

Lemma marshalCondensed_keys c o :
  marshalCondensed c = inl o -> json.keys o = condensedKeys.
Proof.
  unfold marshalCondensed.
  destruct (MarshalTime (Created c)); [|done].
  destruct (MarshalTime (LastSeen c)); [|done].
  destruct (MarshalTime (Graduated c)); [|done].
  destruct (MarshalTime (Validated c)); [|done].
  intros Ho. by inversion Ho.
Qed.

Lemma marshalSlice_keys l : forall vs,
  marshalSlice marshalCondensed l = inl vs ->
  length vs = length l
  /\ Forall (fun o => json.keys o = condensedKeys) vs.
Proof.
  induction l as [|c l IH]; intros vs; simpl.
  - intros Hv. inversion Hv. by split.
  - destruct (marshalCondensed c) as [o|] eqn:Eo; [|done].
    destruct (marshalSlice marshalCondensed l) as [os|]; [|done].
    intros Hv. inversion Hv; subst. destruct (IH os eq_refl) as [Hl Hf].
    split; [simpl; by rewrite Hl|].
    constructor; [by eapply marshalCondensed_keys|done].
Qed.

Lemma MarshalTime_encodable t :
  encodable t -> MarshalTime t = inl (json.Str (time.FormatRFC3339Nano t)).
Proof.
  unfold encodable, MarshalTime. intros [Hlo Hhi].
  destruct (Z.ltb_spec (time.Year t) 0); [lia|].
  destruct (Z.leb_spec 10000 (time.Year t)); [lia|]. done.
Qed.

Lemma marshalSlice_encodable devices :
  Forall encodableDevice devices ->
  exists vs, marshalSlice marshalCondensed (map condense devices) = inl vs.
Proof.
  induction 1 as [|d devices (Hc & Hl & Hg & Hv) _ [vs IH]]; simpl.
  - by eexists.
  - unfold marshalCondensed at 1. simpl.
    rewrite !MarshalTime_encodable by done. rewrite IH. by eexists.
Qed.

Lemma DisplayDevices_condensed devices st :
  JSON (vars st) = true ->
  DisplayDevices srv Local marshalDevice devices false st
  = match marshalSlice marshalCondensed (map condense devices) with
    | inl vs => (Done None,
                 {| vars := vars st; calls := calls st;
                    stdout := stdout st ++ [OutJSON (json.Array vs)] |})
    | inr e => (Bailed e, st)
    end.
Proof.
  intros Hj.
  unfold DisplayDevices, JSONOut, marshalArray, bind, ret, getVars, print,
    Bail. simpl. rewrite Hj.
  by destruct (marshalSlice marshalCondensed (map condense devices)).
Qed.

End CondensedFacts.

(** C7.  In JSON mode without full detail every device is serialised as an
    object with exactly the fields id, asset_tag, created, last_seen,
    health, graduated, validated and phase, one object per device; the
    output is printed whenever the timestamps can be encoded, and it does
    not depend on any other field of the devices. *)
Theorem condensed_json_has_exactly_the_projected_fields
        (srv : world.Server) (Local : time.Location)
        (marshalDevice : Device.t -> json.value + error)
        (devices : list Device.t) (st : world.State) :
  world.JSON (world.vars st) = true ->
  let run ds := util.DisplayDevices srv Local marshalDevice ds false st in
  (forall st',
      run devices = (world.Done None, st') ->
      exists objects,
        world.stdout st'
        = world.stdout st ++ [world.OutJSON (json.Array objects)]
        /\ length objects = length devices
        /\ Forall (fun o => json.keys o = tables.condensedKeys) objects)
  /\ (Forall tables.encodableDevice devices ->
      exists st', run devices = (world.Done None, st'))
  /\ (forall devices',
        map util.condense devices' = map util.condense devices ->
        run devices' = run devices).
Proof.
  intros Hj run. unfold run. repeat split.
  - intros st'. rewrite (DisplayDevices_condensed _ _ _ _ _ Hj).
    destruct (util.marshalSlice _ _) as [vs|e] eqn:Ev; [|done].
    intros Hr. inversion Hr; subst. simpl.
    apply marshalSlice_keys in Ev as [Hl Hf].
    exists vs. rewrite length_map in Hl. done.
  - intros He. rewrite (DisplayDevices_condensed _ _ _ _ _ Hj).
    destruct (marshalSlice_encodable _ He) as [vs ->]. by eexists.
  - intros devices' Hd.
    rewrite !(DisplayDevices_condensed _ _ _ _ _ Hj). by rewrite Hd.
Qed.

Lemma condensed_json_has_exactly_the_projected_fields_witness :
  world.JSON (world.vars (tables.jsonMode (fixtures.fresh "0"))) = true
  /\ util.DisplayDevices fixtures.silent time.UTC_loc tables.wholeDevice
                         [tables.placedDevice] false
                         (tables.jsonMode (fixtures.fresh "0"))
     = util.DisplayDevices fixtures.silent time.UTC_loc tables.wholeDevice
                           [tables.blankDevice] false
                           (tables.jsonMode (fixtures.fresh "0")).
Proof.
  split; [reflexivity|].
  exact (proj2 (proj2 (condensed_json_has_exactly_the_projected_fields
                  fixtures.silent time.UTC_loc tables.wholeDevice
                  [tables.blankDevice]
                  (tables.jsonMode (fixtures.fresh "0")) eq_refl))
               [tables.placedDevice] eq_refl).
Defined.

(** ** Rack-layout import *)

Section ImportFacts.
Import Strings world util built rack layouts.
Variable srv : Server.
Context {UI : client.Unmarshal importLayout}.

Lemma indexBy_absent key ps k :
  ~ In k (map key ps) -> indexBy key ps !! k = None.
Proof.
  unfold indexBy.
  assert (Hgen : forall m : gmap string HardwareProduct.t,
             m !! k = None -> ~ In k (map key ps) ->
             fold_left (fun m p => <[key p := p]> m) ps m !! k = None).
  { induction ps as [|p ps IH]; intros m Hm Hk; simpl in *; [done|].
    apply IH; [|tauto].
    rewrite lookup_insert_ne; [done|]. intros Heq. apply Hk. by left. }
  apply Hgen. apply lookup_empty.
Qed.

Lemma nonEmpty_true s : s <> "" -> nonEmpty s = true.
Proof. by destruct s. Qed.

(** The check of one slot makes no call and never panics. *)
Lemma checkSlot_pure pa pn pid rackID l st :
  (exists s, checkSlot pa pn pid rackID l st = (Done s, st))
  \/ (exists e, checkSlot pa pn pid rackID l st = (Bailed e, st)).
Proof.
  unfold checkSlot, bind, ret, Bail.
  repeat (match goal with
          | |- context [if ?b then _ else _] => destruct b eqn:?
          | |- context [match ?o with Some _ => _ | None => _ end] =>
              destruct o eqn:?
          end; simpl);
    solve [left; eexists; reflexivity | right; eexists; reflexivity].
Qed.

(** A slot without a product UUID whose name, or else alias, is not in
    the product list stops the import. *)
Lemma checkSlot_unresolved ps rackID l st :
  uuid.Equal (ProductID l) uuid.Nil = true ->
  unresolved ps l ->
  checkSlot (indexBy HardwareProduct.Alias ps)
            (indexBy HardwareProduct.Name ps)
            (indexBy (fun p => uuid.String_ (HardwareProduct.ID p)) ps)
            rackID l st
  = (Bailed (noProduct (RUStart l)), st).
Proof.
  intros Hz [[Hn Hnot]|(Hn & Ha & Hnot)];
    unfold checkSlot, bind, ret, Bail; rewrite Hz.
  - rewrite (nonEmpty_true _ Hn), (indexBy_absent _ _ _ Hnot). simpl.
    by rewrite Hz.
  - rewrite Hn. simpl.
    rewrite (nonEmpty_true _ Ha), (indexBy_absent _ _ _ Hnot). simpl.
    by rewrite Hz.
Qed.

(** The first loop makes no call; when it completes, every slot has
    passed. *)
Lemma checkAll_spec ps rackID layout : forall acc st,
  (exists final,
      checkAll (indexBy HardwareProduct.Alias ps)
               (indexBy HardwareProduct.Name ps)
               (indexBy (fun p => uuid.String_ (HardwareProduct.ID p)) ps)
               rackID layout acc st = (Done final, st)
      /\ Forall (passes ps rackID) layout)
  \/ (exists e,
      checkAll (indexBy HardwareProduct.Alias ps)
               (indexBy HardwareProduct.Name ps)
               (indexBy (fun p => uuid.String_ (HardwareProduct.ID p)) ps)
               rackID layout acc st = (Bailed e, st)).
Proof.
  induction layout as [|l layout IH]; intros acc st; simpl.
  - left. eexists. by split.
  - unfold bind.
    destruct (checkSlot_pure
                (indexBy HardwareProduct.Alias ps)
                (indexBy HardwareProduct.Name ps)
                (indexBy (fun p => uuid.String_ (HardwareProduct.ID p)) ps)
                rackID l st) as [[s Hs]|[e He]].
    + rewrite Hs. cbv beta iota.
      destruct (IH (acc ++ [s]) st) as [(final & Hf & Hall)|[e He]].
      * left. exists final. split; [done|]. constructor; [|done].
        exists s. intros st0.
        destruct (checkSlot_pure
                (indexBy HardwareProduct.Alias ps)
                (indexBy HardwareProduct.Name ps)
                (indexBy (fun p => uuid.String_ (HardwareProduct.ID p)) ps)
                rackID l st0) as [[s0 Hs0]|[e0 He0]].
        -- rewrite Hs0. f_equal. f_equal.
           revert Hs Hs0. unfold checkSlot, bind, ret, Bail.
           repeat match goal with
                  | |- context [if ?b then _ else _] => destruct b
                  | |- context [match ?o with Some _ => _ | None => _ end] =>
                      destruct o
                  end; simpl; congruence.
        -- exfalso. revert Hs He0. unfold checkSlot, bind, ret, Bail.
           repeat match goal with
                  | |- context [if ?b then _ else _] => destruct b
                  | |- context [match ?o with Some _ => _ | None => _ end] =>
                      destruct o
                  end; simpl; congruence.
      * right. by exists e.
    + rewrite He. right. by exists e.
Qed.

Ltac quiet :=
  left; split;
  [ unfold newCalls; simpl; rewrite <- ?app_assoc;
    first [rewrite drop_app_length | rewrite drop_all];
    repeat constructor
  | intros a Ha; simpl in Ha; discriminate ].

(** Either the import ends without success and without a call that
    changes the layout, or every imported slot has passed the check
    against the product list the server returned. *)
Lemma rackImportLayout_checks_first input overwrite st :
  let r := rackImportLayout srv input overwrite st in
  (Forall (fun call => mutates (op call) = false) (newCalls st (snd r))
   /\ forall a, fst r <> Done a)
  \/ (exists b layout h c ps,
        input = inl b
        /\ client.unmarshal b ([] : importLayout) = (layout, None)
        /\ onGetHardwareProducts srv h c = inl ps
        /\ Forall (passes ps (GRackUUID (vars st))) layout).
Proof.
  unfold rackImportLayout.
  repeat (progress (unfold bind, ret, setVars, getVars, orBail, bailOn,
                      Bail, GetRack, GetRackLayout, GetHardwareProducts,
                      theAPI, perform, panic; simpl)).
  destruct input as [b|err]; simpl; [|quiet].
  destruct (client.unmarshal b ([] : importLayout))
    as [layout [uerr|]] eqn:Eu; simpl; [quiet|].
  destruct (API (vars st)) as [c|] eqn:Ea; simpl; [|quiet].
  destruct (onGetRack srv (calls st) c (GRackUUID (vars st)))
    as [rk|err]; simpl; rewrite ?Ea; simpl; [|quiet].
  match goal with
  | |- context [onGetRackLayout srv ?h c rk] =>
      destruct (onGetRackLayout srv h c rk) as [existing|err]
  end; simpl; rewrite ?Ea; simpl; [|quiet].
  destruct ((0 <? length existing)%nat && negb overwrite); simpl;
    rewrite ?Ea; simpl; [quiet|].
  match goal with
  | |- context [onGetHardwareProducts srv ?h c] =>
      destruct (onGetHardwareProducts srv h c) as [ps|err] eqn:Ep
  end; simpl; rewrite ?Ea; simpl; [|quiet].
  match goal with
  | |- context [checkAll ?pa ?pn ?pid ?rid layout [] ?s] =>
      destruct (checkAll_spec ps rid layout [] s)
        as [(final & -> & Hall)|[e ->]]
  end.
  - right. exists b, layout. do 3 eexists. repeat split; eauto.
  - quiet.
Qed.

End ImportFacts.

(** C5.  If a slot of the imported layout has a zero product UUID and
    names a product, by name or else by alias, that the server's product
    list does not hold, the import fails and no slot has been saved or
    deleted.  More generally a save or an overwrite deletion is only ever
    issued after every slot of the layout has passed the check. *)
Theorem rackImportLayout_validates_before_any_change
        (srv : world.Server) {UI : client.Unmarshal rack.importLayout}
        (st : world.State) (b : string) (overwrite : bool)
        (layout : rack.importLayout) (slot : rack.importLayoutSlot) :
  client.unmarshal b ([] : rack.importLayout) = (layout, None) ->
  In slot layout ->
  uuid.Equal (rack.ProductID slot) uuid.Nil = true ->
  (forall h c ps,
      world.onGetHardwareProducts srv h c = inl ps ->
      layouts.unresolved ps slot) ->
  (let r := rack.rackImportLayout srv (inl b) overwrite st in
   (forall a, fst r <> world.Done a)
   /\ Forall (fun call => layouts.mutates (world.op call) = false)
             (built.newCalls st (snd r)))
  /\ (forall input' overwrite' st',
        let r' := rack.rackImportLayout srv input' overwrite' st' in
        Exists (fun call => layouts.mutates (world.op call) = true)
               (built.newCalls st' (snd r')) ->
        exists b' layout' h c ps,
          input' = inl b'
          /\ client.unmarshal b' ([] : rack.importLayout) = (layout', None)
          /\ world.onGetHardwareProducts srv h c = inl ps
          /\ Forall (layouts.passes ps (world.GRackUUID (world.vars st')))
                    layout').
Proof.
  intros Hu Hin Hz Hbad. split.
  - destruct (rackImportLayout_checks_first srv (inl b) overwrite st)
      as [[Hcalls Hfail]|(b' & layout' & h & c & ps & Hb & Hu' & Hp & Hall)].
    + by split.
    + exfalso. inversion Hb; subst b'. rewrite Hu in Hu'.
      inversion Hu'; subst layout'.
      rewrite Forall_forall in Hall.
      destruct (Hall slot) as [s Hs]; [by apply list_elem_of_In|].
      specialize (Hs st).
      rewrite (checkSlot_unresolved ps _ slot st Hz (Hbad h c ps Hp)) in Hs.
      discriminate.
  - intros input' overwrite' st' r' Hex.
    destruct (rackImportLayout_checks_first srv input' overwrite' st')
      as [[Hcalls _]|Hok]; [|exact Hok].
    exfalso. apply Exists_exists in Hex as (call & Hcall & Hm).
    rewrite Forall_forall in Hcalls. specialize (Hcalls call Hcall).
    simpl in Hcalls. congruence.
Qed.

Lemma rackImportLayout_validates_before_any_change_witness :
  fst (rack.rackImportLayout (UI := layouts.decodesTo layouts.badLayout)
         layouts.stocked (inl "layout.json") true layouts.ready)
  = world.Bailed (rack.noProduct 3)
  /\ Forall (fun call => layouts.mutates (world.op call) = false)
            (built.newCalls layouts.ready
               (snd (rack.rackImportLayout
                       (UI := layouts.decodesTo layouts.badLayout)
                       layouts.stocked (inl "layout.json") true
                       layouts.ready))).
Proof.
  split; [vm_compute; reflexivity|].
  refine (proj2 (proj1 (rackImportLayout_validates_before_any_change
            (UI := layouts.decodesTo layouts.badLayout)
            layouts.stocked layouts.ready "layout.json" true
            layouts.badLayout (layouts.slot 3 0%N "Cray-1" "")
            eq_refl _ eq_refl _))).
  - simpl. right. left. reflexivity.
  - intros h c ps Hps. left. split; [discriminate|].
    inversion Hps; subst ps. simpl.
    intros [H|[H|[]]]; discriminate.
Defined.

(** ** Worked examples *)

(** The normalisation keeps build meta data (after "+") and drops
    everything after the first dash. *)
Example CleanVersion_examples :
  util.CleanVersion "vv2.1.0-12-gabc" = world.Done (Spec.version 2 1 0)
  /\ util.CleanVersion "2.0"
     = world.Panicked "semver: Parse(2.0): No Major.Minor.Patch elements found"
  /\ util.CleanVersion "-2.0.0"
     = world.Panicked "semver: Parse(): Version string empty".
Proof. repeat split; vm_compute; reflexivity. Qed.

(** An update of an existing rack role goes to its item path. *)
Example SaveGlobalRackRole_update_example :
  map world.op
      (world.calls
         (snd (client.SaveGlobalRackRole
                 (UE := replies.plainError) (UP := replies.keep)
                 fixtures.silent fixtures.theClient
                 (replies.role 5%N "storage" 42%Z) (fixtures.fresh "0"))))
  = [world.OpHTTP world.POST
       "/rack_role/00000000-0000-0000-0000-000000000005"
       (Some (json.Object
                [("id", json.Str "00000000-0000-0000-0000-000000000005");
                 ("name", json.Str "storage");
                 ("rack_size", json.Number 42%Z)]))].
Proof. vm_compute. reflexivity. Qed.

(** The condensed JSON of a device whose location and deactivation time
    are populated shows neither. *)
Example condensed_output_example :
  world.stdout
    (snd (util.DisplayDevices fixtures.silent time.UTC_loc tables.wholeDevice
            [tables.placedDevice] false
            (tables.jsonMode (fixtures.fresh "0"))))
  = [world.OutJSON
       (json.Array
          [json.Object
             [("id", json.Str "SERIAL1");
              ("asset_tag", json.Str "tag");
              ("created", json.Str "0001-01-01T00:00:00Z");
              ("last_seen", json.Str "0001-01-01T00:00:00Z");
              ("health", json.Str "unknown");
              ("graduated", json.Str "0001-01-01T00:00:00Z");
              ("validated", json.Str "0001-01-01T00:00:00Z");
              ("phase", json.Str "integration")]])].
Proof. vm_compute. reflexivity. Qed.

(** A layout whose slots all resolve replaces the old layout: the reads,
    the deletion of the old slot, then one save per slot. *)
Example rackImportLayout_overwrite_example :
  let r := rack.rackImportLayout (UI := layouts.decodesTo layouts.goodLayout)
             layouts.stocked (inl "layout.json") true layouts.ready in
  fst r = world.Done tt
  /\ map (fun call => layouts.mutates (world.op call)) (world.calls (snd r))
     = [false; false; false; true; true; true].
Proof. split; vm_compute; reflexivity. Qed.

(** Without [--overwrite] a rack that has a layout is left alone. *)
Example rackImportLayout_keep_example :
  let r := rack.rackImportLayout (UI := layouts.decodesTo layouts.goodLayout)
             layouts.stocked (inl "layout.json") false layouts.ready in
  fst r = world.Bailed
            (errors_New
               "rack already has a layout. Use --overwrite to overwrite")
  /\ map (fun call => layouts.mutates (world.op call)) (world.calls (snd r))
     = [false; false].
Proof. split; vm_compute; reflexivity. Qed.

(** A slot is looked up by its name when it has one; its alias is not
    consulted then, even if no product carries that alias. *)
Example rackImportLayout_name_first_example :
  fst (rack.rackImportLayout
         (UI := layouts.decodesTo [layouts.slot 1 0%N "PowerEdge" "nothing"])
         layouts.stocked (inl "layout.json") true layouts.ready)
  = world.Done tt.
Proof. vm_compute. reflexivity. Qed.

(** ** Versions: printing and cleaning are inverse to each other *)

Section NumeralFacts.
Import Strings numerals.
Local Arguments String.append !_ _ /.

Lemma append_assoc_ a b c : (a +:+ b) +:+ c = a +:+ (b +:+ c).
Proof. induction a as [|x a IH]; simpl; [done|]. by rewrite IH. Qed.

Lemma append_nil_r_ a : a +:+ "" = a.
Proof. induction a as [|x a IH]; simpl; [done|]. by rewrite IH. Qed.

Lemma length_append_ a b :
  String.length (a +:+ b) = (String.length a + String.length b)%nat.
Proof. induction a as [|x a IH]; simpl; [done|]. by rewrite IH. Qed.

Lemma isDigit_numbers c : ContainsByte semver.numbers c = isDigit c.
Proof. destruct c as [[] [] [] [] [] [] [] []]; reflexivity. Qed.

Lemma digitsValue_app a b acc :
  digitsValue (a +:+ b) acc
  = match digitsValue a acc with
    | Some v => digitsValue b v
    | None => None
    end.
Proof.
  revert acc. induction a as [|x a IH]; intros acc; simpl; [done|].
  destruct (isDigit x); [apply IH|done].
Qed.

Lemma containsOnly_app a b set :
  semver.containsOnly (a +:+ b) set
  = semver.containsOnly a set && semver.containsOnly b set.
Proof.
  induction a as [|x a IH]; simpl; [done|].
  rewrite IH. by rewrite andb_assoc.
Qed.

Lemma ContainsByte_app a b c :
  ContainsByte (a +:+ b) c = ContainsByte a c || ContainsByte b c.
Proof.
  induction a as [|x a IH]; simpl; [done|]. rewrite IH. by rewrite orb_assoc.
Qed.

Lemma pretty_char_facts x :
  (x < 10)%N ->
  isDigit (pretty_N_char x) = true
  /\ (N_of_ascii (pretty_N_char x) - 48)%N = x.
Proof.
  intros Hx.
  assert (x = 0 \/ x = 1 \/ x = 2 \/ x = 3 \/ x = 4 \/ x = 5 \/ x = 6
          \/ x = 7 \/ x = 8 \/ x = 9)%N as Hc by lia.
  repeat destruct Hc as [->|Hc]; try subst x; by split.
Qed.

(** What the digit loop of the printer produces. *)
Lemma pretty_go_spec x :
  exists d,
    (forall s, pretty_N_go x s = d +:+ s)
    /\ (forall acc,
           digitsValue d acc
           = Some (acc * 10 ^ N.of_nat (String.length d) + x)%N)
    /\ semver.containsOnly d semver.numbers = true
    /\ (x = 0%N -> d = "")
    /\ ((0 < x)%N -> exists c r, d = String c r /\ c <> "0"%char).
Proof.
  induction (N.lt_wf_0 x) as [x _ IH].
  destruct (N.eq_dec x 0%N) as [->|Hx].
  - exists "". repeat split; intros; simpl; try done;
      first [f_equal; lia | lia].
  - assert (Hpos : (0 < x)%N) by lia.
    destruct (IH (x `div` 10)%N) as (d & Hgo & Hval & Hdig & Hz & Hnz).
    { by apply N.div_lt. }
    assert (Hm : (x `mod` 10 < 10)%N) by (apply N.mod_lt; lia).
    destruct (pretty_char_facts _ Hm) as [Hisd Hnum].
    exists (d +:+ String (pretty_N_char (x `mod` 10)) "").
    repeat split.
    + intros s. rewrite pretty_N_go_step by done. rewrite Hgo.
      by rewrite append_assoc_.
    + intros acc. rewrite digitsValue_app, Hval. simpl. rewrite Hisd, Hnum.
      f_equal. rewrite length_append_. simpl.
      rewrite Nat2N.inj_add, N.pow_add_r. simpl N.of_nat.
      pose proof (N.div_mod x 10). lia.
    + rewrite containsOnly_app, Hdig. cbn [semver.containsOnly andb].
      by rewrite isDigit_numbers, Hisd.
    + lia.
    + intros _. destruct (N.eq_dec (x `div` 10)%N 0%N) as [Hq|Hq].
      * rewrite (Hz Hq). simpl. do 2 eexists. split; [done|].
        assert (Hx10 : (x < 10)%N)
          by (apply N.div_small_iff in Hq; [exact Hq | done]).
        rewrite N.mod_small by done.
        assert (x = 1 \/ x = 2 \/ x = 3 \/ x = 4 \/ x = 5 \/ x = 6
                \/ x = 7 \/ x = 8 \/ x = 9)%N as Hc by lia.
        repeat destruct Hc as [->|Hc]; try subst x; done.
      * destruct Hnz as (c & r & -> & Hc); [by apply N.neq_0_lt_0|].
        simpl. by do 2 eexists.
Qed.

Lemma FormatUint_value n : digitsValue (FormatUint n) 0 = Some n.
Proof.
  unfold FormatUint, pretty, pretty_N.
  destruct (decide (n = 0)%N) as [->|Hn]; [done|].
  destruct (pretty_go_spec n) as (d & Hgo & Hval & _).
  rewrite Hgo, append_nil_r_, Hval. f_equal; lia.
Qed.

Lemma FormatUint_canonical n : canonical (FormatUint n).
Proof.
  unfold FormatUint, pretty, pretty_N.
  destruct (decide (n = 0)%N) as [->|Hn]; [by repeat split|].
  destruct (pretty_go_spec n) as (d & Hgo & _ & Hdig & _ & Hnz).
  destruct Hnz as (c & r & -> & Hc); [lia|].
  rewrite Hgo, append_nil_r_. repeat split; [done|done|].
  simpl. destruct c as [[] [] [] [] [] [] [] []]; try done.
Qed.

Lemma FormatUint_parses n : fits n -> ParseUint (FormatUint n) = Some n.
Proof.
  intros Hn. destruct (FormatUint_canonical n) as (Hne & _ & _).
  unfold ParseUint. destruct (FormatUint n) eqn:E; [done|]. rewrite <- E.
  rewrite FormatUint_value.
  unfold fits in Hn. by destruct (N.leb_spec n maxUint64); [|lia].
Qed.

Lemma parseNumber_FormatUint lower upper n :
  fits n -> semver.parseNumber lower upper (FormatUint n) = inl n.
Proof.
  intros Hn. destruct (FormatUint_canonical n) as (_ & Hd & Hz).
  unfold semver.parseNumber. by rewrite Hd, Hz, FormatUint_parses.
Qed.

Lemma containsOnly_free s set c :
  semver.containsOnly s set = true -> ContainsByte set c = false ->
  ContainsByte s c = false.
Proof.
  intros Hs Hc. induction s as [|x s IH]; simpl in *; [done|].
  apply andb_prop in Hs as [Hx Hs]. rewrite (IH Hs), orb_false_r.
  destruct (Ascii.eqb_spec c x) as [->|]; [congruence|done].
Qed.

Lemma string_snoc s : s <> "" -> exists s' c, s = s' +:+ String c "".
Proof.
  induction s as [|x s IH]; [done|]. intros _.
  destruct s as [|y s].
  - by exists "", x.
  - destruct IH as (s' & c & Hs); [done|].
    exists (String x s'), c. simpl. by rewrite <- Hs.
Qed.

Lemma digitsValue_ge s : forall acc v,
  digitsValue s acc = Some v -> (acc <= v)%N.
Proof.
  induction s as [|x s IH]; intros acc v; simpl.
  - intros Hv. inversion Hv. lia.
  - destruct (isDigit x); [|done]. intros Hv. apply IH in Hv. lia.
Qed.

Lemma digit_char_back c :
  isDigit c = true ->
  pretty_N_char (N_of_ascii c - 48) = c /\ (N_of_ascii c - 48 < 10)%N
  /\ (c <> "0"%char -> (0 < N_of_ascii c - 48)%N).
Proof.
  destruct c as [[] [] [] [] [] [] [] []]; try discriminate;
    intros _; repeat split; try done; intros Hc; congruence.
Qed.

(** A canonical numeral is what the printer prints for its value. *)
Lemma canonical_FormatUint n : forall s,
  canonical s -> digitsValue s 0 = Some n -> FormatUint n = s.
Proof.
  induction (N.lt_wf_0 n) as [n _ IH]. intros s (Hne & Hdig & Hlz) Hv.
  destruct (string_snoc s Hne) as (s' & c & ->).
  rewrite digitsValue_app in Hv.
  destruct (digitsValue s' 0) as [v|] eqn:Ev; [|done].
  rewrite containsOnly_app in Hdig. apply andb_prop in Hdig as [Hd' Hc].
  cbn [semver.containsOnly andb] in Hc. rewrite andb_true_r, isDigit_numbers in Hc.
  simpl in Hv. rewrite Hc in Hv. inversion Hv as [Hn]. clear Hv.
  destruct (digit_char_back c Hc) as (Hback & Hlt & Hpos).
  destruct s' as [|c0 r].
  - simpl in *. inversion Ev; subst v. simpl.
    replace (0 * 10 + (N_of_ascii c - 48))%N with (N_of_ascii c - 48)%N
      by lia.
    unfold FormatUint, pretty, pretty_N.
    destruct (decide _) as [Hz|Hz].
    + rewrite Hz in Hback. simpl in Hback. by rewrite <- Hback.
    + rewrite pretty_N_go_step by lia.
      rewrite N.div_small, N.mod_small by done.
      rewrite pretty_N_go_0. by rewrite Hback.
  - assert (Hc0 : c0 <> "0"%char).
    { intros ->. simpl in Hlz. by destruct r. }
    assert (Hcan : canonical (String c0 r)).
    { repeat split; [done|done|].
      simpl. destruct c0 as [[] [] [] [] [] [] [] []]; try done. }
    assert (Hvpos : (0 < v)%N).
    { simpl in Ev. cbn [semver.containsOnly] in Hd'.
      apply andb_prop in Hd' as [Hd0 _].
      rewrite isDigit_numbers in Hd0. rewrite Hd0 in Ev.
      apply digitsValue_ge in Ev.
      destruct (digit_char_back c0 Hd0) as (_ & _ & Hp0).
      specialize (Hp0 Hc0). lia. }
    assert (Hdiv : ((v * 10 + (N_of_ascii c - 48)) `div` 10 = v)%N).
    { symmetry. apply (N.div_unique _ 10 v (N_of_ascii c - 48))%N; lia. }
    assert (Hmod : ((v * 10 + (N_of_ascii c - 48)) `mod` 10
                    = N_of_ascii c - 48)%N).
    { symmetry. apply (N.mod_unique _ 10 v (N_of_ascii c - 48))%N; lia. }
    assert (IHv : FormatUint v = String c0 r).
    { apply IH; [lia|done|done]. }
    unfold FormatUint, pretty, pretty_N in *.
    destruct (decide (v = 0)%N); [lia|].
    destruct (decide _); [lia|].
    rewrite pretty_N_go_step by lia. rewrite Hdiv, Hmod, Hback.
    destruct (pretty_go_spec v) as (d & Hgo & _).
    rewrite Hgo in *. rewrite append_nil_r_ in IHv. by rewrite IHv.
Qed.

End NumeralFacts.

Section ParseFacts.
Import Strings numerals world util.
Local Arguments String.append !_ _ /.

Lemma SplitN_one s sep : SplitN s sep 1 = [s].
Proof. by destruct s. Qed.

Lemma SplitN_first a rest sep n :
  ContainsByte a sep = false ->
  SplitN (a +:+ String sep rest) sep (S (S n)) = a :: SplitN rest sep (S n).
Proof.
  intros Ha. induction a as [|x a IH]; simpl.
  - by rewrite Ascii.eqb_refl.
  - simpl in Ha. apply orb_false_elim in Ha as [Hx Ha].
    rewrite Ascii.eqb_sym, Hx. simpl in IH. by rewrite (IH Ha).
Qed.

Lemma SplitN_first_inv s sep n p q rest :
  SplitN s sep (S (S n)) = p :: q :: rest ->
  exists r, s = p +:+ String sep r /\ SplitN r sep (S n) = q :: rest
            /\ ContainsByte p sep = false.
Proof.
  revert p. induction s as [|x s IH]; intros p; simpl; [done|].
  destruct (Ascii.eqb x sep) eqn:Ex.
  - apply Ascii.eqb_eq in Ex as ->. intros Hs. inversion Hs; subst.
    exists s. by repeat split.
  - destruct (SplitN s sep (S (S n))) as [|hd tl] eqn:Es; [done|].
    intros Hs. inversion Hs; subst.
    destruct (IH hd eq_refl) as (r & -> & Hr & Hfree).
    exists r. repeat split; [done|]. simpl.
    by rewrite Ascii.eqb_sym, Ex, Hfree.
Qed.

Lemma CutByte_Some s c before after :
  CutByte s c = Some (before, after) -> s = before +:+ String c after.
Proof.
  revert before. induction s as [|x s IH]; intros before; simpl; [done|].
  destruct (Ascii.eqb x c) eqn:Ex.
  - apply Ascii.eqb_eq in Ex as ->. intros Hs. by inversion Hs.
  - destruct (CutByte s c) as [[b a]|]; [|done].
    intros Hs. inversion Hs; subst. simpl. by rewrite (IH b eq_refl).
Qed.

Lemma Split_nonempty s sep : Split s sep <> [].
Proof.
  destruct s as [|x s]; simpl; [done|].
  destruct (Ascii.eqb x sep); [done|]. by destruct (Split s sep).
Qed.

Lemma Join_Split s sep : Join (Split s sep) (String sep "") = s.
Proof.
  induction s as [|x s IH]; simpl; [done|].
  destruct (Ascii.eqb x sep) eqn:Ex.
  - apply Ascii.eqb_eq in Ex as ->.
    pose proof (Split_nonempty s sep) as Hne.
    destruct (Split s sep) as [|hd tl]; [done|]. simpl in *. by rewrite IH.
  - pose proof (Split_nonempty s sep) as Hne.
    destruct (Split s sep) as [|hd tl]; [done|].
    destruct tl as [|hd' tl']; simpl in *; by rewrite <- IH.
Qed.

Lemma parseBuild_same l l' : semver.parseBuild l = inl l' -> l' = l.
Proof.
  revert l'. induction l as [|s l IH]; intros l'; simpl.
  - intros Hl. by inversion Hl.
  - destruct (negb (nonEmpty s)); [done|].
    destruct (negb (semver.containsOnly s semver.alphanum)); [done|].
    destruct (semver.parseBuild l) as [bs|]; [|done].
    intros Hl. inversion Hl. by rewrite (IH bs eq_refl).
Qed.

Lemma parseNumber_inv lower upper s n :
  semver.parseNumber lower upper s = inl n ->
  FormatUint n = s /\ fits n.
Proof.
  unfold semver.parseNumber.
  destruct (semver.containsOnly s semver.numbers) eqn:Hd; [|done].
  destruct (semver.hasLeadingZeroes s) eqn:Hz; [done|]. simpl.
  unfold ParseUint. destruct s as [|x s]; [done|].
  destruct (digitsValue (String x s) 0) as [v|] eqn:Ev; [|done].
  destruct (N.leb_spec v maxUint64); [|done].
  intros Hn. inversion Hn; subst. split; [|done].
  by apply canonical_FormatUint.
Qed.

Lemma FormatUint_free n c :
  ContainsByte semver.numbers c = false ->
  ContainsByte (FormatUint n) c = false.
Proof.
  intros Hc. destruct (FormatUint_canonical n) as (_ & Hd & _).
  by eapply containsOnly_free.
Qed.

Lemma nonEmpty_app_l s t : s <> "" -> nonEmpty (s +:+ t) = true.
Proof. by destruct s. Qed.

(** Printing a version without pre-release and build parts and parsing
    it back. *)
Lemma Parse_dotted a b c :
  fits a -> fits b -> fits c ->
  semver.Parse (dotted a b c) = inl (Spec.version a b c).
Proof.
  intros Ha Hb Hc. unfold semver.Parse, dotted.
  destruct (FormatUint_canonical a) as (Hne & _ & _).
  rewrite (nonEmpty_app_l _ _ Hne). cbn [negb].
  change ("." +:+ FormatUint b +:+ "." +:+ FormatUint c)
    with (String "." (FormatUint b +:+ String "." (FormatUint c))).
  rewrite SplitN_first by (by apply FormatUint_free).
  rewrite SplitN_first by (by apply FormatUint_free).
  rewrite SplitN_one.
  rewrite !parseNumber_FormatUint by done.
  rewrite (CutByte_absent "+" (FormatUint c)) by (by apply FormatUint_free).
  rewrite (CutByte_absent "-" (FormatUint c)) by (by apply FormatUint_free).
  by rewrite parseNumber_FormatUint.
Qed.

Lemma dropLeading_repeat c n s :
  Spec.dropLeading c (Repeat c n +:+ s) = Spec.dropLeading c s.
Proof. induction n as [|n IH]; simpl; [done|]. by rewrite Ascii.eqb_refl. Qed.

Lemma upTo_tail c a tail :
  ContainsByte a c = false ->
  tail = "" \/ (exists rest, tail = String c rest) ->
  Spec.upTo c (a +:+ tail) = a.
Proof.
  intros Ha Ht. induction a as [|x a IH]; simpl.
  - destruct Ht as [->|[rest ->]]; simpl; [done|]. by rewrite Ascii.eqb_refl.
  - simpl in Ha. apply orb_false_elim in Ha as [Hx Ha].
    rewrite Ascii.eqb_sym, Hx. by rewrite (IH Ha).
Qed.

Lemma dotted_free a b c x :
  ContainsByte semver.numbers x = false -> x <> "."%char ->
  ContainsByte (dotted a b c) x = false.
Proof.
  intros Hx Hdot. unfold dotted.
  rewrite !ContainsByte_app, !FormatUint_free by done. simpl.
  destruct (Ascii.eqb_spec x "."); [done|]. done.
Qed.

Lemma normalized_tag n a b c tail :
  dashTail tail ->
  Spec.normalized (Repeat "v" n +:+ dotted a b c +:+ tail) = dotted a b c.
Proof.
  intros Ht. unfold Spec.normalized. rewrite dropLeading_repeat.
  assert (Hd : Spec.dropLeading "v" (dotted a b c +:+ tail)
               = dotted a b c +:+ tail).
  { pose proof (dotted_free a b c "v" eq_refl) as Hv.
    destruct (dotted a b c) as [|x r] eqn:E.
    - unfold dotted in E. destruct (FormatUint a); by simpl in E.
    - simpl in *. destruct (Ascii.eqb_spec x "v") as [->|]; [|done].
      by specialize (Hv ltac:(done)). }
  rewrite Hd. apply upTo_tail; [|exact Ht].
  by apply dotted_free.
Qed.

Lemma Parse_prints_back s v :
  ContainsByte s "-" = false -> semver.Parse s = inl v ->
  semver.String_ v = s.
Proof.
  intros Hs. unfold semver.Parse.
  destruct (negb (nonEmpty s)); [done|].
  pose proof (SplitN_free "-" "." s 3 Hs) as Hparts.
  destruct (SplitN s "." 3) as [|p0 [|p1 [|p2 [|]]]] eqn:Es; try done.
  apply SplitN_first_inv in Es as (r1 & -> & Es & _).
  apply SplitN_first_inv in Es as (r2 & -> & Es & _).
  rewrite SplitN_one in Es. inversion Es; subst r2. clear Es.
  inversion Hparts as [|? ? _ H1]; subst.
  inversion H1 as [|? ? _ H2]; subst.
  inversion H2 as [|? ? Hp2 _]; subst.
  destruct (semver.parseNumber "major" "Major" p0) as [major|] eqn:E0;
    [|done].
  destruct (semver.parseNumber "minor" "Minor" p1) as [minor|] eqn:E1;
    [|done].
  apply parseNumber_inv in E0 as [E0 _]. apply parseNumber_inv in E1 as [E1 _].
  destruct (CutByte p2 "+") as [[before after]|] eqn:Ec.
  - pose proof (CutByte_free_l "-" _ _ _ _ Hp2 Ec) as Hb.
    rewrite (CutByte_absent _ _ Hb).
    destruct (semver.parseNumber "patch" "Patch" before) as [patch|] eqn:E2;
      [|done].
    apply parseNumber_inv in E2 as [E2 _]. simpl.
    pose proof (Split_nonempty after ".") as Hne.
    pose proof (Join_Split after ".") as HJ.
    destruct (semver.parseBuild (Split after ".")) as [bld|] eqn:Eb; [|done].
    apply parseBuild_same in Eb. subst bld.
    intros Hv. inversion Hv; subst v. unfold semver.String_.
    cbn [semver.Major semver.Minor semver.Patch semver.Pre semver.Build].
    rewrite E0, E1, E2.
    destruct (Split after ".") as [|hd tl]; [done|]. rewrite HJ.
    apply CutByte_Some in Ec. subst p2. reflexivity.
  - rewrite (CutByte_absent _ _ Hp2).
    destruct (semver.parseNumber "patch" "Patch" p2) as [patch|] eqn:E2;
      [|done].
    apply parseNumber_inv in E2 as [E2 _]. simpl.
    intros Hv. inversion Hv; subst v. unfold semver.String_. simpl.
    rewrite E0, E1, E2. simpl. by rewrite !append_nil_r_.
Qed.

End ParseFacts.

(** X1.  Whatever number of leading "v"s and whatever follows the first
    dash, [CleanVersion] recovers exactly the major, minor and patch
    numbers that were printed into the tag. *)
Theorem CleanVersion_recovers_printed_version
        (n : nat) (major minor patch : N) (tail : string) :
  numerals.fits major -> numerals.fits minor -> numerals.fits patch ->
  numerals.dashTail tail ->
  util.CleanVersion
    (Strings.Repeat "v" n +:+ numerals.dotted major minor patch +:+ tail)
  = world.Done (Spec.version major minor patch).
Proof.
  intros Ha Hb Hc Ht.
  rewrite CleanVersion_normalized, normalized_tag by done.
  unfold util.MustParse. by rewrite Parse_dotted.
Qed.

Lemma CleanVersion_recovers_printed_version_witness :
  util.CleanVersion "vv18446744073709551615.0.7-12-gabc"
  = world.Done (Spec.version 18446744073709551615 0 7).
Proof.
  apply (CleanVersion_recovers_printed_version
           2 18446744073709551615 0 7 "-12-gabc").
  - unfold numerals.fits, Strings.maxUint64. lia.
  - unfold numerals.fits, Strings.maxUint64. lia.
  - unfold numerals.fits, Strings.maxUint64. lia.
  - right. by eexists.
Defined.

(** X2.  What [CleanVersion] returns prints back as the input without
    its leading "v"s and without everything from the first dash on: no
    other spelling of a version is accepted. *)
Theorem CleanVersion_result_prints_normalized_input
        (version : string) (v : semver.Version) :
  util.CleanVersion version = world.Done v ->
  semver.String_ v = Spec.normalized version.
Proof.
  rewrite CleanVersion_normalized. unfold util.MustParse.
  destruct (semver.Parse (Spec.normalized version)) as [v'|] eqn:E; [|done].
  intros Hv. inversion Hv; subst v'.
  eapply Parse_prints_back; [|exact E]. apply upTo_free.
Qed.

Lemma CleanVersion_result_prints_normalized_input_witness :
  semver.String_
    {| semver.Major := 2; semver.Minor := 1; semver.Patch := 0;
       semver.Pre := []; semver.Build := ["build7"; "x"] |}
  = "2.1.0+build7.x".
Proof.
  exact (CleanVersion_result_prints_normalized_input
           "v2.1.0+build7.x-3-gabc" _ eq_refl).
Defined.

Section CompareFacts.
Import semver.

Lemma Compare_no_pre a b :
  Pre a = [] -> Pre b = [] ->
  Compare a b
  = match (Major a ?= Major b)%N with
    | Eq => match (Minor a ?= Minor b)%N with
            | Eq => (Patch a ?= Patch b)%N
            | c => c
            end
    | c => c
    end.
Proof.
  intros Ha Hb. unfold Compare. rewrite Ha, Hb.
  destruct (Major a ?= Major b)%N; [|done|done].
  destruct (Minor a ?= Minor b)%N; [|done|done].
  by destruct (Patch a ?= Patch b)%N.
Qed.

Lemma GT_precedes a b :
  Pre a = [] -> Pre b = [] -> GT a b = Spec.precedes b a.
Proof.
  intros Ha Hb. unfold GT, Spec.precedes. rewrite Compare_no_pre by done.
  destruct (N.compare_spec (Major a) (Major b));
    destruct (N.compare_spec (Minor a) (Minor b));
    destruct (N.compare_spec (Patch a) (Patch b));
    repeat match goal with
           | |- context [(?x <? ?y)%N] => destruct (N.ltb_spec x y)
           | |- context [(?x =? ?y)%N] => destruct (N.eqb_spec x y)
           end; simpl; try reflexivity; lia.
Qed.

Lemma Compare_Eq_no_pre a b :
  Pre a = [] -> Pre b = [] ->
  (Compare a b = Eq
   <-> Major a = Major b /\ Minor a = Minor b /\ Patch a = Patch b).
Proof.
  intros Ha Hb. rewrite Compare_no_pre by done.
  destruct (N.compare_spec (Major a) (Major b));
    destruct (N.compare_spec (Minor a) (Minor b));
    destruct (N.compare_spec (Patch a) (Patch b));
    split; try done; intros (? & ? & ?); lia.
Qed.

End CompareFacts.

(** X3.  Versions that come out of [CleanVersion] compare by major, minor
    and patch alone: [LT], [GTE] and [GT] are the numeric precedence, and
    two of them compare equal exactly when the three numbers agree, build
    meta data notwithstanding. *)
Theorem CleanVersion_results_compare_numerically
        (s s' : string) (v v' : semver.Version) :
  util.CleanVersion s = world.Done v ->
  util.CleanVersion s' = world.Done v' ->
  semver.LT v v' = Spec.precedes v v'
  /\ semver.GTE v v' = negb (Spec.precedes v v')
  /\ semver.GT v v' = Spec.precedes v' v
  /\ (semver.Compare v v' = Eq
      <-> semver.Major v = semver.Major v'
          /\ semver.Minor v = semver.Minor v'
          /\ semver.Patch v = semver.Patch v').
Proof.
  intros Hv Hv'.
  pose proof (CleanVersion_no_pre _ _ Hv) as Hp.
  pose proof (CleanVersion_no_pre _ _ Hv') as Hp'.
  split; [by apply LT_precedes|].
  split; [rewrite GTE_LT; f_equal; by apply LT_precedes|].
  split; [by apply GT_precedes|].
  by apply Compare_Eq_no_pre.
Qed.

Lemma CleanVersion_results_compare_numerically_witness :
  semver.Compare
    {| semver.Major := 2; semver.Minor := 1; semver.Patch := 0;
       semver.Pre := []; semver.Build := ["a"] |}
    (Spec.version 2 1 0) = Eq.
Proof.
  apply (proj2 (proj2 (proj2 (CleanVersion_results_compare_numerically
           "v2.1.0+a-dirty" "2.1.0-rc1" _ _ eq_refl eq_refl)))).
  by repeat split.
Defined.

(** X4.  For any pair of bounds that [CleanVersion] accepts, client
    construction with the check enabled succeeds exactly for the server
    versions that share the minimum's major and lie in
    [minimum, breaking), and bails for all others. *)
Theorem BuildAPI_gate_for_any_bounds
        (srv : world.Server) (st : world.State) (c : Conch.t)
        (minimum breaking version : string)
        (lo hi v : semver.Version) :
  built.builtAPI (world.vars st) = Some c ->
  util.DisableApiVersionCheck (world.vars st) = false ->
  world.onGetVersion srv (world.calls st) c = inl version ->
  util.CleanVersion version = world.Done v ->
  util.CleanVersion minimum = world.Done lo ->
  util.CleanVersion breaking = world.Done hi ->
  let r := util.BuildAPI srv minimum breaking st in
  (built.accepted r <-> Spec.compatible lo hi v = true)
  /\ (built.rejected r <-> Spec.compatible lo hi v = false).
Proof.
  intros Hc Hd Hs Hv Hlo Hhi r. unfold r, built.accepted, built.rejected.
  rewrite (BuildAPI_unfold _ _ _ _ _ Hc), Hs, Hd, Hv, Hlo, Hhi. simpl fst.
  pose proof (CleanVersion_no_pre _ _ Hv) as Hp.
  pose proof (CleanVersion_no_pre _ _ Hlo) as Hplo.
  pose proof (CleanVersion_no_pre _ _ Hhi) as Hphi.
  rewrite GTE_LT, !LT_precedes by done. unfold Spec.compatible.
  destruct (semver.Major v =? semver.Major lo)%N; simpl.
  - destruct (Spec.precedes v lo); simpl.
    + split; split; try done. intros _. by eexists.
    + destruct (Spec.precedes v hi); simpl; split; split; try done.
      * by intros [e He].
      * intros _. by eexists.
  - split; split; try done. intros _. by eexists.
Qed.

Lemma BuildAPI_gate_for_any_bounds_witness :
  built.rejected
    (util.BuildAPI (fixtures.reporting "v3.2.0-1-gdead") "v3.2.1" "v4.0.0"
                   (fixtures.fresh "0")).
Proof.
  apply (proj2 (BuildAPI_gate_for_any_bounds
           (fixtures.reporting "v3.2.0-1-gdead") (fixtures.fresh "0")
           fixtures.theClient "v3.2.1" "v4.0.0" "v3.2.0-1-gdead"
           _ _ _ eq_refl eq_refl eq_refl eq_refl eq_refl eq_refl)).
  reflexivity.
Defined.

(** X5.  Client construction contacts the server exactly once or not at
    all.  When the configuration is in use and no profile is active it
    bails at once and leaves the state as it was.  Otherwise it stores
    the client, which carries the configured user agent, and makes the
    one version call through it; this holds whatever the server answers
    and whether the run then passes the gate, bails or panics. *)
Theorem BuildAPI_calls_server_once_or_never
        (srv : world.Server) (minimum breaking : string) (st : world.State) :
  match built.builtAPI (world.vars st) with
  | None =>
      world.IgnoreConfig (world.vars st) = false
      /\ world.ActiveProfile (world.vars st) = None
      /\ util.BuildAPI srv minimum breaking st
         = (world.Bailed
              (errors_New
                 "no active profile. Please use 'conch profile' to create or set an active profile"),
            st)
  | Some c =>
      snd (util.BuildAPI srv minimum breaking st) = built.afterGetVersion st c
      /\ Conch.UA c = world.UserAgent (world.vars st)
  end.
Proof.
  destruct (built.builtAPI (world.vars st)) as [c|] eqn:Hc.
  - split; [by rewrite (BuildAPI_unfold srv minimum breaking st c Hc)|].
    unfold built.builtAPI in Hc.
    destruct (world.IgnoreConfig (world.vars st));
      [|destruct (world.ActiveProfile (world.vars st)); [|done]];
      destruct (Strings.nonEmpty (world.UserAgent (world.vars st))) eqn:Hu;
      inversion Hc; subst; simpl; try done;
      by destruct (world.UserAgent (world.vars st)).
  - unfold built.builtAPI in Hc.
    destruct (world.IgnoreConfig (world.vars st)) eqn:Hi; [done|].
    destruct (world.ActiveProfile (world.vars st)) eqn:Hp; [done|].
    repeat split.
    unfold util.BuildAPI, world.bind, world.getVars. simpl.
    by rewrite Hi, Hp.
Qed.

(** ** Rack-layout import: the whole run *)

Section ImportRuns.
Import Strings world util built rack layouts imports.
Variable srv : Server.
Context {UI : client.Unmarshal importLayout}.

Lemma logged_app c ops ops' st :
  logged c ops' (logged c ops st) = logged c (ops ++ ops') st.
Proof. unfold logged. simpl. by rewrite map_app, app_assoc. Qed.

Lemma logged_nil c st : logged c [] st = st.
Proof. unfold logged. simpl. rewrite app_nil_r. by destruct st. Qed.

(** A loop of accepted calls logs one call per element, in order. *)
Lemma forEach_accepted {A} (l : list A) (mkOp : A -> Op)
      (answer : A -> Conch.t -> list Call -> option error) c : forall st,
  API (vars st) = Some c ->
  (forall x h, In x l -> answer x c h = None) ->
  forEach l (fun x => bailOn (let* c := theAPI in
                              perform c (mkOp x) (answer x c))) st
  = (Done tt, logged c (map mkOp l) st).
Proof.
  induction l as [|x l IH]; intros st Ha Hok; simpl.
  - by rewrite logged_nil.
  - repeat (progress (unfold bind, bailOn, theAPI, getVars, perform, ret,
                        Bail; simpl)).
    rewrite Ha. simpl.
    rewrite (Hok x) by (by left). simpl.
    rewrite IH; [|done|intros y h Hy; apply Hok; by right].
    f_equal. unfold logged. simpl. by rewrite <- app_assoc.
Qed.

(** A loop whose calls are accepted up to an element that is refused
    stops there. *)
Lemma forEach_refused {A} (pre : list A) (x : A) (post : list A)
      (mkOp : A -> Op) (answer : A -> Conch.t -> list Call -> option error)
      c e :
  forall st,
  API (vars st) = Some c ->
  (forall y h, In y pre -> answer y c h = None) ->
  (forall h, answer x c h = Some e) ->
  forEach (pre ++ x :: post)
          (fun x => bailOn (let* c := theAPI in
                            perform c (mkOp x) (answer x c))) st
  = (Bailed e, logged c (map mkOp (pre ++ [x])) st).
Proof.
  induction pre as [|y pre IH]; intros st Ha Hok Hbad; simpl.
  - repeat (progress (unfold bind, bailOn, theAPI, getVars, perform, ret,
                        Bail; simpl)).
    rewrite Ha. simpl. by rewrite Hbad.
  - repeat (progress (unfold bind, bailOn, theAPI, getVars, perform, ret,
                        Bail; simpl)).
    rewrite Ha. simpl.
    rewrite (Hok y) by (by left). simpl.
    rewrite IH; [|done|intros z h Hz; apply Hok; by right|done].
    f_equal. unfold logged. simpl. by rewrite <- app_assoc.
Qed.

Lemma checkAll_checked ps rackID layout final : forall acc st,
  Forall2 (checksTo ps rackID) layout final ->
  checkAll (indexBy HardwareProduct.Alias ps)
           (indexBy HardwareProduct.Name ps)
           (indexBy (fun p => uuid.String_ (HardwareProduct.ID p)) ps)
           rackID layout acc st
  = (Done (acc ++ final), st).
Proof.
  intros acc st Hall. revert acc.
  induction Hall as [|l s layout final Hl _ IH]; intros acc; simpl.
  - unfold ret. by rewrite app_nil_r.
  - unfold bind. rewrite (Hl st). rewrite IH. by rewrite <- app_assoc.
Qed.

(** The import up to the end of the first loop, against a server whose
    three reads succeed. *)
Lemma rackImportLayout_after_reads b overwrite st c layout rk existing ps
      final :
  API (vars st) = Some c ->
  client.unmarshal b ([] : importLayout) = (layout, None) ->
  (forall h, onGetRack srv h c (GRackUUID (vars st)) = inl rk) ->
  (forall h, onGetRackLayout srv h c rk = inl existing) ->
  existing = [] \/ overwrite = true ->
  (forall h, onGetHardwareProducts srv h c = inl ps) ->
  Forall2 (checksTo ps (GRackUUID (vars st))) layout final ->
  rackImportLayout srv (inl b) overwrite st
  = ((if overwrite
      then forEach existing
             (fun s => bailOn (DeleteRackLayoutSlot srv (RackLayoutSlot.ID s)))
      else ret tt) ;;;
     forEach final (fun s => bailOn (SaveRackLayoutSlot srv s)))
      (logged c (reads st rk) (importing st)).
Proof.
  intros Ha Hu Hrack Hlay Hex Hps Hall. unfold rackImportLayout.
  repeat (progress (unfold bind at 1, ret, setVars, getVars, orBail, bailOn,
                      Bail, GetRack, GetRackLayout, GetHardwareProducts,
                      theAPI, perform, panic; simpl)).
  rewrite Hu. simpl. rewrite Ha. simpl. rewrite Hrack. simpl.
  rewrite ?Ha. simpl. rewrite Hlay. simpl.
  assert (Hgo : ((0 <? length existing)%nat && negb overwrite) = false).
  { destruct Hex as [->| ->]; [done|]. by rewrite andb_false_r. }
  rewrite Hgo. simpl. rewrite ?Ha. simpl. rewrite Hps. simpl.
  rewrite (checkAll_checked ps _ layout final [] _ Hall). simpl.
  unfold logged, importing, reads. simpl. by rewrite <- !app_assoc.
Qed.

Lemma deletions_run (overwrite : bool) (existing : list RackLayoutSlot.t)
      c st :
  API (vars st) = Some c ->
  (forall h id, onDeleteRackLayoutSlot srv h c id = None) ->
  (if overwrite
   then forEach existing
          (fun s => bailOn (DeleteRackLayoutSlot srv (RackLayoutSlot.ID s)))
   else ret tt) st
  = (Done tt, logged c (deletions overwrite existing) st).
Proof.
  intros Ha Hdel. destruct overwrite; simpl.
  - unfold DeleteRackLayoutSlot.
    rewrite (forEach_accepted existing
               (fun s : RackLayoutSlot.t =>
                  OpDeleteRackLayoutSlot (RackLayoutSlot.ID s))
               (fun (s : RackLayoutSlot.t) c h =>
                  onDeleteRackLayoutSlot srv h c (RackLayoutSlot.ID s))
               c st Ha); [done|].
    intros x h _. apply Hdel.
  - unfold ret. by rewrite logged_nil.
Qed.

Lemma indexBy_last key (ps : list HardwareProduct.t) k :
  indexBy key ps !! k = last (filter (fun p => key p = k) ps).
Proof.
  unfold indexBy.
  assert (Hgen : forall m : gmap string HardwareProduct.t,
             fold_left (fun m p => <[key p := p]> m) ps m !! k
             = match last (filter (fun p => key p = k) ps) with
               | Some p => Some p
               | None => m !! k
               end).
  { induction ps as [|p ps IH]; intros m; simpl; [done|].
    rewrite IH, filter_cons. destruct (decide (key p = k)) as [Hk|Hk].
    - rewrite last_cons.
      destruct (last (filter (fun p => key p = k) ps)); [done|].
      by rewrite Hk, lookup_insert_eq.
    - destruct (last (filter (fun p => key p = k) ps)); [done|].
      by rewrite lookup_insert_ne. }
  rewrite Hgen. destruct (last _); [done|]. apply lookup_empty.
Qed.

Lemma indexBy_present key (ps : list HardwareProduct.t) k :
  In k (map key ps) -> is_Some (indexBy key ps !! k).
Proof.
  rewrite indexBy_last. induction ps as [|p ps IH]; simpl; [done|].
  intros [Hk|Hk]; rewrite filter_cons.
  - rewrite decide_True by done. rewrite last_cons.
    destruct (last _); by eexists.
  - destruct (decide (key p = k)); [|by apply IH].
    rewrite last_cons. destruct (last _); by eexists.
Qed.

End ImportRuns.

(** X6.  A rack that already has a layout is not touched without
    [--overwrite]: the import bails after its first two reads, whatever
    the imported layout holds, and does not even fetch the product
    list. *)
Theorem rackImportLayout_keeps_layout_without_overwrite
        (srv : world.Server) {UI : client.Unmarshal rack.importLayout}
        (st : world.State) (c : Conch.t) (b : string)
        (layout : rack.importLayout) (rk : Rack.t)
        (existing : list RackLayoutSlot.t) :
  world.API (world.vars st) = Some c ->
  client.unmarshal b ([] : rack.importLayout) = (layout, None) ->
  (forall h, world.onGetRack srv h c (world.GRackUUID (world.vars st))
             = inl rk) ->
  (forall h, world.onGetRackLayout srv h c rk = inl existing) ->
  existing <> [] ->
  rack.rackImportLayout srv (inl b) false st
  = (world.Bailed
       (errors_New "rack already has a layout. Use --overwrite to overwrite"),
     imports.logged c
       [world.OpGetRack (world.GRackUUID (world.vars st));
        world.OpGetRackLayout rk]
       (imports.importing st)).
Proof.
  intros Ha Hu Hrack Hlay Hne. unfold rack.rackImportLayout.
  repeat (progress (unfold world.bind at 1, world.ret, world.setVars,
                      world.getVars, rack.orBail, rack.bailOn, util.Bail,
                      rack.GetRack, rack.GetRackLayout, util.theAPI,
                      world.perform, world.panic; simpl)).
  rewrite Hu. simpl. rewrite Ha. simpl. rewrite Hrack. simpl.
  rewrite ?Ha. simpl. rewrite Hlay. simpl.
  destruct existing as [|s existing]; [done|]. simpl.
  unfold imports.logged, imports.importing. simpl. by rewrite <- app_assoc.
Qed.

Lemma rackImportLayout_keeps_layout_without_overwrite_witness :
  fst (rack.rackImportLayout (UI := layouts.decodesTo layouts.goodLayout)
         layouts.stocked (inl "layout.json") false layouts.ready)
  = world.Bailed
      (errors_New "rack already has a layout. Use --overwrite to overwrite").
Proof.
  rewrite (rackImportLayout_keeps_layout_without_overwrite
             (UI := layouts.decodesTo layouts.goodLayout)
             layouts.stocked layouts.ready fixtures.theClient "layout.json"
             layouts.goodLayout layouts.theRack [layouts.oldSlot]);
    try reflexivity. discriminate.
Defined.

(** X7.  When every slot passes the check and the server accepts every
    change, the import makes its three reads, then (with [--overwrite])
    one deletion per existing slot, then one save per imported slot, all
    in list order, and nothing else. *)
Theorem rackImportLayout_replaces_layout_in_order
        (srv : world.Server) {UI : client.Unmarshal rack.importLayout}
        (st : world.State) (c : Conch.t) (b : string) (overwrite : bool)
        (layout : rack.importLayout) (rk : Rack.t)
        (existing final : list RackLayoutSlot.t)
        (ps : list HardwareProduct.t) :
  world.API (world.vars st) = Some c ->
  client.unmarshal b ([] : rack.importLayout) = (layout, None) ->
  (forall h, world.onGetRack srv h c (world.GRackUUID (world.vars st))
             = inl rk) ->
  (forall h, world.onGetRackLayout srv h c rk = inl existing) ->
  existing = [] \/ overwrite = true ->
  (forall h, world.onGetHardwareProducts srv h c = inl ps) ->
  Forall2 (imports.checksTo ps (world.GRackUUID (world.vars st)))
          layout final ->
  (forall h id, world.onDeleteRackLayoutSlot srv h c id = None) ->
  (forall h s, world.onSaveRackLayoutSlot srv h c s = None) ->
  rack.rackImportLayout srv (inl b) overwrite st
  = (world.Done tt,
     imports.logged c
       (imports.reads st rk ++ imports.deletions overwrite existing
        ++ imports.saves final)
       (imports.importing st)).
Proof.
  intros Ha Hu Hrack Hlay Hex Hps Hall Hdel Hsave.
  rewrite (rackImportLayout_after_reads srv b overwrite st c layout rk
             existing ps final) by done.
  unfold world.bind.
  rewrite (deletions_run srv overwrite existing c) by done.
  unfold rack.SaveRackLayoutSlot.
  rewrite (forEach_accepted final world.OpSaveRackLayoutSlot
             (fun s c h => world.onSaveRackLayoutSlot srv h c s) c);
    [|done|intros x h _; apply Hsave].
  by rewrite !logged_app.
Qed.

(** X8.  The import does not roll back: when the server refuses the save
    of one slot, the import bails with that error after the deletions and
    the saves before it have been made, and no later slot is saved. *)
Theorem rackImportLayout_stops_at_refused_save_without_rollback
        (srv : world.Server) {UI : client.Unmarshal rack.importLayout}
        (st : world.State) (c : Conch.t) (b : string) (overwrite : bool)
        (layout : rack.importLayout) (rk : Rack.t)
        (existing pre post : list RackLayoutSlot.t) (s : RackLayoutSlot.t)
        (ps : list HardwareProduct.t) (e : error) :
  world.API (world.vars st) = Some c ->
  client.unmarshal b ([] : rack.importLayout) = (layout, None) ->
  (forall h, world.onGetRack srv h c (world.GRackUUID (world.vars st))
             = inl rk) ->
  (forall h, world.onGetRackLayout srv h c rk = inl existing) ->
  existing = [] \/ overwrite = true ->
  (forall h, world.onGetHardwareProducts srv h c = inl ps) ->
  Forall2 (imports.checksTo ps (world.GRackUUID (world.vars st)))
          layout (pre ++ s :: post) ->
  (forall h id, world.onDeleteRackLayoutSlot srv h c id = None) ->
  (forall h y, In y pre -> world.onSaveRackLayoutSlot srv h c y = None) ->
  (forall h, world.onSaveRackLayoutSlot srv h c s = Some e) ->
  rack.rackImportLayout srv (inl b) overwrite st
  = (world.Bailed e,
     imports.logged c
       (imports.reads st rk ++ imports.deletions overwrite existing
        ++ imports.saves (pre ++ [s]))
       (imports.importing st)).
Proof.
  intros Ha Hu Hrack Hlay Hex Hps Hall Hdel Hsave Hbad.
  rewrite (rackImportLayout_after_reads srv b overwrite st c layout rk
             existing ps (pre ++ s :: post)) by done.
  unfold world.bind.
  rewrite (deletions_run srv overwrite existing c) by done.
  unfold rack.SaveRackLayoutSlot.
  rewrite (forEach_refused pre s post world.OpSaveRackLayoutSlot
             (fun s c h => world.onSaveRackLayoutSlot srv h c s) c e);
    [|done|intros y h Hy; by apply Hsave|done].
  by rewrite !logged_app.
Qed.

Lemma rackImportLayout_replaces_layout_in_order_witness :
  map world.op
      (world.calls
         (snd (rack.rackImportLayout
                 (UI := layouts.decodesTo layouts.goodLayout)
                 layouts.stocked (inl "layout.json") true layouts.ready)))
  = [world.OpGetRack 7%N; world.OpGetRackLayout layouts.theRack;
     world.OpGetHardwareProducts; world.OpDeleteRackLayoutSlot 21%N;
     world.OpSaveRackLayoutSlot (imports.slotFor 7%N 11%N 1);
     world.OpSaveRackLayoutSlot (imports.slotFor 7%N 12%N 3)].
Proof.
  rewrite (rackImportLayout_replaces_layout_in_order
             (UI := layouts.decodesTo layouts.goodLayout)
             layouts.stocked layouts.ready fixtures.theClient "layout.json"
             true layouts.goodLayout layouts.theRack [layouts.oldSlot]
             [imports.slotFor 7%N 11%N 1; imports.slotFor 7%N 12%N 3]
             layouts.catalogue);
    try reflexivity.
  - by right.
  - repeat constructor; intros st; vm_compute; reflexivity.
Defined.

Lemma rackImportLayout_stops_at_refused_save_without_rollback_witness :
  map world.op
      (world.calls
         (snd (rack.rackImportLayout
                 (UI := layouts.decodesTo
                          (layouts.goodLayout
                           ++ [layouts.slot 5 0%N "PowerEdge" ""]))
                 (imports.refusingAt 3) (inl "layout.json") true
                 layouts.ready)))
  = [world.OpGetRack 7%N; world.OpGetRackLayout layouts.theRack;
     world.OpGetHardwareProducts; world.OpDeleteRackLayoutSlot 21%N;
     world.OpSaveRackLayoutSlot (imports.slotFor 7%N 11%N 1);
     world.OpSaveRackLayoutSlot (imports.slotFor 7%N 12%N 3)].
Proof.
  rewrite (rackImportLayout_stops_at_refused_save_without_rollback
             (UI := layouts.decodesTo
                      (layouts.goodLayout
                       ++ [layouts.slot 5 0%N "PowerEdge" ""]))
             (imports.refusingAt 3) layouts.ready fixtures.theClient
             "layout.json" true
             (layouts.goodLayout ++ [layouts.slot 5 0%N "PowerEdge" ""])
             layouts.theRack [layouts.oldSlot]
             [imports.slotFor 7%N 11%N 1] [imports.slotFor 7%N 11%N 5]
             (imports.slotFor 7%N 12%N 3)
             layouts.catalogue (ErrorString "rack unit is occupied"));
    try reflexivity.
  - by right.
  - repeat constructor; intros st; vm_compute; reflexivity.
  - intros h y [<-|[]]. reflexivity.
Defined.

(** X9.  A slot without a product UUID that carries a name is resolved by
    that name alone, and when several products of the server's list share
    the name, the last one in the list is taken. *)
Theorem checkSlot_name_resolves_to_last_match
        (ps : list HardwareProduct.t) (rackID : uuid.UUID)
        (l : rack.importLayoutSlot) (p : HardwareProduct.t) :
  uuid.Equal (rack.ProductID l) uuid.Nil = true ->
  rack.ProductName l <> "" ->
  last (filter (fun q => HardwareProduct.Name q = rack.ProductName l) ps)
    = Some p ->
  uuid.Equal (HardwareProduct.ID p) uuid.Nil = false ->
  imports.checksTo ps rackID l
    (imports.slotFor rackID (HardwareProduct.ID p) (rack.RUStart l)).
Proof.
  intros Hz Hn Hlast Hp st. unfold rack.checkSlot, world.bind, world.ret.
  rewrite Hz, (nonEmpty_true _ Hn), indexBy_last, Hlast. simpl.
  by rewrite Hp.
Qed.

Lemma checkSlot_name_resolves_to_last_match_witness :
  imports.checksTo
    (layouts.catalogue ++ [layouts.product 13%N "PowerEdge" "pe2"])
    7%N (layouts.slot 1 0%N "PowerEdge" "sw")
    (imports.slotFor 7%N 13%N 1).
Proof.
  apply (checkSlot_name_resolves_to_last_match
           (layouts.catalogue ++ [layouts.product 13%N "PowerEdge" "pe2"])
           7%N (layouts.slot 1 0%N "PowerEdge" "sw")
           (layouts.product 13%N "PowerEdge" "pe2"));
    try reflexivity. discriminate.
Defined.

(** X10.  A slot that carries a product UUID is checked against the
    server's product list by that UUID only: it passes unchanged when the
    list holds the UUID, whatever its name and alias say, and the import
    bails with "Product ID ... is unknown" otherwise. *)
Theorem checkSlot_with_product_id_ignores_name_and_alias
        (ps : list HardwareProduct.t) (rackID : uuid.UUID)
        (l : rack.importLayoutSlot) :
  uuid.Equal (rack.ProductID l) uuid.Nil = false ->
  (In (uuid.String_ (rack.ProductID l))
      (map (fun p => uuid.String_ (HardwareProduct.ID p)) ps) ->
   imports.checksTo ps rackID l
     (imports.slotFor rackID (rack.ProductID l) (rack.RUStart l)))
  /\ (~ In (uuid.String_ (rack.ProductID l))
           (map (fun p => uuid.String_ (HardwareProduct.ID p)) ps) ->
      forall st,
        rack.checkSlot
          (rack.indexBy HardwareProduct.Alias ps)
          (rack.indexBy HardwareProduct.Name ps)
          (rack.indexBy (fun p => uuid.String_ (HardwareProduct.ID p)) ps)
          rackID l st
        = (world.Bailed
             (errors_New ("Product ID " +:+ uuid.String_ (rack.ProductID l)
                          +:+ " is unknown")),
           st)).
Proof.
  intros Hz. split.
  - intros Hin st. unfold rack.checkSlot, world.bind, world.ret. rewrite Hz.
    destruct (indexBy_present _ _ _ Hin) as [p ->]. done.
  - intros Hout st. unfold rack.checkSlot, world.bind, world.ret, util.Bail.
    rewrite Hz. by rewrite (indexBy_absent _ _ _ Hout).
Qed.

Lemma checkSlot_with_product_id_ignores_name_and_alias_witness :
  imports.checksTo layouts.catalogue 7%N
    (layouts.slot 4 12%N "PowerEdge" "nothing")
    (imports.slotFor 7%N 12%N 4).
Proof.
  apply (proj1 (checkSlot_with_product_id_ignores_name_and_alias
                  layouts.catalogue 7%N
                  (layouts.slot 4 12%N "PowerEdge" "nothing") eq_refl)).
  simpl. right. left. reflexivity.
Defined.

(** ** Device display: the whole run *)

Section DisplayRuns.
Import Strings world util built tables imports displays.
Variable srv : Server.
Variable Local : time.Location.
Variable marshalDevice : Device.t -> json.value + error.

(** The location loop when every fetch succeeds. *)
Lemma fillIn_located locate c devices : forall acc st,
  API (vars st) = Some c ->
  (forall h serial, onGetDeviceLocation srv h c serial = inl (locate serial)) ->
  fillIn srv devices acc st
  = (Done (inl (acc ++ map (located locate) devices)),
     logged c (fetches devices) st).
Proof.
  induction devices as [|d devices IH]; intros acc st Ha Hloc; simpl.
  - unfold ret, fetches. simpl. by rewrite app_nil_r, logged_nil.
  - destruct (needsLocation d) eqn:En; pose proof En as En';
      unfold needsLocation in En'; rewrite En'; unfold fetches, located;
      rewrite En.
    + rewrite filter_cons_True by done.
      repeat (progress (unfold bind, GetDeviceLocation, theAPI, getVars,
                          perform, ret; simpl)).
      rewrite Ha. simpl. rewrite Hloc. simpl.
      rewrite IH by done. rewrite <- app_assoc. simpl.
      f_equal. unfold logged, fetches. simpl. by rewrite <- app_assoc.
    + rewrite filter_cons_False by (by rewrite En).
      rewrite IH by done. by rewrite <- app_assoc.
Qed.

(** The location loop up to a fetch that fails. *)
Lemma fillIn_failed locate c pre d post e : forall acc st,
  API (vars st) = Some c ->
  (forall h d', In d' pre -> needsLocation d' = true ->
                onGetDeviceLocation srv h c (Device.ID d')
                = inl (locate (Device.ID d'))) ->
  needsLocation d = true ->
  (forall h, onGetDeviceLocation srv h c (Device.ID d) = inr e) ->
  fillIn srv (pre ++ d :: post) acc st
  = (Done (inr e),
     logged c (fetches pre ++ [OpGetDeviceLocation (Device.ID d)]) st).
Proof.
  induction pre as [|d' pre IH]; intros acc st Ha Hloc Hd Hbad; simpl.
  - unfold needsLocation in Hd. rewrite Hd.
    repeat (progress (unfold bind, GetDeviceLocation, theAPI, getVars,
                        perform, ret; simpl)).
    rewrite Ha. simpl. by rewrite Hbad.
  - destruct (needsLocation d') eqn:En; pose proof En as En';
      unfold needsLocation in En'; rewrite En'; unfold fetches.
    + rewrite filter_cons_True by done.
      repeat (progress (unfold bind, GetDeviceLocation, theAPI, getVars,
                          perform, ret; simpl)).
      rewrite Ha. simpl. rewrite (Hloc _ d') by (done || by left). simpl.
      rewrite IH; [|done|intros h x Hx; apply Hloc; by right|done|done].
      f_equal. unfold logged, fetches. simpl. by rewrite <- app_assoc.
    + rewrite filter_cons_False by (by rewrite En).
      rewrite IH; [done|done|intros h x Hx; apply Hloc; by right|done|done].
Qed.

End DisplayRuns.

(** X11.  In table mode the full output fetches the location of exactly
    the devices that have no rack name, in list order, and then prints
    one row per device, in order, with the fetched location filled in. *)
Theorem DisplayDevices_full_table_fetches_missing_locations
        (srv : world.Server) (Local : time.Location)
        (marshalDevice : Device.t -> json.value + error)
        (locate : string -> DeviceLocation.t) (c : Conch.t)
        (devices : list Device.t) (st : world.State) :
  world.JSON (world.vars st) = false ->
  world.API (world.vars st) = Some c ->
  (forall h serial,
      world.onGetDeviceLocation srv h c serial = inl (locate serial)) ->
  util.DisplayDevices srv Local marshalDevice devices true st
  = (world.Done None,
     {| world.vars := world.vars st;
        world.calls :=
          world.calls (imports.logged c (displays.fetches devices) st);
        world.stdout :=
          world.stdout st
          ++ [world.OutTable
                {| world.Header := util.deviceHeader true;
                   world.Rows :=
                     map (fun d => util.deviceRow Local true
                                     (displays.located locate d))
                         devices |}] |}).
Proof.
  intros Hj Ha Hloc. unfold util.DisplayDevices. unfold world.bind at 1.
  rewrite (fillIn_located srv locate c devices [] st Ha Hloc). simpl.
  unfold world.bind, world.getVars, world.print, world.ret. simpl.
  rewrite Hj. rewrite rows_appended. simpl. by rewrite map_map.
Qed.

Lemma DisplayDevices_full_table_fetches_missing_locations_witness :
  map world.op
      (world.calls
         (snd (util.DisplayDevices displays.placing time.UTC_loc
                 tables.wholeDevice
                 [tables.placedDevice; displays.lostDevice;
                  tables.blankDevice]
                 true layouts.ready)))
  = [world.OpGetDeviceLocation "SERIAL2";
     world.OpGetDeviceLocation "SERIAL1"].
Proof.
  rewrite (DisplayDevices_full_table_fetches_missing_locations
             displays.placing time.UTC_loc tables.wholeDevice
             (fun _ => {| DeviceLocation.Room_AZ := "az-1";
                          DeviceLocation.Rack_Name := "R12" |})
             fixtures.theClient
             [tables.placedDevice; displays.lostDevice; tables.blankDevice]
             layouts.ready);
    reflexivity.
Defined.

(** X12.  When a location fetch fails, the full output returns that
    error to its caller and prints nothing, in table and in JSON mode
    alike; the devices after the failing one are not looked up. *)
Theorem DisplayDevices_full_returns_first_location_error
        (srv : world.Server) (Local : time.Location)
        (marshalDevice : Device.t -> json.value + error)
        (locate : string -> DeviceLocation.t) (c : Conch.t)
        (pre post : list Device.t) (d : Device.t) (e : error)
        (st : world.State) :
  world.API (world.vars st) = Some c ->
  (forall h d', In d' pre -> displays.needsLocation d' = true ->
     world.onGetDeviceLocation srv h c (Device.ID d')
     = inl (locate (Device.ID d'))) ->
  displays.needsLocation d = true ->
  (forall h, world.onGetDeviceLocation srv h c (Device.ID d) = inr e) ->
  util.DisplayDevices srv Local marshalDevice (pre ++ d :: post) true st
  = (world.Done (Some e),
     imports.logged c
       (displays.fetches pre ++ [world.OpGetDeviceLocation (Device.ID d)])
       st).
Proof.
  intros Ha Hloc Hd Hbad. unfold util.DisplayDevices. unfold world.bind at 1.
  by rewrite (fillIn_failed srv locate c pre d post e [] st Ha Hloc Hd Hbad).
Qed.

Lemma DisplayDevices_full_returns_first_location_error_witness :
  util.DisplayDevices displays.misplacing time.UTC_loc tables.wholeDevice
    [tables.placedDevice; tables.blankDevice; displays.lostDevice;
     tables.blankDevice] true (tables.jsonMode layouts.ready)
  = (world.Done (Some (ErrorString "no such device")),
     imports.logged fixtures.theClient
       [world.OpGetDeviceLocation "SERIAL1";
        world.OpGetDeviceLocation "SERIAL2"]
       (tables.jsonMode layouts.ready)).
Proof.
  apply (DisplayDevices_full_returns_first_location_error
           displays.misplacing time.UTC_loc tables.wholeDevice
           (fun _ => {| DeviceLocation.Room_AZ := "az-1";
                        DeviceLocation.Rack_Name := "R12" |})
           fixtures.theClient
           [tables.placedDevice; tables.blankDevice] [tables.blankDevice]
           displays.lostDevice (ErrorString "no such device")
           (tables.jsonMode layouts.ready));
    try reflexivity.
  intros h d' [<-|[<-|[]]] Hn; [discriminate Hn|reflexivity].
Defined.

(** X13.  Without the full output the display never contacts the server
    and needs no client: whatever the mode and the state, the call log
    and the package variables are left as they were. *)
Theorem DisplayDevices_short_makes_no_call
        (srv : world.Server) (Local : time.Location)
        (marshalDevice : Device.t -> json.value + error)
        (devices : list Device.t) (st : world.State) :
  let st' := snd (util.DisplayDevices srv Local marshalDevice devices false
                                     st) in
  world.calls st' = world.calls st /\ world.vars st' = world.vars st.
Proof.
  unfold util.DisplayDevices, util.JSONOut, util.marshalArray, world.bind,
    world.ret, world.getVars, world.print, util.Bail. simpl.
  destruct (world.JSON (world.vars st)); simpl; [|done].
  by destruct (util.marshalSlice util.marshalCondensed
                 (map util.condense devices)).
Qed.

(** X14.  Every table of devices is rectangular: each row has exactly as
    many cells as the header has columns, in the short and the full
    layout, for [DisplayDevices] rows and for [TableizeMinimalDevices]
    rows, and there is one row per device. *)
Theorem device_tables_are_rectangular
        (Local : time.Location) (full : bool)
        (devices : list Device.t) (minimals : list MinimalDevice.t)
        (table : world.Table) :
  Forall (fun row => length row = length (util.deviceHeader full))
         (map (util.deviceRow Local full) devices)
  /\ (let t := util.TableizeMinimalDevices Local minimals full table in
      world.Header t = util.minimalHeader full
      /\ length (world.Rows t)
         = (length (world.Rows table) + length minimals)%nat
      /\ Forall (fun row => length row = length (world.Header t))
                (map (util.minimalRow Local full) minimals)).
Proof.
  split; [|rewrite TableizeMinimalDevices_rows; simpl; repeat split].
  - apply Forall_forall. intros row Hrow.
    apply list_elem_of_In, in_map_iff in Hrow as (d & <- & _).
    by destruct full.
  - by rewrite length_app, length_map.
  - apply Forall_forall. intros row Hrow.
    apply list_elem_of_In, in_map_iff in Hrow as (d & <- & _).
    by destruct full.
Qed.

(** ** Device flags *)

(** X15.  The flags column encodes the deactivated, validated and
    graduated marks of a device without loss: it holds "X", "v" and "g"
    exactly for the marks that are set, at most three characters in all,
    and two devices get the same flags exactly when their marks agree. *)
Theorem GenerateDeviceFlags_encodes_the_three_marks (d d' : Device.t) :
  let f := flags.GenerateDeviceFlags d in
  Strings.ContainsByte f "X" = negb (time.IsZero (Device.Deactivated d))
  /\ Strings.ContainsByte f "v" = negb (time.IsZero (Device.Validated d))
  /\ Strings.ContainsByte f "g" = negb (time.IsZero (Device.Graduated d))
  /\ (String.length f <= 3)%nat
  /\ (f = flags.GenerateDeviceFlags d' <-> flags.marks d = flags.marks d').
Proof.
  unfold flags.GenerateDeviceFlags, flags.marks.
  destruct (time.IsZero (Device.Deactivated d)),
    (time.IsZero (Device.Validated d)),
    (time.IsZero (Device.Graduated d)),
    (time.IsZero (Device.Deactivated d')),
    (time.IsZero (Device.Validated d')),
    (time.IsZero (Device.Graduated d'));
    vm_compute; repeat split; (lia || congruence || idtac);
    try (intros; discriminate).
Qed.

(** ** Rack roles: what a failed save leaves behind *)

(** X16.  [SaveGlobalRackRole] changes the caller's role only by decoding
    a reply: when the request fails in transport, or is answered with 204
    or with a status outside 2xx, the role is handed back exactly as it
    was passed in, and the call neither bails nor panics. *)
Theorem SaveGlobalRackRole_keeps_role_without_decoded_reply
        (srv : world.Server) {UE : client.Unmarshal APIError.t}
        {UP : client.Unmarshal (option GlobalRackRole.t)}
        (c : Conch.t) (r : GlobalRackRole.t) (st : world.State) :
  quiet.undecoded srv c ->
  exists e, fst (client.SaveGlobalRackRole srv c r st) = world.Done (r, e).
Proof.
  intros Hq. unfold client.SaveGlobalRackRole.
  destruct (negb (Strings.nonEmpty (GlobalRackRole.Name r)));
    [eexists; reflexivity|].
  destruct (GlobalRackRole.RackSize r =? 0)%Z; [eexists; reflexivity|].
  unfold world.bind.
  destruct (uuid.Equal (GlobalRackRole.ID r) uuid.Nil);
    unfold client.Receive, world.bind, world.perform; simpl;
    match goal with
    | |- context [world.onHTTP srv ?h c ?m ?p ?b] =>
        specialize (Hq h m p b);
        destruct (world.onHTTP srv h c m p b) as [resp|err]
    end; simpl; try (eexists; reflexivity);
    (destruct (world.StatusCode resp =? 204)%Z eqn:E204; simpl;
     [eexists; reflexivity|]);
    (destruct Hq as [H204|H2xx]; [apply Z.eqb_neq in E204; done|]);
    rewrite H2xx; simpl;
    unfold client.decodeInto;
    destruct (client.unmarshal (world.Body resp) APIError.zero);
    simpl; eexists; reflexivity.
Qed.

Lemma SaveGlobalRackRole_keeps_role_without_decoded_reply_witness :
  exists e,
    fst (client.SaveGlobalRackRole
           (UE := replies.plainError) (UP := quiet.overwriting)
           (replies.answering replies.broken) fixtures.theClient
           (replies.role 0%N "storage" 42%Z) (fixtures.fresh "0"))
    = world.Done (replies.role 0%N "storage" 42%Z, e).
Proof.
  apply (SaveGlobalRackRole_keeps_role_without_decoded_reply
           (UE := replies.plainError) (UP := quiet.overwriting)
           (replies.answering replies.broken) fixtures.theClient
           (replies.role 0%N "storage" 42%Z) (fixtures.fresh "0")).
  intros h m path body. simpl. right. reflexivity.
Defined.

(** ** Password rules *)

Section RuneCounts.
Import utf8.

Lemma RuneCountInString_step c rest :
  exists tail k,
    RuneCountInString (String c rest) = S (RuneCountInString tail)
    /\ (String.length (String c rest) = k + String.length tail)%nat
    /\ (1 <= k <= 4)%nat.
Proof.
  cbn [RuneCountInString].
  destruct (N_of_ascii c <? RuneSelf)%N; [exists rest, 1%nat; simpl; lia|].
  destruct (first (N_of_ascii c) =? xx)%N; [exists rest, 1%nat; simpl; lia|].
  destruct (N.of_nat (String.length (String c rest))
            <? N.land (first (N_of_ascii c)) 7)%N;
    [exists rest, 1%nat; simpl; lia|].
  destruct (acceptRanges _) as [lo hi].
  destruct rest as [|c1 rest1]; [exists EmptyString, 1%nat; simpl; lia|].
  destruct (outside c1 lo hi); [exists (String c1 rest1), 1%nat; simpl; lia|].
  destruct (N.land _ 7 =? 2)%N; [exists rest1, 2%nat; simpl; lia|].
  destruct rest1 as [|c2 rest2];
    [exists (String c1 EmptyString), 1%nat; simpl; lia|].
  destruct (outside c2 locb hicb);
    [exists (String c1 (String c2 rest2)), 1%nat; simpl; lia|].
  destruct (N.land _ 7 =? 3)%N; [exists rest2, 3%nat; simpl; lia|].
  destruct rest2 as [|c3 rest3];
    [exists (String c1 (String c2 EmptyString)), 1%nat; simpl; lia|].
  destruct (outside c3 locb hicb);
    [exists (String c1 (String c2 (String c3 rest3))), 1%nat; simpl; lia|].
  exists rest3, 4%nat; simpl; lia.
Qed.

(** A rune takes between one and four bytes. *)
Lemma RuneCountInString_bounds s :
  (RuneCountInString s <= String.length s <= 4 * RuneCountInString s)%nat.
Proof.
  remember (String.length s) as n eqn:Hn.
  revert s Hn. induction n as [n IH] using lt_wf_ind. intros s Hn.
  destruct s as [|c rest]; [simpl in *; lia|].
  destruct (RuneCountInString_step c rest) as (tail & k & -> & Hlen & Hk).
  specialize (IH (String.length tail) ltac:(lia) tail eq_refl). lia.
Qed.

Lemma RuneCountInString_ascii s :
  ascii_only s = true -> RuneCountInString s = String.length s.
Proof.
  induction s as [|c rest IH]; [done|]. cbn [ascii_only RuneCountInString].
  intros [Hc Hrest]%andb_prop. rewrite Hc. simpl. by rewrite IH.
Qed.

End RuneCounts.

(** X17.  The length rule counts characters, not bytes.  A password of
    fewer than twelve bytes is always refused for its length, before the
    user name is looked at; one of forty-eight bytes or more is never
    refused for its length; and in between the byte length does not
    decide. *)
Theorem IsPasswordSane_length_rule_counts_runes
        (EqualFold : string -> string -> bool) (password : string)
        (profile : option ConchProfile.t) :
  ((String.length password < 12)%nat ->
   passwords.IsPasswordSane EqualFold password profile
   = Some (errors_New "length must be >= 12"))
  /\ ((48 <= String.length password)%nat ->
      passwords.IsPasswordSane EqualFold password profile
      <> Some (errors_New "length must be >= 12"))
  /\ (passwords.IsPasswordSane EqualFold password profile
      = Some (errors_New "length must be >= 12")
      <-> (utf8.RuneCountInString password < 12)%nat).
Proof.
  pose proof (RuneCountInString_bounds password) as Hb.
  unfold passwords.IsPasswordSane.
  destruct (utf8.RuneCountInString password <? 12)%nat eqn:E.
  - apply Nat.ltb_lt in E. repeat split; try done; lia.
  - apply Nat.ltb_ge in E. repeat split; try lia;
      destruct profile as [p|]; try destruct (EqualFold _ _); try done;
      try lia.
Qed.

Lemma IsPasswordSane_length_rule_counts_runes_witness :
  passwords.IsPasswordSane passwords.sameFold "Tr0ub4dor&3"
    (Some passwords.someone)
  = Some (errors_New "length must be >= 12").
Proof.
  apply (IsPasswordSane_length_rule_counts_runes
           passwords.sameFold "Tr0ub4dor&3" (Some passwords.someone)).
  simpl. lia.
Defined.

(** X18.  For a password of ASCII characters the rules are exactly: at
    least twelve characters, and, when a profile is given, no match with
    its user name under case folding.  Without a profile the length
    alone decides. *)
Theorem IsPasswordSane_accepts_ascii_exactly
        (EqualFold : string -> string -> bool) (password : string)
        (profile : option ConchProfile.t) :
  utf8.ascii_only password = true ->
  (passwords.IsPasswordSane EqualFold password profile = None
   <-> (12 <= String.length password)%nat
       /\ forall p, profile = Some p ->
                    EqualFold password (ConchProfile.User p) = false).
Proof.
  intros Ha. unfold passwords.IsPasswordSane.
  rewrite (RuneCountInString_ascii password Ha).
  destruct (String.length password <? 12)%nat eqn:E.
  - apply Nat.ltb_lt in E. split; [done|]. intros [H _]. lia.
  - apply Nat.ltb_ge in E. destruct profile as [p|].
    + destruct (EqualFold password (ConchProfile.User p)) eqn:Ef.
      * split; [done|]. intros [_ H]. specialize (H p eq_refl). congruence.
      * split; [|done]. intros _. split; [done|]. by intros ? [= <-].
    + split; [|done]. intros _. split; [done|]. by intros ? [=].
Qed.

Lemma IsPasswordSane_accepts_ascii_exactly_witness :
  passwords.IsPasswordSane passwords.sameFold "correct-horse-battery"
    (Some passwords.someone)
  <> None.
Proof.
  intros H.
  apply (IsPasswordSane_accepts_ascii_exactly
           passwords.sameFold "correct-horse-battery"
           (Some passwords.someone) eq_refl) in H.
  destruct H as [_ H]. specialize (H passwords.someone eq_refl).
  vm_compute in H. discriminate H.
Defined.

(** ** The API tester *)

Section TesterFacts.
Import tester.
Context {Validation : Type} (ValidationID : Validation -> uuid.UUID).

Lemma notePlans_server ps : forall v : Vars Validation,
  ServerPlanID _ (fold_left (notePlan _) ps v)
  = match last (filter (fun p => ValidationPlan.Name p = ServerPlanName) ps)
    with
    | Some p => ValidationPlan.ID p
    | None => ServerPlanID _ v
    end.
Proof.
  induction ps as [|p ps IH] using rev_ind; intros v; [done|].
  rewrite fold_left_app, filter_app. cbn [fold_left]. unfold notePlan at 1.
  destruct (String.eqb_spec (ValidationPlan.Name p) ServerPlanName)
    as [Hn|Hn].
  - rewrite filter_cons_True by done. rewrite filter_nil, last_snoc.
    done.
  - rewrite filter_cons_False by done. rewrite filter_nil, app_nil_r.
    destruct (String.eqb _ SwitchPlanName); simpl; apply IH.
Qed.

Lemma notePlans_switch ps : forall v : Vars Validation,
  SwitchPlanID _ (fold_left (notePlan _) ps v)
  = match last (filter (fun p => ValidationPlan.Name p = SwitchPlanName) ps)
    with
    | Some p => ValidationPlan.ID p
    | None => SwitchPlanID _ v
    end.
Proof.
  induction ps as [|p ps IH] using rev_ind; intros v; [done|].
  rewrite fold_left_app, filter_app. cbn [fold_left]. unfold notePlan at 1.
  destruct (String.eqb_spec (ValidationPlan.Name p) ServerPlanName)
    as [Hn|Hn].
  - rewrite filter_cons_False by (by rewrite Hn).
    rewrite filter_nil, app_nil_r. simpl. apply IH.
  - destruct (String.eqb_spec (ValidationPlan.Name p) SwitchPlanName)
      as [Hs|Hs].
    + rewrite filter_cons_True by done. rewrite filter_nil, last_snoc.
      done.
    + rewrite filter_cons_False by done. rewrite filter_nil, app_nil_r.
      apply IH.
Qed.

Lemma notePlans_validations ps : forall v : Vars Validation,
  Validations _ (fold_left (notePlan _) ps v) = Validations _ v.
Proof.
  induction ps as [|p ps IH]; intros v; [done|]. simpl. rewrite IH.
  unfold notePlan. by repeat destruct (String.eqb _ _).
Qed.

(** The cache holds, under each key, the last validation that has it. *)
Lemma remember_last vs : forall (m : gmap N Validation) k,
  fold_left (remember _ ValidationID) vs m !! k
  = match last (filter (fun x => key (ValidationID x) = k) vs) with
    | Some x => Some x
    | None => m !! k
    end.
Proof.
  induction vs as [|x vs IH] using rev_ind; intros m k; [done|].
  rewrite fold_left_app, filter_app. cbn [fold_left]. unfold remember at 1.
  destruct (decide (key (ValidationID x) = k)) as [Hk|Hk].
  - rewrite filter_cons_True by done. rewrite filter_nil, last_snoc.
    by rewrite Hk, lookup_insert_eq.
  - rewrite filter_cons_False by done. rewrite filter_nil, app_nil_r.
    rewrite lookup_insert_ne by done. apply IH.
Qed.

End TesterFacts.

(** X19.  When the server lists both legacy plans and the validations,
    [prepEnv] returns after exactly its two calls with the plan IDs set
    to those of the last plan of each name, and with a cache that holds,
    for every UUID, the last validation in the list that carries it (and
    nothing for a UUID no validation carries). *)
Theorem prepEnv_records_last_plans_and_validations
        {Validation : Type} (ValidationID : Validation -> uuid.UUID)
        (api : tester.Answers Validation) (v : tester.Vars Validation)
        (ps : list ValidationPlan.t) (vs : list Validation)
        (server switch : ValidationPlan.t) :
  tester.plans _ api = inl ps ->
  tester.validations _ api = inl vs ->
  last (filter (fun p => ValidationPlan.Name p = tester.ServerPlanName) ps)
    = Some server ->
  last (filter (fun p => ValidationPlan.Name p = tester.SwitchPlanName) ps)
    = Some switch ->
  uuid.Equal (ValidationPlan.ID server) uuid.Nil = false ->
  uuid.Equal (ValidationPlan.ID switch) uuid.Nil = false ->
  exists cache,
    tester.prepEnv _ ValidationID api v
    = (tester.Returned,
       {| tester.ServerPlanID := ValidationPlan.ID server;
          tester.SwitchPlanID := ValidationPlan.ID switch;
          tester.Validations := Some cache |},
       [tester.GetValidationPlans; tester.GetValidations])
    /\ forall id,
         cache !! tester.key id
         = last (filter (fun x => tester.key (ValidationID x)
                                  = tester.key id) vs).
Proof.
  intros Hps Hvs Hserver Hswitch Hs Hw.
  exists (fold_left (tester.remember _ ValidationID) vs ∅). split.
  - unfold tester.prepEnv. rewrite Hps, Hvs.
    rewrite notePlans_server, notePlans_switch, Hserver, Hswitch, Hw, Hs.
    reflexivity.
  - intros id. rewrite remember_last.
    destruct (last (filter _ vs)); [reflexivity|]. apply lookup_empty.
Qed.

Lemma prepEnv_records_last_plans_and_validations_witness :
  exists cache,
    tester.prepEnv _ fst tester.legacy (tester.initial _)
    = (tester.Returned,
       {| tester.ServerPlanID := 4%N; tester.SwitchPlanID := 2%N;
          tester.Validations := Some cache |},
       [tester.GetValidationPlans; tester.GetValidations])
    /\ forall id,
         cache !! tester.key id
         = last (filter (fun x => tester.key (fst x) = tester.key id)
                        [(7%N, "cpu_count"); (8%N, "dimm_count");
                         (7%N, "cpu_temperature")]).
Proof.
  apply (prepEnv_records_last_plans_and_validations
           fst tester.legacy (tester.initial _)
           [tester.plan 1 tester.ServerPlanName;
            tester.plan 2 tester.SwitchPlanName;
            tester.plan 3 "Other"; tester.plan 4 tester.ServerPlanName]
           [(7%N, "cpu_count"); (8%N, "dimm_count");
            (7%N, "cpu_temperature")]
           (tester.plan 4 tester.ServerPlanName)
           (tester.plan 2 tester.SwitchPlanName));
    reflexivity.
Defined.

(** X20.  A legacy plan that is not listed, or whose last entry carries
    the nil UUID, is fatal at start-up, and the validations are then not
    fetched.  The switch plan is looked at first: when it is missing the
    message names it, whether or not the server plan is missing too. *)
Theorem prepEnv_missing_plan_is_fatal_switch_first
        {Validation : Type} (ValidationID : Validation -> uuid.UUID)
        (api : tester.Answers Validation) (ps : list ValidationPlan.t) :
  tester.plans _ api = inl ps ->
  let r := tester.prepEnv _ ValidationID api (tester.initial _) in
  (uuid.Equal (tester.lastNamed tester.SwitchPlanName ps) uuid.Nil = true ->
   fst (fst r) = tester.Fatalf "failed to find validation plan '%s'"
                   (tester.ArgString tester.SwitchPlanName)
   /\ snd r = [tester.GetValidationPlans]
   /\ tester.Validations _ (snd (fst r)) = None)
  /\ (uuid.Equal (tester.lastNamed tester.SwitchPlanName ps) uuid.Nil
      = false ->
      uuid.Equal (tester.lastNamed tester.ServerPlanName ps) uuid.Nil
      = true ->
      fst (fst r) = tester.Fatalf "failed to find validation plan '%s'"
                      (tester.ArgString tester.ServerPlanName)
      /\ snd r = [tester.GetValidationPlans]
      /\ tester.Validations _ (snd (fst r)) = None)
  /\ (uuid.Equal (tester.lastNamed tester.SwitchPlanName ps) uuid.Nil
      = false ->
      uuid.Equal (tester.lastNamed tester.ServerPlanName ps) uuid.Nil
      = false ->
      snd r = [tester.GetValidationPlans; tester.GetValidations]).
Proof.
  intros Hps r. subst r. unfold tester.prepEnv, tester.lastNamed.
  rewrite Hps. rewrite notePlans_server, notePlans_switch. simpl.
  split; [|split].
  - intros Hw. rewrite Hw. simpl. by rewrite notePlans_validations.
  - intros Hw Hs. rewrite Hw, Hs. simpl. by rewrite notePlans_validations.
  - intros Hw Hs. rewrite Hw, Hs. by destruct (tester.validations _ api).
Qed.

Lemma prepEnv_missing_plan_is_fatal_switch_first_witness :
  fst (fst (tester.prepEnv _ fst tester.switchless (tester.initial _)))
  = tester.Fatalf "failed to find validation plan '%s'"
      (tester.ArgString tester.SwitchPlanName).
Proof.
  apply (prepEnv_missing_plan_is_fatal_switch_first
           fst tester.switchless [tester.plan 3 "Other"] eq_refl).
  reflexivity.
Defined.

(** ** The order of releases *)

Section OrderFacts.
Import orders.

Lemma good_flip {A} (cmp : A -> A -> comparison) a b :
  good cmp -> cmp a b = Eq -> cmp b a = Eq.
Proof. intros G H. by rewrite (antisym _ G), H. Qed.

Lemma good_subst_r {A} (cmp : A -> A -> comparison) a b c :
  good cmp -> cmp a b = Eq -> cmp c a = cmp c b.
Proof.
  intros G H. rewrite (antisym _ G a c), (antisym _ G b c).
  by rewrite (subst _ G a b H).
Qed.

Lemma good_lex {A} (c1 c2 : A -> A -> comparison) :
  good c1 -> good c2 -> good (lex c1 c2).
Proof.
  intros G1 G2. split; unfold lex.
  - intros a b. rewrite (antisym _ G1 a b).
    destruct (c1 a b); simpl; [apply (antisym _ G2)|done|done].
  - intros a b c. destruct (c1 a b) eqn:Eab; [|done|];
      destruct (c1 b c) eqn:Ebc; try done; intros Hab Hbc.
    + rewrite (subst _ G1 a b Eab c), Ebc. by apply (trans _ G2 a b c).
    + by rewrite (subst _ G1 a b Eab c), Ebc.
    + by rewrite <- (good_subst_r c1 b c a G1 Ebc), Eab.
    + by rewrite (trans _ G1 a b c Eab Ebc).
  - intros a b. destruct (c1 a b) eqn:Eab; [|done|done]. intros Hab c.
    by rewrite (subst _ G1 a b Eab c), (subst _ G2 a b Hab c).
Qed.

Lemma good_on {A B} (f : A -> B) (cmp : B -> B -> comparison) :
  good cmp -> good (on f cmp).
Proof.
  intros G. split; unfold on.
  - intros a b. apply (antisym _ G).
  - intros a b c. apply (trans _ G).
  - intros a b H c. by apply (subst _ G).
Qed.

Lemma good_N : good N.compare.
Proof.
  split.
  - intros a b. apply N.compare_antisym.
  - intros a b c Hab%N.compare_gt_iff Hbc%N.compare_gt_iff.
    apply N.compare_gt_iff. lia.
  - by intros a b ->%N.compare_eq.
Qed.

Lemma good_ascii : good Ascii.compare.
Proof. exact (good_on N_of_ascii N.compare good_N). Qed.

Lemma good_string : good String.compare.
Proof.
  split.
  - intros a b. apply String.compare_antisym.
  - intros a. induction a as [|x a IH]; intros [|y b] [|z c]; simpl;
      try done.
    destruct (Ascii.compare x y) eqn:Exy; [|done|];
      destruct (Ascii.compare y z) eqn:Eyz; try done; intros Hab Hbc.
    + rewrite (subst _ good_ascii x y Exy z), Eyz. by apply (IH b c).
    + by rewrite (subst _ good_ascii x y Exy z), Eyz.
    + by rewrite <- (good_subst_r _ y z x good_ascii Eyz), Exy.
    + by rewrite (trans _ good_ascii x y z Exy Eyz).
  - by intros a b ->%String.compare_eq_iff.
Qed.

Lemma good_comparePR : good semver.comparePR.
Proof.
  split; unfold semver.comparePR.
  - intros a b. destruct (semver.IsNum a), (semver.IsNum b); simpl;
      try done; [apply (antisym _ good_N)|apply (antisym _ good_string)].
  - intros a b c.
    destruct (semver.IsNum a), (semver.IsNum b), (semver.IsNum c);
      try done; [apply (trans _ good_N)|apply (trans _ good_string)].
  - intros a b H c.
    destruct (semver.IsNum a), (semver.IsNum b), (semver.IsNum c);
      try done; [by apply (subst _ good_N)|by apply (subst _ good_string)].
Qed.

Lemma good_comparePre : good semver.comparePre.
Proof.
  split.
  - intros a. induction a as [|x a IH]; intros [|y b]; simpl; try done.
    rewrite (antisym _ good_comparePR x y).
    destruct (semver.comparePR x y); simpl; [apply IH|done|done].
  - intros a. induction a as [|x a IH]; intros [|y b] [|z c]; simpl;
      try done.
    destruct (semver.comparePR x y) eqn:Exy; [|done|];
      destruct (semver.comparePR y z) eqn:Eyz; try done; intros Hab Hbc.
    + rewrite (subst _ good_comparePR x y Exy z), Eyz. by apply (IH b c).
    + by rewrite (subst _ good_comparePR x y Exy z), Eyz.
    + by rewrite <- (good_subst_r _ y z x good_comparePR Eyz), Exy.
    + by rewrite (trans _ good_comparePR x y z Exy Eyz).
  - intros a. induction a as [|x a IH]; intros [|y b]; simpl; try done.
    destruct (semver.comparePR x y) eqn:Exy; [|done|done].
    intros Hab [|z c]; simpl; [done|].
    rewrite (subst _ good_comparePR x y Exy z).
    destruct (semver.comparePR y z); [by apply IH|done|done].
Qed.

Lemma good_preTop : good preTop.
Proof.
  split.
  - intros [|x a] [|y b]; try done.
    apply (antisym _ good_comparePre (x :: a) (y :: b)).
  - intros [|x a] [|y b] [|z c]; try done.
    apply (trans _ good_comparePre (x :: a) (y :: b) (z :: c)).
  - intros [|x a] [|y b]; try done.
    intros H [|z c]; [done|].
    apply (subst _ good_comparePre (x :: a) (y :: b) H (z :: c)).
Qed.

Lemma Compare_lex v o :
  semver.Compare v o
  = lex (on semver.Major N.compare)
        (lex (on semver.Minor N.compare)
             (lex (on semver.Patch N.compare) (on semver.Pre preTop))) v o.
Proof.
  unfold semver.Compare, lex, on, preTop.
  destruct (semver.Major v ?= semver.Major o)%N; [|done|done].
  destruct (semver.Minor v ?= semver.Minor o)%N; [|done|done].
  destruct (semver.Patch v ?= semver.Patch o)%N; [|done|done].
  by destruct (semver.Pre v), (semver.Pre o).
Qed.

Lemma good_Compare : good semver.Compare.
Proof.
  assert (G : good (lex (on semver.Major N.compare)
                     (lex (on semver.Minor N.compare)
                        (lex (on semver.Patch N.compare)
                           (on semver.Pre preTop))))).
  { repeat apply good_lex; apply good_on;
      (apply good_N || apply good_preTop). }
  split.
  - intros a b. rewrite !Compare_lex. apply (antisym _ G).
  - intros a b c. rewrite !Compare_lex. apply (trans _ G).
  - intros a b H c. rewrite !Compare_lex in *. by apply (subst _ G).
Qed.

End OrderFacts.

Section LessFacts.
Import Strings world releases GithubReleases.

(** [Less] on two releases whose tags stand for versions. *)
Lemma Less_stands g i j vi vj :
  stands g i vi -> stands g j vj ->
  Less g i j = Done (semver.GT vi vj).
Proof.
  intros (ri & Hi & Hvi) (rj & Hj & Hvj). unfold Less. rewrite Hi, Hj.
  assert (Hv : forall r v,
    (GithubRelease.TagName r = "" /\ v = Spec.version 0 0 0)
    \/ (GithubRelease.TagName r <> ""
        /\ semver.Parse (TrimLeft (GithubRelease.TagName r) "v") = inl v) ->
    (if negb (nonEmpty (GithubRelease.TagName r))
     then util.MustParse "0.0.0"
     else util.MustParse (TrimLeft (GithubRelease.TagName r) "v"))
    = Done v).
  { intros r v [[-> ->]|[Hne Hp]]; [by vm_compute|].
    destruct (GithubRelease.TagName r) eqn:Et; [done|]. simpl negb.
    cbv iota. unfold util.MustParse. rewrite <- Et in *. by rewrite Hp. }
  by rewrite (Hv ri vi Hvi), (Hv rj vj Hvj).
Qed.

Lemma nonEmpty_app_r s t' : t' <> "" -> s +:+ t' <> "".
Proof. by destruct s, t'. Qed.

Lemma stands_printed g i r n a b c :
  g !! i = Some r ->
  GithubRelease.TagName r = Repeat "v" n +:+ numerals.dotted a b c ->
  numerals.fits a -> numerals.fits b -> numerals.fits c ->
  stands g i (Spec.version a b c).
Proof.
  intros Hi Ht Ha Hb Hc. exists r. split; [done|]. right. rewrite Ht. split.
  - apply nonEmpty_app_r. unfold numerals.dotted.
    destruct (FormatUint_canonical a) as (Hne & _ & _).
    by destruct (FormatUint a).
  - rewrite TrimLeft_v.
    pose proof (dropLeading_repeat "v" n (numerals.dotted a b c)) as Hd.
    rewrite Hd.
    assert (Hfree : Spec.dropLeading "v" (numerals.dotted a b c)
                    = numerals.dotted a b c).
    { unfold numerals.dotted.
      destruct (FormatUint_canonical a) as (Hne & Hdig & _).
      destruct (FormatUint a) as [|x rest] eqn:Ef; [done|].
      simpl in Hdig. apply andb_prop in Hdig as [Hx _].
      simpl. destruct (Ascii.eqb_spec x "v") as [->|]; [done|done]. }
    rewrite Hfree. by apply Parse_dotted.
Qed.

End LessFacts.

(** X21.  On releases whose tags parse, [Less] is the strict weak order
    that [sort.Sort] asks for: it always returns, no release sorts before
    itself, no two releases sort before each other, sorting before is
    transitive, and so is being tied. *)
Theorem Less_is_a_strict_weak_order
        (g : GithubReleases.t) (i j k : nat) (vi vj vk : semver.Version) :
  releases.stands g i vi -> releases.stands g j vj ->
  releases.stands g k vk ->
  let before a b := GithubReleases.Less g a b = world.Done true in
  let tied a b := GithubReleases.Less g a b = world.Done false
                  /\ GithubReleases.Less g b a = world.Done false in
  (exists b, GithubReleases.Less g i j = world.Done b)
  /\ ~ before i i
  /\ (before i j -> ~ before j i)
  /\ (before i j -> before j k -> before i k)
  /\ (tied i j -> tied j k -> tied i k).
Proof.
  intros Hi Hj Hk before tied. subst before tied. cbv beta.
  rewrite !(Less_stands g i j vi vj), !(Less_stands g i i vi vi),
    !(Less_stands g j i vj vi), !(Less_stands g j k vj vk),
    !(Less_stands g i k vi vk), !(Less_stands g k j vk vj),
    !(Less_stands g k i vk vi) by done.
  pose proof good_Compare as G. unfold semver.GT.
  rewrite (orders.antisym _ G vi vj), (orders.antisym _ G vj vk),
    (orders.antisym _ G vi vk).
  split; [by eexists|].
  split.
  { destruct (semver.Compare vi vi) eqn:E; try done.
    pose proof (orders.antisym _ G vi vi) as Ha. rewrite E in Ha. done. }
  split; [by destruct (semver.Compare vi vj)|].
  split.
  - destruct (semver.Compare vi vj) eqn:Eij; try done.
    destruct (semver.Compare vj vk) eqn:Ejk; try done.
    by rewrite (orders.trans _ G vi vj vk Eij Ejk).
  - destruct (semver.Compare vi vj) eqn:Eij; simpl; try (by intros [? ?]).
    destruct (semver.Compare vj vk) eqn:Ejk; simpl; try (by intros _ [? ?]).
    by rewrite (orders.subst _ G vi vj Eij vk), Ejk.
Qed.

Lemma Less_is_a_strict_weak_order_witness :
  exists b,
    GithubReleases.Less
      [releases.tagged "v2.1.0"; releases.tagged "";
       releases.tagged "2.1.0+b7"]
      0 1 = world.Done b.
Proof.
  apply (Less_is_a_strict_weak_order
           [releases.tagged "v2.1.0"; releases.tagged "";
            releases.tagged "2.1.0+b7"]
           0 1 2 (Spec.version 2 1 0) (Spec.version 0 0 0)
           {| semver.Major := 2; semver.Minor := 1; semver.Patch := 0;
              semver.Pre := []; semver.Build := ["b7"] |}).
  - exists (releases.tagged "v2.1.0"). split; [reflexivity|].
    right. split; [discriminate|vm_compute; reflexivity].
  - exists (releases.tagged ""). split; [reflexivity|].
    left. split; reflexivity.
  - exists (releases.tagged "2.1.0+b7"). split; [reflexivity|].
    right. split; [discriminate|vm_compute; reflexivity].
Defined.

(** X22.  Between two releases tagged with a printed version, with or
    without leading "v"s, the one with the greater major, minor, patch
    numbers sorts first; a release without a tag counts as 0.0.0 and
    never sorts before a release tagged this way. *)
Theorem Less_puts_the_newer_release_first
        (g : GithubReleases.t) (i j : nat) (ri rj : GithubRelease.t)
        (n : nat) (a b c : N) (n' : nat) (a' b' c' : N) :
  g !! i = Some ri -> g !! j = Some rj ->
  GithubRelease.TagName rj
    = Strings.Repeat "v" n' +:+ numerals.dotted a' b' c' ->
  numerals.fits a' -> numerals.fits b' -> numerals.fits c' ->
  (GithubRelease.TagName ri
     = Strings.Repeat "v" n +:+ numerals.dotted a b c ->
   numerals.fits a -> numerals.fits b -> numerals.fits c ->
   GithubReleases.Less g i j
   = world.Done (Spec.precedes (Spec.version a' b' c')
                               (Spec.version a b c)))
  /\ (GithubRelease.TagName ri = "" ->
      GithubReleases.Less g i j = world.Done false).
Proof.
  intros Hi Hj Htj Ha' Hb' Hc'.
  pose proof (stands_printed g j rj n' a' b' c' Hj Htj Ha' Hb' Hc') as Sj.
  split.
  - intros Hti Ha Hb Hc.
    pose proof (stands_printed g i ri n a b c Hi Hti Ha Hb Hc) as Si.
    rewrite (Less_stands g i j _ _ Si Sj). by rewrite GT_precedes.
  - intros Hti.
    assert (Si : releases.stands g i (Spec.version 0 0 0)).
    { exists ri. split; [done|]. by left. }
    rewrite (Less_stands g i j _ _ Si Sj). rewrite GT_precedes by done.
    f_equal. unfold Spec.precedes. simpl.
    destruct a', b', c'; done.
Qed.

Lemma Less_puts_the_newer_release_first_witness :
  GithubReleases.Less
    [releases.tagged "v2.10.0"; releases.tagged "v2.9.3"] 0 1
  = world.Done true.
Proof.
  apply (Less_puts_the_newer_release_first
           [releases.tagged "v2.10.0"; releases.tagged "v2.9.3"] 0 1
           (releases.tagged "v2.10.0") (releases.tagged "v2.9.3")
           1 2 10 0 1 2 9 3);
    try reflexivity; unfold numerals.fits; vm_compute; discriminate.
Defined.
